(** * Schema mapper: field paths, similarity scoring, payload transformation
    and the mapping store

    A shallow embedding of the TypeScript services of the schema mapper
    ([SchemaService], [MappingService], [StorageService] and
    [TransformationService]) together with the properties their
    specification states about them.

    Conventions of the embedding.
    - JavaScript numbers are IEEE binary64 values: Rocq's primitive [float].
    - A JavaScript string is modelled by the [string] of the bytes of its
      UTF-8 encoding.  White space is the white space of ECMAScript, also
      beyond ASCII; only ASCII letters are case-folded, and the length and
      the characters of a string are those of its bytes, which are
      JavaScript's for an ASCII string ([Str.is_ascii]).
    - Objects are association lists in own-property order.  Only own
      properties are modelled: a name inherited from [Object.prototype]
      ([Js.inherited]), [Array.prototype] or [String.prototype] reads as
      [undefined], and an assignment under [__proto__] adds a member.
      What depends on the difference is stated for names that are not
      inherited.
    - Exceptions are an explicit [Throw] result.
    - What the code asks of the JavaScript runtime and the repository does
      not determine (printing a number, parsing a date, the text of a
      runtime error) is a member of the class [JsHost]. *)

From Stdlib Require Import ZArith String Ascii List Bool Floats Lia DecimalString Sorted.
From stdpp Require Import base option list gmap strings.
Import ListNotations.

(* Decimal literals such as 0.3 denote the nearest double, as in JavaScript. *)
Set Warnings "-inexact-float".

Local Open Scope string_scope.
Local Open Scope list_scope.

(** ** Strings as the JavaScript runtime handles them *)

Module Str.

Definition lower_ascii (c : ascii) : ascii :=
  let n := nat_of_ascii c in
  if (65 <=? n)%nat && (n <=? 90)%nat then ascii_of_nat (n + 32) else c.

(** [String.prototype.toLowerCase]. *)
Fixpoint toLowerCase (s : string) : string :=
  match s with
  | EmptyString => EmptyString
  | String c r => String (lower_ascii c) (toLowerCase r)
  end.

(** Every character is an ASCII character. *)
Fixpoint is_ascii (s : string) : bool :=
  match s with
  | EmptyString => true
  | String c r => (nat_of_ascii c <? 128)%nat && is_ascii r
  end.

(** White space, as [trim] and [parseFloat] skip it, is the [WhiteSpace]
    and [LineTerminator] of ECMAScript.  Of one byte: TAB, LF, VT, FF, CR
    and SPACE. *)
Definition is_space (c : ascii) : bool :=
  let n := nat_of_ascii c in
  ((9 <=? n)%nat && (n <=? 13)%nat) || (n =? 32)%nat.

(** Of two bytes: U+00A0. *)
Definition is_space2 (c d : ascii) : bool :=
  (nat_of_ascii c =? 194)%nat && (nat_of_ascii d =? 160)%nat.

(** Of three bytes: U+1680, U+2000 to U+200A, U+2028, U+2029, U+202F,
    U+205F, U+3000 and U+FEFF. *)
Definition is_space3 (c d e : ascii) : bool :=
  let x := nat_of_ascii c in
  let y := nat_of_ascii d in
  let z := nat_of_ascii e in
  ((x =? 225) && (y =? 154) && (z =? 128)
   || (x =? 226) && (y =? 128)
      && ((128 <=? z) && (z <=? 138) || (z =? 168) || (z =? 169) || (z =? 175))
   || (x =? 226) && (y =? 129) && (z =? 159)
   || (x =? 227) && (y =? 128) && (z =? 128)
   || (x =? 239) && (y =? 187) && (z =? 191))%nat.

(** [String.prototype.trimStart]. *)
Fixpoint trimStart (s : string) : string :=
  match s with
  | EmptyString => EmptyString
  | String c r =>
      if is_space c then trimStart r
      else
        match r with
        | String d r2 =>
            if is_space2 c d then trimStart r2
            else
              match r2 with
              | String e r3 => if is_space3 c d e then trimStart r3 else s
              | EmptyString => s
              end
        | EmptyString => s
        end
  end.

(** Nothing but white space. *)
Definition blank (s : string) : bool :=
  match trimStart s with EmptyString => true | _ => false end.

(** [String.prototype.trimEnd]: a character is kept when something other
    than white space stands at it or after it. *)
Fixpoint trimEnd (s : string) : string :=
  match s with
  | EmptyString => EmptyString
  | String c r => if blank s then EmptyString else String c (trimEnd r)
  end.

(** [String.prototype.trim]. *)
Definition trim (s : string) : string := trimEnd (trimStart s).

(** [s.startsWith(p)]. *)
Fixpoint startsWith (p s : string) : bool :=
  match p, s with
  | EmptyString, _ => true
  | String a p', String b s' => Ascii.eqb a b && startsWith p' s'
  | String _ _, EmptyString => false
  end.

(** [s.includes(p)]. *)
Fixpoint includes (s p : string) : bool :=
  startsWith p s ||
  match s with
  | EmptyString => false
  | String _ r => includes r p
  end.

(** [s.split(sep)] for a non-empty separator: [skip] counts the characters
    of a separator occurrence still to be dropped, [cur] is the piece read
    so far. *)
Fixpoint split_go (sep : string) (s : string) (skip : nat) (cur : string)
  : list string :=
  match s with
  | EmptyString => [cur]
  | String c r =>
      match skip with
      | S k => split_go sep r k cur
      | O =>
          if startsWith sep s
          then cur :: split_go sep r (String.length sep - 1) EmptyString
          else split_go sep r 0 (cur +:+ String c EmptyString)
      end
  end.

Fixpoint chars (s : string) : list string :=
  match s with
  | EmptyString => []
  | String c r => String c EmptyString :: chars r
  end.

(** [String.prototype.split] with a string separator; the empty separator
    splits into the single characters. *)
Definition split (sep s : string) : list string :=
  match sep with
  | EmptyString => chars s
  | _ => split_go sep s 0 EmptyString
  end.

(** [Array.prototype.join] on strings. *)
Fixpoint join (sep : string) (l : list string) : string :=
  match l with
  | [] => EmptyString
  | [x] => x
  | x :: r => x +:+ sep +:+ join sep r
  end.

(** [s.replace(/[-_]/g, "")]. *)
Fixpoint remove_dash_underscore (s : string) : string :=
  match s with
  | EmptyString => EmptyString
  | String c r =>
      if Ascii.eqb c "-" || Ascii.eqb c "_"
      then remove_dash_underscore r
      else String c (remove_dash_underscore r)
  end.

(** [s.replace(/\[\]/g, "")]: occurrences are removed from left to right and
    the result is not scanned again. *)
Fixpoint remove_brackets (s : string) : string :=
  match s with
  | EmptyString => EmptyString
  | String c r =>
      match r with
      | String d r' =>
          if Ascii.eqb c "[" && Ascii.eqb d "]"
          then remove_brackets r'
          else String c (remove_brackets r)
      | EmptyString => s
      end
  end.

End Str.

(** ** JavaScript values

    [value] is a value as the transformation engine handles it: a primitive
    or a reference to an object or array of the [heap].  References make the
    sharing between the input payload and the output object visible. *)

Definition loc := nat.

Inductive value :=
  | VUndefined
  | VNull
  | VBool (b : bool)
  | VNum (n : float)
  | VStr (s : string)
  | VRef (l : loc).

(** A heap cell: a plain object, or an array with its [length].  Both carry
    their own properties in own-property order; an array holds its elements
    under the index keys ["0"], ["1"], ... *)
Inductive cell :=
  | CObject (props : list (string * value))
  | CArray (len : nat) (props : list (string * value)).

(** Objects are never freed, and a new object takes the next address. *)
Definition heap := list cell.

Definition cell_props (c : cell) : list (string * value) :=
  match c with CObject ps => ps | CArray _ ps => ps end.

(** Runtime errors the engine raises itself (all of them [TypeError] or
    [RangeError]); their message is the host's.  [NotAFunction] is the call
    of a member that is not a function, [NotPrintable] the conversion to a
    string of an object that has no string form. *)
Inductive runtime_error :=
  | ReadOfNullish (key : string) (is_null : bool)
  | InOnPrimitive (key : string) (v : value)
  | SetOnPrimitive (key : string) (v : value)
  | InvalidArrayLength
  | NotAFunction (callee : string)
  | NotPrintable.

Inductive exn :=
  | Error (message : string)
  | Runtime (e : runtime_error).

Inductive result (A : Type) :=
  | Ok (a : A)
  | Throw (e : exn).
Arguments Ok {A} a.
Arguments Throw {A} e.

(** The results of a sequence of steps, in order: the first exception ends
    the sequence. *)
Fixpoint collect {A : Type} (l : list (result A)) : result (list A) :=
  match l with
  | [] => Ok []
  | Throw e :: _ => Throw e
  | Ok a :: r =>
      match collect r with
      | Ok r' => Ok (a :: r')
      | Throw e => Throw e
      end
  end.

Class JsHost := {
  (** [Number::toString]: the shortest decimal that reads back as the number. *)
  number_to_string : float -> string;
  (** [Number.prototype.toFixed(digits)]. *)
  number_toFixed : float -> nat -> string;
  (** [new Date(s).getTime()]: the time value, NaN for an invalid date. *)
  date_getTime : string -> float;
  (** [Date.prototype.toISOString] of a valid time value. *)
  date_toISOString : float -> string;
  (** [error.message] of a runtime error. *)
  runtime_message : runtime_error -> string;
  (** [array.length = v] on an array of the given length and properties:
      the new length and properties, or [None] when it raises [RangeError]. *)
  array_set_length :
    nat -> list (string * value) -> value -> option (nat * list (string * value))
}.

(** ** Numbers *)

Module Num.

Local Open Scope float_scope.

Definition isNaN (x : float) : bool := PrimFloat.is_nan x.

Definition is_negative_zero (x : float) : bool :=
  PrimFloat.is_zero x && PrimFloat.get_sign x.

(** [Math.min(a, b)]. *)
Definition Math_min (a b : float) : float :=
  if isNaN a || isNaN b then nan
  else if a <? b then a
  else if b <? a then b
  else if is_negative_zero a then a else b.

(** The number a natural (an array or string length) denotes. *)
Definition of_nat (n : nat) : float :=
  SF2Prim (binary_normalize prec emax (Z.of_nat n) 0 false).

(** The double nearest to [m * 10 ^ e], ties to even ([m >= 0]).  For a
    negative exponent the quotient is taken with at least 64 bits and a
    sticky bit, which the final rounding to 53 bits reads correctly. *)
Definition of_decimal (m e : Z) : float :=
  if (0 <=? e)%Z
  then SF2Prim (binary_normalize prec emax (m * 10 ^ e) 0 false)
  else
    let d := (10 ^ (- e))%Z in
    let s := Z.max 0 (65 + Z.log2 d - Z.log2 m) in
    let n := (m * 2 ^ s)%Z in
    let q := (n / d)%Z in
    let sticky := if (n mod d =? 0)%Z then 0%Z else 1%Z in
    SF2Prim (binary_normalize prec emax (2 * q + sticky) (- (s + 1)) false).

Definition is_digit (c : ascii) : bool :=
  let n := nat_of_ascii c in (48 <=? n)%nat && (n <=? 57)%nat.

Definition digit_value (c : ascii) : Z := Z.of_nat (nat_of_ascii c - 48).

(** Reads the longest run of decimal digits: their value, how many there
    are, and what follows. *)
Fixpoint digits (s : string) (acc : Z) (count : nat) : Z * nat * string :=
  match s with
  | String c r =>
      if is_digit c then digits r (10 * acc + digit_value c) (S count)
      else (acc, count, s)
  | EmptyString => (acc, count, s)
  end.

(** [ExponentPart]: [e] or [E], an optional sign and at least one digit.
    When no well-formed exponent follows, none is read. *)
Definition exponent (s : string) : Z * string :=
  match s with
  | String c r =>
      if Ascii.eqb c "e" || Ascii.eqb c "E" then
        let '(neg, r1) :=
          match r with
          | String "-" r' => (true, r')
          | String "+" r' => (false, r')
          | _ => (false, r)
          end in
        let '(v, k, rest) := digits r1 0 0 in
        match k with
        | O => (0%Z, s)
        | _ => ((if neg then - v else v)%Z, rest)
        end
      else (0%Z, s)
  | EmptyString => (0%Z, s)
  end.

(** [StrUnsignedDecimalLiteral] without [Infinity]: the longest prefix of
    the forms [digits], [digits.], [digits.digits], [.digits], each with an
    optional exponent; the mantissa, the decimal exponent and the rest. *)
Definition unsigned_decimal (s : string) : option (Z * Z * string) :=
  let '(ip, ni, r1) := digits s 0 0 in
  let '(m, nf, r2) :=
    match r1 with
    | String "." r' =>
        let '(m, nf, r2) := digits r' ip 0 in
        match ni, nf with
        | O, O => (ip, O, r1)
        | _, _ => (m, nf, r2)
        end
    | _ => (ip, O, r1)
    end in
  match ni, nf with
  | O, O => None
  | _, _ =>
      let '(ex, r3) := exponent r2 in
      Some (m, (ex - Z.of_nat nf)%Z, r3)
  end.

Definition unsigned_literal (s : string) : option (float * string) :=
  if Str.startsWith "Infinity" s
  then Some (infinity, String.substring 8 (String.length s - 8) s)
  else
    match unsigned_decimal s with
    | Some (m, e, rest) => Some (of_decimal m e, rest)
    | None => None
    end.

(** The longest prefix of [s], after leading white space, that is a
    [StrDecimalLiteral]: the number it denotes and the characters left
    unread. *)
Definition numeric_prefix (s : string) : option (float * string) :=
  let t := Str.trimStart s in
  match t with
  | String "-" r =>
      match unsigned_literal r with
      | Some (x, rest) => Some (- x, rest)
      | None => None
      end
  | String "+" r => unsigned_literal r
  | _ => unsigned_literal t
  end.

(** The global [parseFloat] on a string. *)
Definition parseFloat (s : string) : float :=
  match numeric_prefix s with
  | Some (x, _) => x
  | None => nan
  end.

End Num.

(** ** The schema tree (src/types/index.ts) *)

Inductive DataType :=
  | STRING | NUMBER | INTEGER | BOOLEAN | ARRAY | OBJECT | NULL.

Definition DataType_eqb (a b : DataType) : bool :=
  match a, b with
  | STRING, STRING | NUMBER, NUMBER | INTEGER, INTEGER | BOOLEAN, BOOLEAN
  | ARRAY, ARRAY | OBJECT, OBJECT | NULL, NULL => true
  | _, _ => false
  end.

(** [SchemaObject]: the members the services read.  [properties] lists the
    declared properties in the order [Object.entries] yields them. *)
#[warnings="-register-all"]
Inductive SchemaObject := mkSchema {
  type : DataType;
  format : option string;
  properties : option (list (string * SchemaObject));
  items : option SchemaObject
}.

Definition leaf (t : DataType) : SchemaObject := mkSchema t None None None.

(** [prefix ? `${prefix}.${key}` : key]; the empty string is falsy. *)
Definition dotted (prefix key : string) : string :=
  match prefix with
  | EmptyString => key
  | _ => prefix +:+ "." +:+ key
  end.

(** [prefix ? `${prefix}[]` : "[]"]. *)
Definition bracketed (prefix : string) : string :=
  match prefix with
  | EmptyString => "[]"
  | _ => prefix +:+ "[]"
  end.

Definition is_container (t : DataType) : bool :=
  match t with OBJECT | ARRAY => true | _ => false end.

Module SchemaService.

(** [SchemaService.getFieldPaths(schema, prefix)]. *)
Fixpoint getFieldPaths (schema : SchemaObject) (prefix : string) : list string :=
  match type schema, properties schema, items schema with
  | OBJECT, Some props, _ =>
      (fix each (l : list (string * SchemaObject)) : list string :=
         match l with
         | [] => []
         | (key, prop) :: rest =>
             let fieldPath := dotted prefix key in
             (fieldPath ::
                (if is_container (type prop) then getFieldPaths prop fieldPath else []))
             ++ each rest
         end) props
  | ARRAY, _, Some it =>
      let arrayPath := bracketed prefix in
      arrayPath :: getFieldPaths it arrayPath
  | _, _, _ => []
  end.

End SchemaService.

(** ** Field correspondences and transformation rules (src/types/index.ts) *)

(** [TransformationRule]; [rule_type] is the rule's [type], and [params] the
    parameter bag, a [Record<string, unknown>]. *)
Record TransformationRule := {
  rule_type : string;
  params : option (list (string * value));
  function : option string
}.

(** [FieldMapping] as the transformation engine reads it.  A path is
    whatever the configuration holds under the key: the interface declares
    a string, but a configuration comes from the store, where neither
    [saveMapping] nor [validateMappingStructure] looks at more than its
    truth value, so that it may be absent ([undefined]) or a number, say. *)
Record FieldMapping := {
  sourceField : value;
  targetField : value;
  sourceType : option DataType;
  targetType : option DataType;
  transformation : option TransformationRule;
  required : bool
}.

(** The constants of the mapper. *)
Module Constants.

(** [Object.values(FIELD_SYNONYMS)], in the order the table is written. *)
Definition FIELD_SYNONYMS : list (string * list string) :=
  [ ("email", ["mail"; "e_mail"; "email_address"; "emailaddress"]);
    ("phone", ["telephone"; "tel"; "phone_number"; "phonenumber"; "mobile";
               "contact_number"; "contactnumber"]);
    ("name", ["fullname"; "full_name"; "display_name"; "displayname"]);
    ("firstName", ["first_name"; "firstname"; "given_name"; "givenname"]);
    ("lastName", ["last_name"; "lastname"; "family_name"; "familyname"; "surname"]);
    ("street", ["address"; "street_address"; "streetaddress"; "street1"]);
    ("city", ["location"; "town"]);
    ("state", ["province"; "region"]);
    ("zipCode", ["zip"; "postal_code"; "postalcode"; "postcode"]);
    ("country", ["nation"]);
    ("birthDate", ["birth_date"; "birthdate"; "dob"; "date_of_birth"; "dateofbirth"]);
    ("companyName", ["company"; "organization"; "org_name"; "orgname";
                     "business_name"; "businessname"]);
    ("status", ["state"; "condition"]);
    ("createdAt", ["created_date"; "createddate"; "creation_date"; "created_on";
                   "created"]);
    ("updatedAt", ["updated_date"; "updateddate"; "last_modified"; "lastmodified";
                   "modified_at"; "modifiedat"]);
    ("id", ["identifier"; "uid"; "unique_id"; "uniqueid"; "entity_id"; "entityid"]) ].

Definition DEFAULT_CONFIDENCE_THRESHOLD : float := 0.7%float.

End Constants.

(** ** MappingService (src/services/mappingService.ts) *)

Module MappingService.

Local Open Scope float_scope.

Record Field := { path : string; schema : SchemaObject }.

Record MappingSuggestion := {
  confidence : float;
  sourceField : string;
  targetField : string;
  reasoning : string;
  suggestedTransformation : option TransformationRule
}.

(** [extractFields(schema, prefix)]. *)
Fixpoint extractFields (schema : SchemaObject) (prefix : string) : list Field :=
  match type schema, properties schema, items schema with
  | OBJECT, Some props, _ =>
      (fix each (l : list (string * SchemaObject)) : list Field :=
         match l with
         | [] => []
         | (key, prop) :: rest =>
             let fieldPath := dotted prefix key in
             ({| path := fieldPath; schema := prop |} ::
                (if is_container (type prop) then extractFields prop fieldPath else []))
             ++ each rest
         end) props
  | ARRAY, _, Some it =>
      let arrayPath := bracketed prefix in
      extractFields it arrayPath
  | _, _, _ => []
  end.

(** [normalizeName(name)]. *)
Definition normalizeName (name : string) : string :=
  Str.remove_brackets (Str.remove_dash_underscore (Str.toLowerCase name)).

Definition str_includes (l : list string) (x : string) : bool :=
  existsb (String.eqb x) l.

(** [checkSynonyms(name1, name2)]. *)
Definition checkSynonyms (name1 name2 : string) : float :=
  if existsb
       (fun synonyms : list string =>
          let normalizedSynonyms := map normalizeName synonyms in
          str_includes normalizedSynonyms name1 && str_includes normalizedSynonyms name2)
       (map snd Constants.FIELD_SYNONYMS)
  then 1.0 else 0.0.

(** [calculateTypeCompatibility(type1, type2)]. *)
Definition calculateTypeCompatibility (type1 type2 : DataType) : float :=
  if DataType_eqb type1 type2 then 1.0
  else
    match type1, type2 with
    | NUMBER, INTEGER | INTEGER, NUMBER => 0.7
    | STRING, NULL | NULL, STRING => 0.7
    | _, _ => 0.0
    end.

(** The score as a function of the five tests and the two factors: the
    additions of [calculateFieldSimilarity] in the order the code makes
    them. *)
Definition accumulate (exact caseless normalized substring : bool)
    (synonymScore typeScore : float) : float :=
  let score := 0 in
  let score := if exact then score + 0.5 else score in
  let score := if caseless then score + 0.3 else score in
  let score := if normalized then score + 0.2 else score in
  let score := score + synonymScore * 0.3 in
  let score := if substring then score + 0.1 else score in
  let score := score + typeScore * 0.3 in
  Num.Math_min score 1.0.

(** [calculateFieldSimilarity(sourceName, targetName, sourceSchema, targetSchema)]. *)
Definition calculateFieldSimilarity (sourceName targetName : string)
    (sourceSchema targetSchema : SchemaObject) : float :=
  let normalizedSource := normalizeName sourceName in
  let normalizedTarget := normalizeName targetName in
  accumulate
    (String.eqb sourceName targetName)
    (String.eqb (Str.toLowerCase sourceName) (Str.toLowerCase targetName))
    (String.eqb normalizedSource normalizedTarget)
    (Str.includes normalizedSource normalizedTarget
     || Str.includes normalizedTarget normalizedSource)
    (checkSynonyms normalizedSource normalizedTarget)
    (calculateTypeCompatibility (type sourceSchema) (type targetSchema)).

Definition format_is (s : SchemaObject) (f : string) : bool :=
  match format s with Some g => String.eqb g f | None => false end.

(** [suggestTransformation(sourceSchema, targetSchema)]. *)
Definition suggestTransformation (sourceSchema targetSchema : SchemaObject)
  : option TransformationRule :=
  if DataType_eqb (type sourceSchema) (type targetSchema) then
    Some {| rule_type := "direct"; params := None; function := None |}
  else
    match type sourceSchema, type targetSchema with
    | STRING, NUMBER =>
        Some {| rule_type := "format";
                params := Some [("from", VStr "string"); ("to", VStr "number")];
                function := Some "parseFloat" |}
    | NUMBER, STRING =>
        Some {| rule_type := "format";
                params := Some [("from", VStr "number"); ("to", VStr "string")];
                function := Some "toString" |}
    | st, tg =>
        if format_is sourceSchema "date" && format_is targetSchema "date-time" then
          Some {| rule_type := "format";
                  params := Some [("from", VStr "date"); ("to", VStr "date-time")];
                  function := None |}
        else
          match st, tg with
          | ARRAY, STRING =>
              Some {| rule_type := "join";
                      params := Some [("separator", VStr ", ")];
                      function := None |}
          | STRING, ARRAY =>
              Some {| rule_type := "split";
                      params := Some [("separator", VStr ",")];
                      function := None |}
          | _, _ => None
          end
    end.

Definition type_name (t : DataType) : string :=
  match t with
  | STRING => "string" | NUMBER => "number" | INTEGER => "integer"
  | BOOLEAN => "boolean" | ARRAY => "array" | OBJECT => "object" | NULL => "null"
  end.

(** [Array.prototype.sort] with the comparator [cmp]: [x] stays before [y]
    unless [cmp x y > 0].  The sort is stable, so for a comparator that
    orders its arguments consistently the result does not depend on the
    engine's algorithm; it is computed here by insertion. *)
Section Sort.
Context {A : Type} (cmp : A -> A -> float).

Fixpoint insert (x : A) (l : list A) : list A :=
  match l with
  | [] => [x]
  | y :: r => if 0 <? cmp x y then y :: insert x r else x :: l
  end.

Fixpoint sort (l : list A) : list A :=
  match l with
  | [] => []
  | x :: r => insert x (sort r)
  end.

End Sort.

Section WithHost.
Context `{JsHost}.

(** [generateReasoning(sourceField, targetField, confidence)]. *)
Definition generateReasoning (sourceField targetField : Field) (confidence : float)
  : string :=
  let normalizedSource := normalizeName (path sourceField) in
  let normalizedTarget := normalizeName (path targetField) in
  let reasons :=
    (if String.eqb (path sourceField) (path targetField)
     then ["Exact field name match"]
     else if String.eqb normalizedSource normalizedTarget
          then ["Field names match after normalization"] else [])
    ++ (if DataType_eqb (type (schema sourceField)) (type (schema targetField))
        then ["Same data type"]
        else ["Type conversion needed: " +:+ type_name (type (schema sourceField))
              +:+ " → " +:+ type_name (type (schema targetField))])
    ++ (if 0 <? checkSynonyms normalizedSource normalizedTarget
        then ["Field names are synonyms"] else [])
    ++ ["Confidence: " +:+ number_toFixed (confidence * 100) 1 +:+ "%"] in
  Str.join "; " reasons.

(** The suggestion pushed for a pair that reaches the threshold. *)
Definition suggestion (sourceField targetField : Field) : MappingSuggestion :=
  let confidence :=
    calculateFieldSimilarity (path sourceField) (path targetField)
      (schema sourceField) (schema targetField) in
  {| confidence := confidence;
     sourceField := path sourceField;
     targetField := path targetField;
     reasoning := generateReasoning sourceField targetField confidence;
     suggestedTransformation :=
       suggestTransformation (schema sourceField) (schema targetField) |}.

(** The two nested loops of [suggestMappings]: the suggestions in the order
    they are pushed. *)
Definition candidates (sourceFields targetFields : list Field)
    (confidenceThreshold : float) : list MappingSuggestion :=
  flat_map
    (fun sourceField =>
       flat_map
         (fun targetField =>
            if confidenceThreshold <=?
                 calculateFieldSimilarity (path sourceField) (path targetField)
                   (schema sourceField) (schema targetField)
            then [suggestion sourceField targetField] else [])
         targetFields)
    sourceFields.

(** [suggestMappings(sourceSchema, targetSchema, confidenceThreshold)]. *)
Definition suggestMappings (sourceSchema targetSchema : SchemaObject)
    (confidenceThreshold : float) : list MappingSuggestion :=
  let sourceFields := extractFields sourceSchema "" in
  let targetFields := extractFields targetSchema "" in
  sort (fun a b => confidence b - confidence a)
       (candidates sourceFields targetFields confidenceThreshold).

End WithHost.

End MappingService.

(** ** Property keys *)

Definition decimal (n : nat) : string :=
  NilZero.string_of_uint (Nat.to_uint n).

(** The array index a property key denotes: a canonical decimal numeral
    below [2^32 - 1]. *)
Definition index_of_key (k : string) : option nat :=
  let '(v, _, rest) := Num.digits k 0 0 in
  match rest with
  | EmptyString =>
      if (v <? 4294967295)%Z && String.eqb (decimal (Z.to_nat v)) k
      then Some (Z.to_nat v) else None
  | _ => None
  end.

(** The [i]-th character of a string, as a string. *)
Definition char_at (s : string) (i : nat) : option string :=
  match String.get i s with
  | Some c => Some (String c EmptyString)
  | None => None
  end.

(** ** JavaScript values as trees

    The mapping store holds what [JSON.parse] and object literals build:
    trees without sharing.  [JUndefined] is the value of a member that a
    literal sets to [undefined]. *)

#[warnings="-register-all"]
Inductive jval :=
  | JUndefined
  | JNull
  | JBool (b : bool)
  | JNumber (n : float)
  | JString (s : string)
  | JArray (elems : list jval)
  | JObject (members : list (string * jval)).

Module Js.

Fixpoint assoc {A : Type} (k : string) (l : list (string * A)) : option A :=
  match l with
  | [] => None
  | (k', v) :: r => if String.eqb k' k then Some v else assoc k r
  end.

(** Assignment to a member that exists keeps its place. *)
Fixpoint replace {A : Type} (k : string) (v : A) (l : list (string * A))
  : list (string * A) :=
  match l with
  | [] => []
  | (k', v') :: r => if String.eqb k' k then (k', v) :: r else (k', v') :: replace k v r
  end.

(** A new member goes after the existing ones, except that index keys come
    first, in ascending order. *)
Fixpoint add_index {A : Type} (i : nat) (k : string) (v : A) (l : list (string * A))
  : list (string * A) :=
  match l with
  | [] => [(k, v)]
  | (k', v') :: r =>
      match index_of_key k' with
      | Some j => if (j <? i)%nat then (k', v') :: add_index i k v r else (k, v) :: l
      | None => (k, v) :: l
      end
  end.

(** [o[k] = v] on the own properties of an ordinary object. *)
Definition assign {A : Type} (k : string) (v : A) (l : list (string * A))
  : list (string * A) :=
  match assoc k l with
  | Some _ => replace k v l
  | None =>
      match index_of_key k with
      | Some i => add_index i k v l
      | None => l ++ [(k, v)]
      end
  end.

Definition is_nullish (v : jval) : bool :=
  match v with JUndefined | JNull => true | _ => false end.

(** [a ?? b]. *)
Definition coalesce (a b : jval) : jval := if is_nullish a then b else a.

Definition falsy_number (n : float) : bool :=
  PrimFloat.is_zero n || PrimFloat.is_nan n.

(** [ToBoolean]. *)
Definition truthy (v : jval) : bool :=
  match v with
  | JUndefined | JNull => false
  | JBool b => b
  | JNumber n => negb (falsy_number n)
  | JString s => negb (String.eqb s "")
  | JArray _ | JObject _ => true
  end.

(** [typeof v === "string"]. *)
Definition is_string (v : jval) : bool :=
  match v with JString _ => true | _ => false end.

(** [Array.isArray(v)]. *)
Definition isArray (v : jval) : bool :=
  match v with JArray _ => true | _ => false end.

(** [typeof v === "object" && v !== null]. *)
Definition is_object (v : jval) : bool :=
  match v with JObject _ | JArray _ => true | _ => false end.

(** The names of the members every object inherits from
    [Object.prototype]: under these names [v[k]] is not [undefined] and
    [k in v] holds though [v] has no such member of its own, and under
    [__proto__] an assignment does not add a member. *)
Definition Object_prototype_names : list string :=
  ["constructor"; "__defineGetter__"; "__defineSetter__"; "hasOwnProperty";
   "__lookupGetter__"; "__lookupSetter__"; "isPrototypeOf"; "propertyIsEnumerable";
   "toString"; "valueOf"; "__proto__"; "toLocaleString"].

Definition inherited (k : string) : bool :=
  existsb (String.eqb k) Object_prototype_names.

(** [v[k]] for a member of [v] itself: reading a member of [undefined] or
    [null] raises a TypeError. *)
Definition get (v : jval) (k : string) : result jval :=
  match v with
  | JUndefined => Throw (Runtime (ReadOfNullish k false))
  | JNull => Throw (Runtime (ReadOfNullish k true))
  | JObject ms => Ok (default JUndefined (assoc k ms))
  | JArray l =>
      if String.eqb k "length" then Ok (JNumber (Num.of_nat (length l)))
      else Ok (default JUndefined (i ← index_of_key k; l !! i))
  | JString s =>
      if String.eqb k "length" then Ok (JNumber (Num.of_nat (String.length s)))
      else Ok (default JUndefined (i ← index_of_key k; c ← char_at s i; Some (JString c)))
  | JBool _ | JNumber _ => Ok JUndefined
  end.

(** [Object.entries(v)] of an object or array. *)
Definition entries (v : jval) : list (string * jval) :=
  match v with
  | JObject ms => ms
  | JArray l => imap (fun i x => (decimal i, x)) l
  | _ => []
  end.

Section WithHost.
Context `{JsHost}.

(** [error instanceof Error ? error.message : String(error)]. *)
Definition exn_message (e : exn) : string :=
  match e with
  | Error m => m
  | Runtime r => runtime_message r
  end.

(** [String(v)]; an array prints its elements separated by commas, with
    [undefined] and [null] elements printed as nothing. *)
Fixpoint to_string (v : jval) : string :=
  match v with
  | JUndefined => "undefined"
  | JNull => "null"
  | JBool true => "true"
  | JBool false => "false"
  | JNumber n => number_to_string n
  | JString s => s
  | JArray l =>
      Str.join ","
        ((fix each (l : list jval) : list string :=
            match l with
            | [] => []
            | x :: r => (if is_nullish x then "" else to_string x) :: each r
            end) l)
  | JObject _ => "[object Object]"
  end.

End WithHost.

End Js.

(** ** StorageService (src/services/storageService.ts) *)

Module StorageService.

(** The static members of the class. *)
Record State := {
  storage : gmap string jval;
  initialized : bool;
  fileSystemWritable : bool
}.

(** The class as the module is loaded. *)
Definition initial : State :=
  {| storage := ∅; initialized := false; fileSystemWritable := true |}.

(** What reading and parsing the mappings file yields: the members of the
    JSON object it holds (a [StoredMapping]), or a failure. *)
Inductive read_result :=
  | Loaded (image : gmap string jval)
  | NoFile
  | Unreadable.

(** The file system and the clock as one operation meets them:
    [write_error] is the message of the error [fs.writeFile] raises, if it
    raises one. *)
Record Env := {
  storagePath : string;
  disk : read_result;
  write_error : option string;
  now : string
}.

Inductive console :=
  | Log (line : string)
  | Warn (line : string).

(** An asynchronous method: it reads the environment, updates the static
    members, writes to the console, and returns or throws. *)
Definition M (A : Type) : Type := Env -> State -> result A * State * list console.

Definition ret {A} (a : A) : M A := fun _ st => (Ok a, st, []).

Definition bind {A B} (m : M A) (f : A -> M B) : M B :=
  fun env st =>
    match m env st with
    | (Ok a, st1, out1) =>
        let '(r, st2, out2) := f a env st1 in (r, st2, out1 ++ out2)
    | (Throw e, st1, out1) => (Throw e, st1, out1)
    end.

Definition throw {A} (e : exn) : M A := fun _ st => (Throw e, st, []).

(** [try { m } catch (error) { handler error }]. *)
Definition try_catch {A} (m : M A) (handler : exn -> M A) : M A :=
  fun env st =>
    match m env st with
    | (Ok a, st1, out1) => (Ok a, st1, out1)
    | (Throw e, st1, out1) =>
        let '(r, st2, out2) := handler e env st1 in (r, st2, out1 ++ out2)
    end.

Definition lift {A} (r : result A) : M A := fun _ st => (r, st, []).
Definition ask : M Env := fun env st => (Ok env, st, []).
Definition get_state : M State := fun _ st => (Ok st, st, []).
Definition put_state (st : State) : M unit := fun _ _ => (Ok tt, st, []).
Definition print (c : console) : M unit := fun _ st => (Ok tt, st, [c]).

Local Notation "'let*' x := m 'in' k" := (bind m (fun x => k))
  (at level 10, x name, m at level 100, k at level 200).
Local Notation "m ;;; k" := (bind m (fun _ => k))
  (at level 100, k at level 200, right associativity).

Definition set_storage (s : gmap string jval) : M unit :=
  let* st := get_state in
  put_state {| storage := s; initialized := initialized st;
               fileSystemWritable := fileSystemWritable st |}.

(** [initialize()]. *)
Definition initialize : M unit :=
  let* st := get_state in
  if initialized st then ret tt
  else
    put_state {| storage := storage st; initialized := true;
                 fileSystemWritable := fileSystemWritable st |} ;;;
    let* env := ask in
    match disk env with
    | Loaded image =>
        set_storage image ;;;
        print (Log ("✓ Loaded mappings from " +:+ storagePath env))
    | NoFile =>
        print (Log "No existing mappings file, starting with empty storage") ;;;
        set_storage ∅
    | Unreadable =>
        print (Log "Could not load mappings from file, using in-memory storage") ;;;
        set_storage ∅
    end.

(** [loadMappings()]. *)
Definition loadMappings : M (gmap string jval) :=
  initialize ;;;
  let* st := get_state in
  ret (storage st).

(** [saveMappings(mappings)]. *)
Definition saveMappings (mappings : gmap string jval) : M unit :=
  set_storage mappings ;;;
  let* st := get_state in
  if negb (fileSystemWritable st) then
    print (Log "File system is read-only, mappings stored in memory only")
  else
    let* env := ask in
    match write_error env with
    | None => print (Log ("✓ Saved mappings to " +:+ storagePath env))
    | Some errorMsg =>
        if Str.includes errorMsg "EROFS" || Str.includes errorMsg "read-only" then
          put_state {| storage := storage st; initialized := initialized st;
                       fileSystemWritable := false |} ;;;
          print (Warn "⚠ File system is read-only, mappings stored in memory only")
        else
          print (Warn ("⚠ Warning: Could not save mappings to file: " +:+ errorMsg))
    end.

(** [getMapping(id)]: [mappings[id] || null]. *)
Definition getMapping (id : string) : M jval :=
  let* mappings := loadMappings in
  match mappings !! id with
  | Some m => ret (if Js.truthy m then m else JNull)
  | None => ret JNull
  end.

(** [normalizeFieldMapping(fm)]. *)
Definition normalizeFieldMapping (fm : jval) : result jval :=
  match fm with
  | JUndefined => Throw (Runtime (ReadOfNullish "sourceField" false))
  | JNull => Throw (Runtime (ReadOfNullish "sourceField" true))
  | _ =>
      let member k := match Js.get fm k with Ok v => v | Throw _ => JUndefined end in
      Ok (JObject
            [ ("sourceField", Js.coalesce (member "sourceField") (member "source_field"));
              ("targetField", Js.coalesce (member "targetField") (member "target_field"));
              ("transformation", Js.coalesce (member "transformation") JNull);
              ("confidence", Js.coalesce (member "confidence") JNull);
              ("required", Js.coalesce (member "required") (JBool false));
              ("sourceType",
                Js.coalesce (Js.coalesce (member "sourceType") (member "source_type"))
                  JUndefined);
              ("targetType",
                Js.coalesce (Js.coalesce (member "targetType") (member "target_type"))
                  JUndefined) ])
  end.

(** [array.map(fm => this.normalizeFieldMapping(fm))]: the first entry
    that throws ends the map. *)
Fixpoint normalizeAll (l : list jval) : result (list jval) :=
  match l with
  | [] => Ok []
  | fm :: r =>
      match normalizeFieldMapping fm with
      | Throw e => Throw e
      | Ok n =>
          match normalizeAll r with
          | Throw e => Throw e
          | Ok ns => Ok (n :: ns)
          end
      end
  end.

(** The member [k] of an object given by its members. *)
Definition member (mapping : list (string * jval)) (k : string) : jval :=
  default JUndefined (Js.assoc k mapping).

(** [if (Array.isArray(mapping.fieldMappings)) mapping.fieldMappings =
    mapping.fieldMappings.map(...)]. *)
Definition normalizeMapping (mapping : list (string * jval))
  : result (list (string * jval)) :=
  match member mapping "fieldMappings" with
  | JArray l =>
      match normalizeAll l with
      | Ok ns => Ok (Js.assign "fieldMappings" (JArray ns) mapping)
      | Throw e => Throw e
      end
  | _ => Ok mapping
  end.

(** The two timestamps of [saveMapping]. *)
Definition stamp (now : string) (mapping : list (string * jval))
  : list (string * jval) :=
  let mapping := Js.assign "updatedAt" (JString now) mapping in
  if Js.truthy (member mapping "createdAt") then mapping
  else Js.assign "createdAt" (member mapping "updatedAt") mapping.

(** [validateMappingStructure(mapping)]. *)
Fixpoint validateEntries (l : list jval) : result bool :=
  match l with
  | [] => Ok true
  | fm :: r =>
      match Js.get fm "sourceField", Js.get fm "source_field",
            Js.get fm "targetField", Js.get fm "target_field" with
      | Ok sf, Ok sf', Ok tf, Ok tf' =>
          let sourceField := Js.coalesce sf sf' in
          let targetField := Js.coalesce tf tf' in
          if negb (Js.truthy sourceField) || negb (Js.truthy targetField)
          then Ok false
          else validateEntries r
      | Throw e, _, _, _ | _, Throw e, _, _ | _, _, Throw e, _ | _, _, _, Throw e =>
          Throw e
      end
  end.

Definition validateMappingStructure (mapping : jval) : result bool :=
  if negb (Js.truthy mapping) then Ok false
  else
    let member k := match Js.get mapping k with Ok v => v | Throw _ => JUndefined end in
    if negb (Js.is_string (member "id"))
       || negb (Js.is_string (member "name"))
       || negb (Js.truthy (member "sourceEndpoint"))
       || negb (Js.truthy (member "targetEndpoint"))
       || negb (Js.isArray (member "fieldMappings"))
    then Ok false
    else
      match member "fieldMappings" with
      | JArray l => validateEntries l
      | _ => Ok false
      end.

Section WithHost.
Context `{JsHost}.

(** [saveMapping(mapping)]; [mapping] is the object the caller passes, by
    its members. *)
Definition saveMapping (mapping : list (string * jval)) : M unit :=
  let* mappings := loadMappings in
  let* mapping := lift (normalizeMapping mapping) in
  let* env := ask in
  let mapping := stamp (now env) mapping in
  saveMappings (<[Js.to_string (member mapping "id") := JObject mapping]> mappings).

(** One turn of the loop of [importMappings], with its [try]/[catch]: the
    store, the count and the messages after the entry [(id, mapping)]. *)
Definition importEntry (acc : gmap string jval * nat * list string)
    (entry : string * jval) : gmap string jval * nat * list string :=
  let '(mappings, imported, errors) := acc in
  let '(id, mapping) := entry in
  match validateMappingStructure mapping with
  | Throw e =>
      (mappings, imported,
       errors ++ ["Failed to import mapping " +:+ id +:+ ": " +:+ Js.exn_message e])
  | Ok false =>
      (mappings, imported, errors ++ ["Invalid mapping structure for ID: " +:+ id])
  | Ok true =>
      match mapping with
      | JObject members =>
          match normalizeMapping members with
          | Ok normalizedMapping =>
              (<[id := JObject normalizedMapping]> mappings, S imported, errors)
          | Throw e =>
              (mappings, imported,
               errors ++ ["Failed to import mapping " +:+ id +:+ ": " +:+ Js.exn_message e])
          end
      | _ => (<[id := mapping]> mappings, S imported, errors)
      end
  end.

(** [importMappings(json)], given what [JSON.parse(json)] yields. *)
Definition importMappings (parsed : result jval) : M (nat * list string) :=
  try_catch
    (let* data := lift parsed in
     if negb (Js.is_object data) then throw (Error "Invalid JSON format")
     else
       let* mappings := loadMappings in
       let '(mappings, imported, errors) :=
         fold_left importEntry (Js.entries data) (mappings, 0%nat, []) in
       saveMappings mappings ;;;
       ret (imported, errors))
    (fun error => ret (0%nat, ["Failed to parse JSON: " +:+ Js.exn_message error])).

End WithHost.

End StorageService.

(** ** The heap of the transformation engine *)

Module Heap.

Definition alloc (h : heap) (c : cell) : heap * loc := (h ++ [c], length h).

Definition is_nullish (v : value) : bool :=
  match v with VUndefined | VNull => true | _ => false end.

(** [ToBoolean]. *)
Definition truthy (v : value) : bool :=
  match v with
  | VUndefined | VNull => false
  | VBool b => b
  | VNum n => negb (Js.falsy_number n)
  | VStr s => negb (String.eqb s "")
  | VRef _ => true
  end.

(** [a === b] on a value and a string. *)
Definition is_str (v : value) (s : string) : bool :=
  match v with VStr t => String.eqb t s | _ => false end.

(** [a ?? b]. *)
Definition coalesce (a b : value) : value := if is_nullish a then b else a.

(** The object has a member of its own named [k]. *)
Definition has_own (ps : list (string * value)) (k : string) : bool :=
  match Js.assoc k ps with Some _ => true | None => false end.

(** [Array.isArray(v)]. *)
Definition isArray (h : heap) (v : value) : bool :=
  match v with
  | VRef l => match h !! l with Some (CArray _ _) => true | _ => false end
  | _ => false
  end.

(** [v[k]]. *)
Definition get (h : heap) (v : value) (k : string) : result value :=
  match v with
  | VUndefined => Throw (Runtime (ReadOfNullish k false))
  | VNull => Throw (Runtime (ReadOfNullish k true))
  | VRef l =>
      match h !! l with
      | Some (CObject ps) => Ok (default VUndefined (Js.assoc k ps))
      | Some (CArray n ps) =>
          if String.eqb k "length" then Ok (VNum (Num.of_nat n))
          else Ok (default VUndefined (Js.assoc k ps))
      | None => Ok VUndefined
      end
  | VStr s =>
      if String.eqb k "length" then Ok (VNum (Num.of_nat (String.length s)))
      else Ok (default VUndefined (i ← index_of_key k; c ← char_at s i; Some (VStr c)))
  | VBool _ | VNum _ => Ok VUndefined
  end.

(** [k in v]: a TypeError unless [v] is an object. *)
Definition has (h : heap) (v : value) (k : string) : result bool :=
  match v with
  | VRef l =>
      match h !! l with
      | Some (CObject ps) => Ok (bool_decide (is_Some (Js.assoc k ps)))
      | Some (CArray n ps) =>
          Ok (String.eqb k "length" || bool_decide (is_Some (Js.assoc k ps)))
      | None => Throw (Runtime (InOnPrimitive k v))
      end
  | _ => Throw (Runtime (InOnPrimitive k v))
  end.

Section WithHost.
Context `{JsHost}.

(** [v[k] = x] in strict mode: a TypeError unless [v] is an object.  An
    array grows to hold a new index; its [length] is set by the host. *)
Definition put (h : heap) (v : value) (k : string) (x : value) : result heap :=
  match v with
  | VRef l =>
      match h !! l with
      | Some (CObject ps) => Ok (<[l := CObject (Js.assign k x ps)]> h)
      | Some (CArray n ps) =>
          if String.eqb k "length" then
            match array_set_length n ps x with
            | Some (n', ps') => Ok (<[l := CArray n' ps']> h)
            | None => Throw (Runtime InvalidArrayLength)
            end
          else
            let n' := match index_of_key k with
                      | Some i => Nat.max n (S i)
                      | None => n
                      end in
            Ok (<[l := CArray n' (Js.assign k x ps)]> h)
      | None => Throw (Runtime (SetOnPrimitive k v))
      end
  | _ => Throw (Runtime (SetOnPrimitive k v))
  end.

(** [String(v)] and [`${v}`].  A plain object prints as [[object Object]],
    through the [toString] it inherits; an object or array with a member
    [toString] of its own, which is data and no function, has no string
    form and the conversion raises a TypeError.  An array prints its
    elements separated by commas: [undefined], [null] and holes print as
    nothing, and so does an array met again while it is being printed; an
    array with a member [join] of its own prints as [[object Array]].
    [fuel] bounds the nesting of arrays. *)
Fixpoint to_string_fuel (fuel : nat) (h : heap) (seen : list loc) (v : value)
  : result string :=
  match v with
  | VUndefined => Ok "undefined"
  | VNull => Ok "null"
  | VBool true => Ok "true"
  | VBool false => Ok "false"
  | VNum n => Ok (number_to_string n)
  | VStr s => Ok s
  | VRef l =>
      match h !! l with
      | Some (CArray n ps) =>
          if has_own ps "toString" then Throw (Runtime NotPrintable)
          else if has_own ps "join" then Ok "[object Array]"
          else
            match fuel with
            | O => Ok ""
            | S fuel' =>
                if bool_decide (l ∈ seen) then Ok ""
                else
                  match
                    collect
                      (map (fun i =>
                              let x := default VUndefined (Js.assoc (decimal i) ps) in
                              if is_nullish x then Ok ""
                              else to_string_fuel fuel' h (l :: seen) x)
                           (seq 0 n))
                  with
                  | Ok texts => Ok (Str.join "," texts)
                  | Throw e => Throw e
                  end
            end
      | Some (CObject ps) =>
          if has_own ps "toString" then Throw (Runtime NotPrintable)
          else Ok "[object Object]"
      | None => Ok "[object Object]"
      end
  end.

(** Arrays nest at most as deep as the heap is large. *)
Definition to_string (h : heap) (v : value) : result string :=
  to_string_fuel (S (length h)) h [] v.

(** [value.join(separator)] for the array at [l]: a TypeError when the
    array has a member [join] of its own; else the separator is printed,
    then the elements. *)
Definition join (h : heap) (l : loc) (separator : value) : result string :=
  match h !! l with
  | Some (CArray n ps) =>
      if has_own ps "join" then Throw (Runtime (NotAFunction "value.join"))
      else
        match to_string_fuel (S (length h)) h [l] separator with
        | Throw e => Throw e
        | Ok sep =>
            match
              collect
                (map (fun i =>
                        let x := default VUndefined (Js.assoc (decimal i) ps) in
                        if is_nullish x then Ok ""
                        else to_string_fuel (S (length h)) h [l] x)
                     (seq 0 n))
            with
            | Ok texts => Ok (Str.join sep texts)
            | Throw e => Throw e
            end
        end
  | _ => Throw (Runtime (NotAFunction "value.join"))
  end.

End WithHost.

(** A new array holding the given strings. *)
Definition alloc_strings (h : heap) (l : list string) : heap * loc :=
  alloc h (CArray (length l) (imap (fun i s => (decimal i, VStr s)) l)).

End Heap.

(** ** TransformationService (src/services/transformationService.ts) *)

Module TransformationService.

(** [TransformationError]; [field] is the source path of the correspondence
    as the configuration holds it, and [originalValue] is [None] when the
    error has no such member. *)
Record TransformationError := {
  field : value;
  error : string;
  originalValue : option value
}.

Record PayloadTransformResult := {
  success : bool;
  transformedPayload : option value;
  errors : option (list TransformationError);
  warnings : option (list string);
  unmappedFields : option (list string)
}.

(** [SchemaMapping], as far as the engine reads it. *)
Record SchemaMapping := {
  id : string;
  name : string;
  fieldMappings : list FieldMapping
}.

(** The loop of [getNestedValue]. *)
Fixpoint walk (h : heap) (parts : list string) (current : value) : result value :=
  match parts with
  | [] => Ok current
  | part :: rest =>
      if Heap.is_nullish current then Ok VUndefined
      else
        match Heap.get h current part with
        | Ok v => walk h rest v
        | Throw e => Throw e
        end
  end.

(** [path.split(".")]: a TypeError unless the path is a string, the only
    value of a configuration whose [split] is a function. *)
Definition segments (path : value) : result (list string) :=
  match path with
  | VStr s => Ok (Str.split "." s)
  | _ => Throw (Runtime (NotAFunction "path.split"))
  end.

(** [getNestedValue(obj, path)]. *)
Definition getNestedValue (h : heap) (obj : value) (path : value) : result value :=
  if negb (Heap.truthy path) then Throw (Error "Field path is undefined or empty")
  else
    match segments path with
    | Ok parts => walk h parts obj
    | Throw e => Throw e
    end.

(** [params?.k] of a rule. *)
Definition param (rule : TransformationRule) (k : string) : value :=
  match params rule with
  | Some ps => default VUndefined (Js.assoc k ps)
  | None => VUndefined
  end.

(** [a || b]. *)
Definition or_else (a b : value) : value := if Heap.truthy a then a else b.

Section WithHost.
Context `{JsHost}.

(** The loop and the last assignment of [setNestedValue]: [parts] are the
    segments still to be walked.  What was written before a throw stays
    written. *)
Fixpoint descend (h : heap) (current : value) (parts : list string) (v : value)
  : heap * result unit :=
  match parts with
  | [] =>
      match Heap.put h current "undefined" v with
      | Ok h' => (h', Ok tt)
      | Throw e => (h, Throw e)
      end
  | [last] =>
      match Heap.put h current last v with
      | Ok h' => (h', Ok tt)
      | Throw e => (h, Throw e)
      end
  | part :: rest =>
      match Heap.has h current part with
      | Throw e => (h, Throw e)
      | Ok present =>
          let created :=
            if present then Ok h
            else
              let '(h1, l) := Heap.alloc h (CObject []) in
              match Heap.put h1 current part (VRef l) with
              | Ok h2 => Ok h2
              | Throw e => Throw e
              end in
          match created with
          | Throw e => (h, Throw e)
          | Ok h2 =>
              match Heap.get h2 current part with
              | Ok next => descend h2 next rest v
              | Throw e => (h2, Throw e)
              end
          end
      end
  end.

(** [setNestedValue(obj, path, value)]. *)
Definition setNestedValue (h : heap) (obj : value) (path : value) (v : value)
  : heap * result unit :=
  if negb (Heap.truthy path) then (h, Throw (Error "Field path is undefined or empty"))
  else
    match segments path with
    | Ok parts => descend h obj parts v
    | Throw e => (h, Throw e)
    end.

(** [applyFormatTransformation(value, transformation)]. *)
Definition applyFormatTransformation (h : heap) (v : value)
    (rule : TransformationRule) : result value :=
  let from := param rule "from" in
  let to := param rule "to" in
  if Heap.is_str from "string" && Heap.is_str to "number" then
    match Heap.to_string h v with
    | Throw e => Throw e
    | Ok text =>
        let num := Num.parseFloat text in
        if Num.isNaN num
        then Throw (Error ("Cannot convert '" +:+ text +:+ "' to number"))
        else Ok (VNum num)
    end
  else if Heap.is_str from "number" && Heap.is_str to "string" then
    match Heap.to_string h v with
    | Throw e => Throw e
    | Ok text => Ok (VStr text)
    end
  else if Heap.is_str from "string" && Heap.is_str to "boolean" then
    match Heap.to_string h v with
    | Throw e => Throw e
    | Ok text =>
        let strValue := Str.toLowerCase text in
        if MappingService.str_includes ["true"; "1"; "yes"; "on"] strValue
        then Ok (VBool true)
        else if MappingService.str_includes ["false"; "0"; "no"; "off"] strValue
             then Ok (VBool false)
             else Throw (Error ("Cannot convert '" +:+ text +:+ "' to boolean"))
    end
  else if Heap.is_str from "boolean" && Heap.is_str to "string" then
    Ok (VStr (if Heap.truthy v then "true" else "false"))
  else if Heap.is_str from "date" && Heap.is_str to "date-time" then
    match Heap.to_string h v with
    | Throw e => Throw e
    | Ok text =>
        let time := date_getTime text in
        if Num.isNaN time
        then Throw (Error ("Invalid date: " +:+ text))
        else Ok (VStr (date_toISOString time))
    end
  else if Heap.is_str from "date-time" && Heap.is_str to "date" then
    match Heap.to_string h v with
    | Throw e => Throw e
    | Ok text =>
        let time := date_getTime text in
        if Num.isNaN time
        then Throw (Error ("Invalid date-time: " +:+ text))
        else Ok (VStr (default "" (head (Str.split "T" (date_toISOString time)))))
    end
  else Ok v.

(** [applyTransformation(value, transformation)]; [split] builds a new
    array, so the heap is returned as well. *)
Definition applyTransformation (h : heap) (v : value) (rule : TransformationRule)
  : heap * result value :=
  let t := rule_type rule in
  if String.eqb t "direct" then (h, Ok v)
  else if String.eqb t "format" then (h, applyFormatTransformation h v rule)
  else if String.eqb t "split" then
    match v with
    | VStr s =>
        let separator := or_else (param rule "separator") (VStr ",") in
        match Heap.to_string h separator with
        | Throw e => (h, Throw e)
        | Ok sep =>
            let pieces := map Str.trim (Str.split sep s) in
            let '(h', l) := Heap.alloc_strings h pieces in
            (h', Ok (VRef l))
        end
    | _ => (h, Throw (Error "Split transformation requires string input"))
    end
  else if String.eqb t "join" then
    match v with
    | VRef l =>
        if Heap.isArray h v then
          let joinSeparator := or_else (param rule "separator") (VStr ", ") in
          match Heap.join h l joinSeparator with
          | Throw e => (h, Throw e)
          | Ok text => (h, Ok (VStr text))
          end
        else (h, Throw (Error "Join transformation requires array input"))
    | _ => (h, Throw (Error "Join transformation requires array input"))
    end
  else if String.eqb t "lookup" then
    let lookupTable := param rule "table" in
    if negb (Heap.truthy lookupTable)
    then (h, Throw (Error "Lookup transformation requires lookup table"))
    else
      match Heap.to_string h v with
      | Throw e => (h, Throw e)
      | Ok key =>
          match Heap.get h lookupTable key with
          | Ok found => (h, Ok (if Heap.is_nullish found then v else found))
          | Throw e => (h, Throw e)
          end
      end
  else if String.eqb t "custom" then
    match function rule with
    | None | Some EmptyString =>
        (h, Throw (Error "Custom transformation requires function"))
    | Some _ => (h, Throw (Error "Custom transformations not yet implemented"))
    end
  else (h, Ok v).

(** What one turn of the loop over the field mappings does. *)
Inductive outcome :=
  | Skipped
  | Written
  | Failed (e : TransformationError)
  | Uncaught (e : exn).

(** The [catch] handler of the loop, entered with the heap as the [try]
    block left it.  It reads the source value once more for the error it
    records; when that read throws, nothing is recorded and the exception
    leaves the handler. *)
Definition handler (h : heap) (sourcePayload : value) (fieldMapping : FieldMapping)
    (e : exn) : heap * outcome :=
  let source := sourceField fieldMapping in
  let failed (original : value) :=
    Failed {| field := Heap.coalesce source (VStr "undefined");
              error := "Failed to transform field: " +:+ Js.exn_message e;
              originalValue := Some original |} in
  if Heap.truthy source then
    match getNestedValue h sourcePayload source with
    | Ok original => (h, failed original)
    | Throw e' => (h, Uncaught e')
    end
  else (h, failed VUndefined).

(** The body of the loop of [transformPayload] for one field mapping, both
    [try] blocks included: the heap it leaves and what happened.
    [Uncaught] is an exception raised inside the [catch] handler. *)
Definition processField (h : heap) (sourcePayload : value) (transformedPayload : value)
    (fieldMapping : FieldMapping) : heap * outcome :=
  let source := sourceField fieldMapping in
  let target := targetField fieldMapping in
  if negb (Heap.truthy source) || negb (Heap.truthy target) then
    match Heap.to_string h source with
    | Throw e => handler h sourcePayload fieldMapping e
    | Ok s =>
        match Heap.to_string h target with
        | Throw e => handler h sourcePayload fieldMapping e
        | Ok t =>
            (h, Failed {| field := Heap.coalesce source (VStr "undefined");
                          error := "Invalid field mapping: sourceField='" +:+ s
                                   +:+ "', targetField='" +:+ t +:+ "'. "
                                   +:+ "Check that the mapping was saved with valid field names.";
                          originalValue := None |})
        end
    end
  else
    match getNestedValue h sourcePayload source with
    | Throw e => handler h sourcePayload fieldMapping e
    | Ok v =>
        if required fieldMapping && Heap.is_nullish v then
          (h, Failed {| field := source;
                        error := "Required field is missing or null";
                        originalValue := None |})
        else
          match v with
          | VUndefined => (h, Skipped)
          | _ =>
              let '(h1, transformed) :=
                match transformation fieldMapping with
                | Some rule => applyTransformation h v rule
                | None => (h, Ok v)
                end in
              match transformed with
              | Throw e =>
                  (h1, Failed {| field := source;
                                 error := "Transformation failed: " +:+ Js.exn_message e;
                                 originalValue := Some v |})
              | Ok transformedValue =>
                  match setNestedValue h1 transformedPayload target transformedValue with
                  | (h2, Ok _) => (h2, Written)
                  | (h2, Throw e) => handler h2 sourcePayload fieldMapping e
                  end
              end
          end
    end.

(** The loop over the field mappings: the heap and the [errors] array after
    it, or the exception that left it. *)
Fixpoint applyMappings (h : heap) (sourcePayload transformedPayload : value)
    (l : list FieldMapping) (errs : list TransformationError)
  : heap * result (list TransformationError) :=
  match l with
  | [] => (h, Ok errs)
  | fieldMapping :: rest =>
      match processField h sourcePayload transformedPayload fieldMapping with
      | (h', Skipped) | (h', Written) =>
          applyMappings h' sourcePayload transformedPayload rest errs
      | (h', Failed e) =>
          applyMappings h' sourcePayload transformedPayload rest (errs ++ [e])
      | (h', Uncaught e) => (h', Throw e)
      end
  end.

(** [Object.keys(sourcePayload)]. *)
Definition keys (h : heap) (l : loc) : list string :=
  match h !! l with
  | Some c => map fst (cell_props c)
  | None => []
  end.

(** [mappedSourceFields.has(key)] for the set of the source paths. *)
Definition mapped (mappedSourceFields : list value) (key : string) : bool :=
  existsb (fun path => Heap.is_str path key) mappedSourceFields.

(** [xs.length > 0 ? xs : undefined]. *)
Definition non_empty {A} (xs : list A) : option (list A) :=
  match xs with [] => None | _ => Some xs end.

(** [transformPayload(sourcePayload, mapping)]; the payload is the object
    at [sourcePayload]. *)
Definition transformPayload (h : heap) (sourcePayload : loc) (mapping : SchemaMapping)
  : heap * result PayloadTransformResult :=
  let '(h0, out) := Heap.alloc h (CObject []) in
  let mappedSourceFields := map sourceField (fieldMappings mapping) in
  let unmapped :=
    List.filter (fun key => negb (mapped mappedSourceFields key))
      (keys h0 sourcePayload) in
  match applyMappings h0 (VRef sourcePayload) (VRef out) (fieldMappings mapping) [] with
  | (h1, Throw e) => (h1, Throw e)
  | (h1, Ok errs) =>
      let warns :=
        match unmapped with
        | [] => []
        | _ => ["Unmapped source fields: " +:+ Str.join ", " unmapped]
        end in
      (h1, Ok {| success := bool_decide (errs = []);
                 transformedPayload :=
                   match errs with [] => Some (VRef out) | _ => None end;
                 errors := non_empty errs;
                 warnings := non_empty warns;
                 unmappedFields := non_empty unmapped |})
  end.

End WithHost.

End TransformationService.

(** * Notions used to state the properties *)

(** ** Scores *)

Module Scores.
Import MappingService.
Local Open Scope float_scope.

(** Every value [calculateFieldSimilarity] can return: one per outcome of
    the four tests, the synonym score and the type score. *)
Definition scores : list float :=
  b1 ← [true; false]; b2 ← [true; false]; b3 ← [true; false]; b4 ← [true; false];
  syn ← [1.0; 0.0]; ty ← [1.0; 0.7; 0.0];
  [accumulate b1 b2 b3 b4 syn ty].

(** On two scores the comparator [b - a] of [suggestMappings] decides as
    [<=] does, and no score exceeds 1. *)
Definition consistent (a b : float) : bool :=
  (if 0 <? (b - a) then a <=? b else b <=? a) && (a <=? 1.0).

(** The comparator [(a, b) => key(b) - key(a)]. *)
Definition descending {A : Type} (key : A -> float) (a b : A) : float :=
  key b - key a.

(** [a] may stand before [b] in a sequence sorted by [key], largest first. *)
Definition before {A : Type} (key : A -> float) (a b : A) : Prop :=
  (key b <=? key a) = true.

End Scores.

(** ** The mapping store *)

Module StoreSpec.
Import StorageService.

(** The static members once [initialize] has run. *)
Definition after_init (env : Env) (st : State) : State :=
  if initialized st then st
  else {| storage := match disk env with Loaded image => image | _ => ∅ end;
          initialized := true;
          fileSystemWritable := fileSystemWritable st |}.

(** A correspondence after [normalizeFieldMapping], member by member. *)
Definition canonical_form (fm : list (string * jval)) : list (string * jval) :=
  [ ("sourceField", Js.coalesce (member fm "sourceField") (member fm "source_field"));
    ("targetField", Js.coalesce (member fm "targetField") (member fm "target_field"));
    ("transformation", Js.coalesce (member fm "transformation") JNull);
    ("confidence", Js.coalesce (member fm "confidence") JNull);
    ("required", Js.coalesce (member fm "required") (JBool false));
    ("sourceType",
      Js.coalesce (Js.coalesce (member fm "sourceType") (member fm "source_type")) JUndefined);
    ("targetType",
      Js.coalesce (Js.coalesce (member fm "targetType") (member fm "target_type")) JUndefined) ].

(** The keys of a correspondence in the store's canonical form. *)
Definition canonical_keys : list string :=
  ["sourceField"; "targetField"; "transformation"; "confidence"; "required";
   "sourceType"; "targetType"].

Definition canonical (fm : jval) : Prop :=
  exists ms, fm = JObject ms /\ map fst ms = canonical_keys.

(** Every correspondence of the configuration consists of exactly the
    canonical keys. *)
Definition normalized_config (m : jval) : Prop :=
  forall members fms,
    m = JObject members -> member members "fieldMappings" = JArray fms ->
    Forall canonical fms.

(** A correspondence that passes [validateMappingStructure]: an object whose
    two paths, read under either spelling, are truthy. *)
Definition populated (fm : jval) : Prop :=
  exists ms, fm = JObject ms /\
    Js.truthy (Js.coalesce (member ms "sourceField") (member ms "source_field")) = true /\
    Js.truthy (Js.coalesce (member ms "targetField") (member ms "target_field")) = true.

(** What [validateMappingStructure] and the normalization leave in the
    store: a string [id] and [name], both endpoints, and correspondences in
    canonical form with both paths populated. *)
Definition admitted (m : jval) : Prop :=
  exists members fms,
    m = JObject members /\
    Js.is_string (member members "id") = true /\
    Js.is_string (member members "name") = true /\
    Js.truthy (member members "sourceEndpoint") = true /\
    Js.truthy (member members "targetEndpoint") = true /\
    member members "fieldMappings" = JArray fms /\
    Forall (fun fm => exists ms, fm = JObject ms /\ map fst ms = canonical_keys /\
              Js.truthy (member ms "sourceField") = true /\
              Js.truthy (member ms "targetField") = true) fms.

(** The configuration as the specification words its structural
    validation: the [id] and the [name] are non-empty strings. *)
Definition well_formed (m : jval) : Prop :=
  exists members fms id name,
    m = JObject members /\
    member members "id" = JString id /\ id <> "" /\
    member members "name" = JString name /\ name <> "" /\
    Js.truthy (member members "sourceEndpoint") = true /\
    Js.truthy (member members "targetEndpoint") = true /\
    member members "fieldMappings" = JArray fms /\
    Forall populated fms.

Section WithHost.
Context `{JsHost}.

(** The object [saveMapping] writes for a normalized mapping, and its key. *)
Definition saved (env : Env) (normalized : list (string * jval)) : list (string * jval) :=
  stamp (now env) normalized.

Definition saved_key (env : Env) (normalized : list (string * jval)) : string :=
  Js.to_string (member (saved env normalized) "id").

End WithHost.

End StoreSpec.

(** ** The transformation engine *)

Module EngineSpec.
Import TransformationService.

Section WithHost.
Context `{JsHost}.

(** What each turn of the loop of [transformPayload] did, in the order of
    the field mappings, and the heap the loop leaves: every field mapping
    has its turn, whatever happened to the ones before it. *)
Fixpoint run (h : heap) (sourcePayload transformedPayload : value)
    (l : list FieldMapping) : heap * list outcome :=
  match l with
  | [] => (h, [])
  | fieldMapping :: rest =>
      let '(h1, o) := processField h sourcePayload transformedPayload fieldMapping in
      let '(h2, os) := run h1 sourcePayload transformedPayload rest in
      (h2, o :: os)
  end.

(** The claim about the [format] rule from [string] to [number] as the
    specification words it, for one input value: either the entire string
    is a number, which is returned, or the rule fails. *)
Definition parses_fully_or_fails (h : heap) (v : value) (rule : TransformationRule)
  : Prop :=
  (exists text x,
     Heap.to_string h v = Ok text /\ Num.numeric_prefix text = Some (x, "") /\
     applyFormatTransformation h v rule = Ok (VNum x)) \/
  (exists e, applyFormatTransformation h v rule = Throw e).

End WithHost.

(** The errors among the outcomes. *)
Definition failures (os : list outcome) : list TransformationError :=
  flat_map (fun o => match o with Failed e => [e] | _ => [] end) os.

(** No turn ended with an exception that left its [catch] handler. *)
Definition caught (os : list outcome) : Prop :=
  Forall (fun o => match o with Uncaught _ => False | _ => True end) os.

End EngineSpec.

(** ** Examples *)

Module Examples.
Import StorageService TransformationService.

(** A runtime for the examples, which ask it nothing: it prints every
    number as the empty string, knows no date and refuses to resize an
    array. *)
Definition silent_host : JsHost :=
  {| number_to_string := fun _ => "";
     number_toFixed := fun _ _ => "";
     date_getTime := fun _ => nan;
     date_toISOString := fun _ => "";
     runtime_message := fun _ => "";
     array_set_length := fun _ _ _ => None |}.

(** An array of strings. *)
Definition array_of_strings : SchemaObject :=
  mkSchema ARRAY None None (Some (leaf STRING)).

(** [{ email: string, tags: string[] }]. *)
Definition contact_schema : SchemaObject :=
  mkSchema OBJECT None
    (Some [("email", leaf STRING); ("tags", array_of_strings)]) None.

(** A disk that cannot be written, with no mappings file. *)
Definition failing_disk : Env :=
  {| storagePath := "/srv/mappings.json";
     disk := NoFile;
     write_error := Some "EACCES: permission denied";
     now := "2024-01-01T00:00:00.000Z" |}.

Definition snake_entry : list (string * jval) :=
  [("source_field", JString "first_name"); ("target_field", JString "FirstName");
   ("description", JString "given name")].

Definition camel_entry : list (string * jval) :=
  [("sourceField", JString "email"); ("targetField", JString "Email")].

Definition endpoint (system path : string) : jval :=
  JObject [("system", JString system); ("path", JString path); ("method", JString "POST")].

Definition contact_sync : list (string * jval) :=
  [("id", JString "contact-sync"); ("name", JString "Contacts");
   ("sourceEndpoint", endpoint "A" "/contacts");
   ("targetEndpoint", endpoint "B" "/people");
   ("fieldMappings", JArray [JObject snake_entry; JObject camel_entry])].

(** [contact_sync] as [saveMapping] normalizes it. *)
Definition contact_sync_normalized : list (string * jval) :=
  Js.assign "fieldMappings"
    (JArray [JObject (StoreSpec.canonical_form snake_entry);
             JObject (StoreSpec.canonical_form camel_entry)])
    contact_sync.

(** A configuration whose [id] and [name] are empty strings. *)
Definition nameless : jval :=
  JObject [("id", JString ""); ("name", JString "");
           ("sourceEndpoint", endpoint "A" "/contacts");
           ("targetEndpoint", endpoint "B" "/people");
           ("fieldMappings", JArray [JObject camel_entry])].

(** A configuration with no name, no endpoints and a correspondence
    without a target. *)
Definition hollow : list (string * jval) :=
  [("id", JString "hollow");
   ("fieldMappings", JArray [JObject [("sourceField", JString "email")]])].

Definition legacy : jval :=
  JObject [("id", JString "legacy"); ("name", JString "Legacy");
           ("sourceEndpoint", endpoint "A" "/contacts");
           ("targetEndpoint", endpoint "B" "/people");
           ("fieldMappings", JArray [JObject snake_entry])].

(** A mappings file holding a configuration whose correspondence was
    written without normalization. *)
Definition legacy_file : Env :=
  {| storagePath := "/srv/mappings.json";
     disk := Loaded {[ "legacy" := legacy ]};
     write_error := None;
     now := "2024-01-01T00:00:00.000Z" |}.

Definition correspondence (source target : string) (required : bool)
    (rule : option TransformationRule) : FieldMapping :=
  {| sourceField := VStr source; targetField := VStr target;
     sourceType := None; targetType := None;
     transformation := rule; required := required |}.

Definition mapping_of (l : list FieldMapping) : SchemaMapping :=
  {| id := "example"; name := "Example"; fieldMappings := l |}.

(** The [format] rule from [string] to [number]. *)
Definition string_to_number : TransformationRule :=
  {| rule_type := "format";
     params := Some [("from", VStr "string"); ("to", VStr "number")];
     function := Some "parseFloat" |}.

Definition amount_to_total : SchemaMapping :=
  mapping_of [correspondence "amount" "total" false (Some string_to_number)].

(** The payload [{"amount": s}], alone on the heap. *)
Definition amount (s : string) : heap := [CObject [("amount", VStr s)]].

(** The payload [{"address": {"street": "Main"}, "city": "Paris"}]: the
    object at address 0, its [address] at address 1. *)
Definition contact : heap :=
  [CObject [("address", VRef 1); ("city", VStr "Paris")];
   CObject [("street", VStr "Main")]].

(** [address] is copied to [location], then [city] is written to
    [location.city]. *)
Definition relocate : SchemaMapping :=
  mapping_of [correspondence "address" "location" false None;
              correspondence "city" "location.city" false None].

End Examples.
(** * The other operations of the services *)

From Stdlib Require DecimalNat.

(** ** SchemaService: comparing two schemas (src/services/schemaService.ts) *)

Module SchemaComparison.

Local Open Scope float_scope.

(** [compareSchemas(schema1, schema2)]: the paths of the first schema that
    the second has as well, counted against the distinct paths of both. *)
Definition compareSchemas (schema1 schema2 : SchemaObject) : float :=
  let fields1 := SchemaService.getFieldPaths schema1 "" in
  let fields2 := SchemaService.getFieldPaths schema2 "" in
  let common :=
    length (List.filter (fun f => MappingService.str_includes fields2 f) fields1) in
  let total := length (remove_dups (fields1 ++ fields2)) in
  if (0 <? total)%nat then Num.of_nat common / Num.of_nat total else 0.

End SchemaComparison.

(** ** MappingService: field mappings from suggestions
    (src/services/mappingService.ts) *)

Module MappingChecks.

(** The [{ valid, errors }] answer of the two validations. *)
Record Validation := { valid : bool; errors : list string }.

(** The [FieldMapping] that [createFieldMapping] returns: the members the
    engine reads, and the [description]. *)
Record DescribedMapping := { fields : FieldMapping; description : string }.

(** [createFieldMapping(suggestion)]. *)
Definition createFieldMapping (suggestion : MappingService.MappingSuggestion)
  : DescribedMapping :=
  {| fields :=
       {| sourceField := VStr (MappingService.sourceField suggestion);
          targetField := VStr (MappingService.targetField suggestion);
          sourceType := Some STRING;
          targetType := Some STRING;
          transformation := MappingService.suggestedTransformation suggestion;
          required := false |};
     description := MappingService.reasoning suggestion |}.

(** [`${type}`] for a type that may be undefined. *)
Definition shown_type (t : option DataType) : string :=
  match t with
  | Some t => MappingService.type_name t
  | None => "undefined"
  end.

(** [a === b] on two types that may be undefined. *)
Definition same_type (a b : option DataType) : bool :=
  match a, b with
  | Some x, Some y => DataType_eqb x y
  | None, None => true
  | _, _ => false
  end.

(** [validateMapping(mapping)]. *)
Definition validateMapping (mapping : FieldMapping) : Validation :=
  let errors :=
    (if negb (Heap.truthy (sourceField mapping))
     then ["Source field is required"] else [])
    ++ (if negb (Heap.truthy (targetField mapping))
        then ["Target field is required"] else [])
    ++ (match sourceType mapping with
        | None => ["Source type is required"]
        | Some _ => []
        end)
    ++ (match targetType mapping with
        | None => ["Target type is required"]
        | Some _ => []
        end)
    ++ (if negb (same_type (sourceType mapping) (targetType mapping))
           && negb (bool_decide (is_Some (transformation mapping)))
        then ["Type mismatch requires transformation: "
              +:+ shown_type (sourceType mapping) +:+ " → "
              +:+ shown_type (targetType mapping)]
        else []) in
  {| valid := match errors with [] => true | _ => false end; errors := errors |}.

End MappingChecks.

(** ** StorageService: deleting, listing and searching
    (src/services/storageService.ts) *)

Module StorageAdmin.
Import StorageService.

Local Notation "'let*' x := m 'in' k" := (bind m (fun x => k))
  (at level 10, x name, m at level 100, k at level 200).
Local Notation "m ;;; k" := (bind m (fun _ => k))
  (at level 100, k at level 200, right associativity).

(** [deleteMapping(id)]. *)
Definition deleteMapping (id : string) : M bool :=
  let* mappings := loadMappings in
  match mappings !! id with
  | Some m =>
      if Js.truthy m then saveMappings (delete id mappings) ;;; ret true
      else ret false
  | None => ret false
  end.

(** [clearCache()]: the flag [fileSystemWritable] is not reset. *)
Definition clearCache : M unit :=
  let* st := get_state in
  put_state {| storage := ∅; initialized := false;
               fileSystemWritable := fileSystemWritable st |}.

(** [Object.values(mappings)].  The store does not record the order in
    which its keys were added: the values come in the order of the keys,
    and what is proved of the two methods below does not depend on it. *)
Definition values (mappings : gmap string jval) : list jval :=
  (map_to_list mappings).*2.

(** [array.map(f)] and [array.filter(f)] for a callback that may throw: the
    first exception ends the traversal. *)
Fixpoint traverse {A B : Type} (f : A -> result B) (l : list A) : result (list B) :=
  match l with
  | [] => Ok []
  | x :: r =>
      match f x with
      | Throw e => Throw e
      | Ok y =>
          match traverse f r with
          | Throw e => Throw e
          | Ok ys => Ok (y :: ys)
          end
      end
  end.

Fixpoint select {A : Type} (f : A -> result bool) (l : list A) : result (list A) :=
  match l with
  | [] => Ok []
  | x :: r =>
      match f x with
      | Throw e => Throw e
      | Ok keep =>
          match select f r with
          | Throw e => Throw e
          | Ok ys => Ok (if keep then x :: ys else ys)
          end
      end
  end.

(** [{ id: m.id, name: m.name, description: m.description }]. *)
Definition summary (m : jval) : result jval :=
  match Js.get m "id" with
  | Throw e => Throw e
  | Ok id =>
      match Js.get m "name" with
      | Throw e => Throw e
      | Ok name =>
          match Js.get m "description" with
          | Throw e => Throw e
          | Ok description =>
              Ok (JObject [("id", id); ("name", name); ("description", description)])
          end
      end
  end.

(** [listMappings()]. *)
Definition listMappings : M (list jval) :=
  let* mappings := loadMappings in
  lift (traverse summary (values mappings)).

(** [v === s] for a string [s]. *)
Definition is_text (v : jval) (s : string) : bool :=
  match v with JString t => String.eqb t s | _ => false end.

(** The callback of [findMappingsByEndpoint]; [method] is [None] when the
    argument is left out. *)
Definition matches (system path : string) (method : option string) (m : jval)
  : result bool :=
  match Js.get m (if String.eqb system "A" then "sourceEndpoint" else "targetEndpoint") with
  | Throw e => Throw e
  | Ok endpoint =>
      match Js.get endpoint "path" with
      | Throw e => Throw e
      | Ok p =>
          if negb (is_text p path) then Ok false
          else
            match method with
            | Some (String _ _ as method) =>
                match Js.get endpoint "method" with
                | Throw e => Throw e
                | Ok found => Ok (is_text found method)
                end
            | _ => Ok true
            end
      end
  end.

(** [findMappingsByEndpoint(system, path, method)]. *)
Definition findMappingsByEndpoint (system path : string) (method : option string)
  : M (list jval) :=
  let* mappings := loadMappings in
  lift (select (matches system path method) (values mappings)).

(** One call of the store, as a tool makes it. *)
Inductive operation :=
  | Save (mapping : list (string * jval))
  | Import (parsed : result jval)
  | Delete (id : string)
  | Get (id : string)
  | List_
  | Find (system path : string) (method : option string)
  | Clear.

Section WithHost.
Context `{JsHost}.

Definition perform (o : operation) : M unit :=
  match o with
  | Save mapping => saveMapping mapping
  | Import parsed => importMappings parsed ;;; ret tt
  | Delete id => deleteMapping id ;;; ret tt
  | Get id => getMapping id ;;; ret tt
  | List_ => listMappings ;;; ret tt
  | Find system path method => findMappingsByEndpoint system path method ;;; ret tt
  | Clear => clearCache
  end.

(** A sequence of calls, each with the file system and the clock it meets.
    A call that throws leaves the static members as they were when it
    threw, and the next call goes on from there. *)
Fixpoint session (calls : list (Env * operation)) (st : State) : State * list console :=
  match calls with
  | [] => (st, [])
  | (env, o) :: rest =>
      let '(_, st1, out1) := perform o env st in
      let '(st2, out2) := session rest st1 in
      (st2, out1 ++ out2)
  end.

End WithHost.

(** A console line that reports an attempt to write the mappings file:
    the success line or a warning. *)
Definition reports_write (c : console) : bool :=
  match c with
  | Warn _ => true
  | Log line => Str.startsWith "✓ Saved mappings to " line
  end.

(** No line of the output reports an attempt to write. *)
Definition quiet (out : list console) : Prop :=
  Forall (fun c => reports_write c = false) out.

(** A method that, once the file system is known to be read-only, leaves it
    so and does not attempt to write. *)
Definition memory_only {A : Type} (m : M A) : Prop :=
  forall env st,
    fileSystemWritable st = false ->
    fileSystemWritable (m env st).1.2 = false /\ quiet (m env st).2.

End StorageAdmin.

(** ** TransformationService: validating a payload and generating an
    example (src/services/transformationService.ts) *)

(** What the payload validation asks of the JavaScript runtime. *)
Class ValidationHost := {
  (** [new RegExp(source)], as the test [subject => regexp.test(subject)];
      [None] when [source] is not a regular expression and the constructor
      raises a SyntaxError. *)
  regexp : string -> option (string -> bool);
  (** The message of that SyntaxError. *)
  regexp_error : string -> string;
  (** [Number(s)] for a string. *)
  string_to_number : string -> float
}.

Module PayloadChecks.

(** [ValidationRule] (src/types/index.ts). *)
Record ValidationRule := {
  field : string;
  type : string;
  params : option (list (string * value));
  errorMessage : option string
}.

(** [rule.params?.k]. *)
Definition param (rule : ValidationRule) (k : string) : value :=
  match params rule with
  | Some ps => default VUndefined (Js.assoc k ps)
  | None => VUndefined
  end.

(** [v !== undefined]. *)
Definition defined (v : value) : bool :=
  match v with VUndefined => false | _ => true end.

(** [rule.errorMessage || text]. *)
Definition message (rule : ValidationRule) (text : string) : string :=
  match errorMessage rule with
  | Some (String _ _ as m) => m
  | _ => text
  end.

(** The first loop of [validateTransformedPayload], over the target paths
    of the required correspondences. *)
Fixpoint checkRequired `{JsHost} (h : heap) (payload : value)
    (requiredFields : list value) (errors : list string) : result (list string) :=
  match requiredFields with
  | [] => Ok errors
  | path :: rest =>
      match TransformationService.getNestedValue h payload path with
      | Throw e => Throw e
      | Ok v =>
          if Heap.is_nullish v then
            match Heap.to_string h path with
            | Throw e => Throw e
            | Ok text =>
                checkRequired h payload rest
                  (errors ++ ["Required field '" +:+ text +:+ "' is missing"])
            end
          else checkRequired h payload rest errors
      end
  end.

Section WithHost.
Context `{JsHost} `{ValidationHost}.

Local Open Scope float_scope.

(** [ToNumber(v)]: an object or array is read through its string form. *)
Definition to_number (h : heap) (v : value) : result float :=
  match v with
  | VUndefined => Ok nan
  | VNull => Ok 0
  | VBool true => Ok 1
  | VBool false => Ok 0
  | VNum n => Ok n
  | VStr s => Ok (string_to_number s)
  | VRef _ =>
      match Heap.to_string h v with
      | Ok text => Ok (string_to_number text)
      | Throw e => Throw e
      end
  end.

(** The test of a [format] rule: the messages it adds. *)
Definition checkFormat (h : heap) (rule : ValidationRule) (v : value)
  : result (list string) :=
  if String.eqb (type rule) "format" && defined v then
    let pattern := param rule "pattern" in
    if Heap.truthy pattern then
      match Heap.to_string h pattern with
      | Throw e => Throw e
      | Ok source =>
          match regexp source with
          | None => Throw (Error (regexp_error source))
          | Some test =>
              match Heap.to_string h v with
              | Throw e => Throw e
              | Ok subject =>
                  if test subject then Ok []
                  else Ok [message rule ("Field '" +:+ field rule
                                         +:+ "' does not match required format")]
              end
          end
      end
    else Ok []
  else Ok [].

(** One bound of a [range] rule: [bound !== undefined && out(value, bound)],
    and the message, in which the bound is printed when the rule has no
    message of its own. *)
Definition checkBound (h : heap) (rule : ValidationRule) (bound : value)
    (out : float -> bool) (text : string) : result (list string) :=
  if defined bound then
    match to_number h bound with
    | Throw e => Throw e
    | Ok b =>
        if out b then
          match errorMessage rule with
          | Some (String _ _ as m) => Ok [m]
          | _ =>
              match Heap.to_string h bound with
              | Throw e => Throw e
              | Ok shown => Ok ["Field '" +:+ field rule +:+ text +:+ shown]
              end
          end
        else Ok []
    end
  else Ok [].

(** The test of a [range] rule, for a value that is a number. *)
Definition checkRange (h : heap) (rule : ValidationRule) (v : value)
  : result (list string) :=
  match v with
  | VNum x =>
      if String.eqb (type rule) "range" then
        match checkBound h rule (param rule "min") (fun b => x <? b) "' must be at least " with
        | Throw e => Throw e
        | Ok low =>
            match checkBound h rule (param rule "max") (fun b => b <? x) "' must be at most " with
            | Throw e => Throw e
            | Ok high => Ok (low ++ high)
            end
        end
      else Ok []
  | _ => Ok []
  end.

(** The three tests of one validation rule on the value at its path: the
    messages it adds. *)
Definition checkRule (h : heap) (rule : ValidationRule) (v : value)
  : result (list string) :=
  let required :=
    if String.eqb (type rule) "required" && Heap.is_nullish v
    then [message rule ("Field '" +:+ field rule +:+ "' is required")] else [] in
  match checkFormat h rule v with
  | Throw e => Throw e
  | Ok format =>
      match checkRange h rule v with
      | Throw e => Throw e
      | Ok range => Ok (required ++ format ++ range)
      end
  end.

(** The second loop, over the validation rules. *)
Fixpoint checkRules (h : heap) (payload : value) (rules : list ValidationRule)
    (errors : list string) : result (list string) :=
  match rules with
  | [] => Ok errors
  | rule :: rest =>
      match TransformationService.getNestedValue h payload (VStr (field rule)) with
      | Throw e => Throw e
      | Ok v =>
          match checkRule h rule v with
          | Throw e => Throw e
          | Ok added => checkRules h payload rest (errors ++ added)
          end
      end
  end.

(** [validateTransformedPayload(payload, mapping)]; [validationRules] is
    the member of the mapping of that name, which the engine's
    [SchemaMapping] leaves out. *)
Definition validateTransformedPayload (h : heap) (payload : value)
    (mapping : TransformationService.SchemaMapping)
    (validationRules : option (list ValidationRule)) : result MappingChecks.Validation :=
  let requiredFields :=
    map targetField
      (List.filter required (TransformationService.fieldMappings mapping)) in
  match checkRequired h payload requiredFields [] with
  | Throw e => Throw e
  | Ok errors =>
      match checkRules h payload (default [] validationRules) errors with
      | Throw e => Throw e
      | Ok errors =>
          Ok {| MappingChecks.valid := match errors with [] => true | _ => false end;
                MappingChecks.errors := errors |}
      end
  end.

(** The example value of [generateExamplePayload] for one correspondence;
    the array and the object are new ones. *)
Definition exampleValue (h : heap) (fieldMapping : FieldMapping)
  : heap * result value :=
  match sourceType fieldMapping with
  | Some STRING =>
      match Heap.to_string h (sourceField fieldMapping) with
      | Ok text => (h, Ok (VStr ("example_" +:+ text)))
      | Throw e => (h, Throw e)
      end
  | Some NUMBER | Some INTEGER => (h, Ok (VNum 123))
  | Some BOOLEAN => (h, Ok (VBool true))
  | Some ARRAY =>
      let '(h', l) := Heap.alloc_strings h ["item1"; "item2"] in (h', Ok (VRef l))
  | Some OBJECT =>
      let '(h', l) := Heap.alloc h (CObject [("key", VStr "value")]) in (h', Ok (VRef l))
  | Some NULL | None => (h, Ok VNull)
  end.

(** The loop of [generateExamplePayload]; an exception leaves it. *)
Fixpoint fill (h : heap) (example : value) (l : list FieldMapping) : heap * result unit :=
  match l with
  | [] => (h, Ok tt)
  | fieldMapping :: rest =>
      match exampleValue h fieldMapping with
      | (h1, Throw e) => (h1, Throw e)
      | (h1, Ok v) =>
          if Heap.truthy (sourceField fieldMapping) then
            match TransformationService.setNestedValue h1 example
                    (sourceField fieldMapping) v with
            | (h2, Ok _) => fill h2 example rest
            | (h2, Throw e) => (h2, Throw e)
            end
          else fill h1 example rest
      end
  end.

(** [generateExamplePayload(mapping)]. *)
Definition generateExamplePayload (h : heap)
    (mapping : TransformationService.SchemaMapping) : heap * result value :=
  let '(h0, example) := Heap.alloc h (CObject []) in
  match fill h0 (VRef example) (TransformationService.fieldMappings mapping) with
  | (h1, Ok _) => (h1, Ok (VRef example))
  | (h1, Throw e) => (h1, Throw e)
  end.

End WithHost.

End PayloadChecks.

(** ** Notions used to state the properties of these operations *)

Module Paths.

(** A path of one segment: it holds no dot. *)
Definition top_level (path : string) : bool := negb (Str.includes path ".").

(** Every property of the schema, at any depth, has a name. *)
Fixpoint named (schema : SchemaObject) : bool :=
  match properties schema with
  | Some props =>
      (fix each (l : list (string * SchemaObject)) : bool :=
         match l with
         | [] => true
         | (key, prop) :: rest =>
             negb (String.eqb key "") && named prop && each rest
         end) props
  | None => true
  end
  && match items schema with
     | Some it => named it
     | None => true
     end.

(** No node of the schema is an array. *)
Fixpoint array_free (schema : SchemaObject) : bool :=
  negb (DataType_eqb (type schema) ARRAY)
  && match properties schema with
     | Some props =>
         (fix each (l : list (string * SchemaObject)) : bool :=
            match l with
            | [] => true
            | (_, prop) :: rest => array_free prop && each rest
            end) props
     | None => true
     end
  && match items schema with
     | Some it => array_free it
     | None => true
     end.

(** A path that is a top-level name. *)
Definition simple_path (path : value) : bool :=
  match path with
  | VStr (String _ _ as p) => top_level p
  | _ => false
  end.

(** A correspondence that copies a top-level field of a declared type other
    than [null] to a top-level field, without a rule or with the [direct]
    one. *)
Definition plain (fm : FieldMapping) : bool :=
  simple_path (sourceField fm) && simple_path (targetField fm)
  && match sourceType fm with
     | Some NULL | None => false
     | Some _ => true
     end
  && match transformation fm with
     | Some rule => String.eqb (rule_type rule) "direct"
     | None => true
     end.

End Paths.

Module Typing.


End Typing.

Module MoreExamples.
Import StorageService TransformationService.

(** [{ id: integer, name: string }]. *)
Definition person_schema : SchemaObject :=
  mkSchema OBJECT None (Some [("id", leaf INTEGER); ("name", leaf STRING)]) None.

(** [{ id: string, name: string }]. *)
Definition account_schema : SchemaObject :=
  mkSchema OBJECT None (Some [("id", leaf STRING); ("name", leaf STRING)]) None.

(** [{ name: string, address: { city: string } }]. *)
Definition customer_schema : SchemaObject :=
  mkSchema OBJECT None
    (Some [("name", leaf STRING);
           ("address", mkSchema OBJECT None (Some [("city", leaf STRING)]) None)])
    None.

(** The store once the mappings file with the [legacy] configuration has
    been loaded. *)
Definition legacy_store : State :=
  {| storage := {[ "legacy" := Examples.legacy ]};
     initialized := true;
     fileSystemWritable := true |}.


(** A configuration one of whose correspondences is [null]. *)
Definition broken : list (string * jval) :=
  [("id", JString "broken"); ("name", JString "Broken");
   ("fieldMappings", JArray [JObject Examples.camel_entry; JNull])].

(** A read-only file system, with no mappings file. *)
Definition read_only_disk : Env :=
  {| storagePath := "/srv/mappings.json";
     disk := NoFile;
     write_error := Some "EROFS: read-only file system, open '/srv/mappings.json'";
     now := "2024-01-01T00:00:00.000Z" |}.

(** A file system that can be written, with no mappings file. *)
Definition writable_disk : Env :=
  {| storagePath := "/srv/mappings.json";
     disk := NoFile;
     write_error := None;
     now := "2024-01-02T00:00:00.000Z" |}.

(** The [join] and [split] rules that [suggestTransformation] proposes. *)
Definition join_rule : TransformationRule :=
  {| rule_type := "join"; params := Some [("separator", VStr ", ")]; function := None |}.

Definition split_rule : TransformationRule :=
  {| rule_type := "split"; params := Some [("separator", VStr ",")]; function := None |}.

Definition custom_rule : TransformationRule :=
  {| rule_type := "custom"; params := None; function := Some "upper" |}.

(** The payload [{"first": "Ada", "last": "Lovelace"}], alone on the heap. *)
Definition names : heap := [CObject [("first", VStr "Ada"); ("last", VStr "Lovelace")]].

(** A runtime for the examples of the payload validation, which ask it
    nothing. *)
Definition silent_validation : ValidationHost :=
  {| regexp := fun _ => None;
     regexp_error := fun _ => "";
     string_to_number := fun _ => nan |}.

End MoreExamples.

(** * Properties *)

(** ** Strings and numbers *)

Lemma startsWith_refl s : Str.startsWith s s = true.
Proof.
  induction s as [|c r IH]; simpl; [reflexivity|].
  rewrite Ascii.eqb_refl. exact IH.
Qed.

Lemma includes_refl s : Str.includes s s = true.
Proof.
  destruct s; simpl; [reflexivity|].
  rewrite Ascii.eqb_refl, startsWith_refl. reflexivity.
Qed.

Lemma DataType_eqb_refl a : DataType_eqb a a = true.
Proof. destruct a; reflexivity. Qed.

(** The order of the specification of floats is antisymmetric. *)
Lemma SFcompare_antisym a b :
  SFcompare b a = option_map CompOpp (SFcompare a b).
Proof.
  destruct a as [sa|sa| |sa ma ea], b as [sb|sb| |sb mb eb]; simpl;
    try reflexivity;
    try (destruct sa; reflexivity); try (destruct sb; reflexivity);
    try (destruct sa, sb; reflexivity).
  destruct sa, sb; simpl; try reflexivity;
    rewrite (Z.compare_antisym ea eb);
    destruct (ea ?= eb)%Z; simpl; try reflexivity;
    change (Pos.compare_cont Eq mb ma) with (mb ?= ma)%positive;
    change (Pos.compare_cont Eq ma mb) with (ma ?= mb)%positive;
    rewrite (Pos.compare_antisym ma mb); try reflexivity.
Qed.

(** [t <= c] excludes [c < t], for all doubles, NaN included. *)
Lemma leb_not_ltb (t c : float) :
  PrimFloat.leb t c = true -> PrimFloat.ltb c t = false.
Proof.
  rewrite FloatAxioms.leb_spec, FloatAxioms.ltb_spec. unfold SFleb, SFltb.
  rewrite (SFcompare_antisym (Prim2SF t) (Prim2SF c)).
  destruct (SFcompare (Prim2SF t) (Prim2SF c)) as [[| |]|]; simpl; congruence.
Qed.

(** Rounding to a double never yields NaN. *)
Section Rounding.
Local Open Scope Z_scope.

Lemma shr_1_nonneg mrs : 0 <= shr_m mrs -> 0 <= shr_m (shr_1 mrs).
Proof.
  destruct mrs as [m r s]; simpl. destruct m as [|p|p]; simpl; try lia;
    destruct p; simpl; lia.
Qed.

Lemma iter_shr_1_nonneg p mrs :
  0 <= shr_m mrs -> 0 <= shr_m (SpecFloat.iter_pos shr_1 p mrs).
Proof.
  revert mrs. induction p as [p IH|p IH|]; simpl; intros mrs Hm.
  - apply IH, IH, shr_1_nonneg, Hm.
  - apply IH, IH, Hm.
  - apply shr_1_nonneg, Hm.
Qed.

Lemma shr_fexp_nonneg m e l :
  0 <= m -> 0 <= shr_m (fst (shr_fexp prec emax m e l)).
Proof.
  intros Hm. unfold shr_fexp, shr.
  assert (H0 : 0 <= shr_m (shr_record_of_loc m l))
    by (destruct l as [|[| |]]; simpl; exact Hm).
  destruct (_ - e); simpl; [exact H0 | apply iter_shr_1_nonneg, H0 | exact H0].
Qed.

Lemma round_nearest_even_nonneg m l : 0 <= m -> 0 <= round_nearest_even m l.
Proof.
  intros Hm. destruct l as [|[| |]]; simpl; try lia.
  destruct (Z.even m); lia.
Qed.

Lemma binary_round_aux_not_nan sx mx ex lx :
  0 <= mx -> binary_round_aux prec emax sx mx ex lx <> S754_nan.
Proof.
  intros Hm. unfold binary_round_aux.
  pose proof (shr_fexp_nonneg mx ex lx Hm) as H1.
  destruct (shr_fexp prec emax mx ex lx) as [mrs' e']. simpl in H1.
  pose proof (shr_fexp_nonneg
                (round_nearest_even (shr_m mrs') (loc_of_shr_record mrs')) e' loc_Exact
                (round_nearest_even_nonneg _ _ H1)) as H2.
  destruct (shr_fexp prec emax (round_nearest_even _ _) e' loc_Exact) as [mrs'' e''].
  simpl in H2. destruct (shr_m mrs''); [discriminate| |lia].
  destruct (e'' <=? _); discriminate.
Qed.

Lemma binary_round_not_nan sx mx ex : binary_round prec emax sx mx ex <> S754_nan.
Proof.
  unfold binary_round. destruct (shl_align _ _ _) as [mz ez].
  apply binary_round_aux_not_nan. lia.
Qed.

Lemma binary_normalize_not_nan m e : binary_normalize prec emax m e false <> S754_nan.
Proof.
  destruct m; simpl; [discriminate | apply binary_round_not_nan..].
Qed.

End Rounding.

(** A primitive float is NaN exactly when its specification is. *)
Lemma is_nan_Prim2SF x : Prim2SF x <> S754_nan -> PrimFloat.is_nan x = false.
Proof.
  unfold Prim2SF. destruct (PrimFloat.is_nan x); [congruence | reflexivity].
Qed.

Lemma Prim2SF_not_nan x : PrimFloat.is_nan x = false -> Prim2SF x <> S754_nan.
Proof.
  unfold Prim2SF. intros ->.
  destruct (is_zero x); [discriminate|].
  destruct (is_infinity x); [discriminate|].
  destruct (Z.frexp x) as [r e].
  destruct (shr_fexp _ _ _ _ _) as [mrs e'].
  destruct (shr_m mrs); discriminate.
Qed.

Lemma SF2Prim_not_nan sf : sf <> S754_nan -> PrimFloat.is_nan (SF2Prim sf) = false.
Proof.
  intros Hsf. destruct sf as [[|]|[|]| |s m e]; try reflexivity; [congruence|].
  apply is_nan_Prim2SF. unfold SF2Prim.
  assert (Hl : Prim2SF (Z.ldexp (of_uint63 (Uint63.of_Z (Z.pos m))) e) <> S754_nan).
  { rewrite Z_ldexp_spec, of_uint63_spec.
    pose proof (binary_normalize_not_nan (Uint63.to_Z (Uint63.of_Z (Z.pos m))) 0) as Hn.
    destruct (binary_normalize _ _ _ _ _); simpl; try congruence.
    apply binary_round_not_nan. }
  destruct s; [|exact Hl].
  rewrite opp_spec. destruct (Prim2SF _); simpl; congruence.
Qed.

Lemma of_decimal_not_nan m e : Num.isNaN (Num.of_decimal m e) = false.
Proof.
  unfold Num.isNaN, Num.of_decimal.
  destruct (0 <=? e)%Z; apply SF2Prim_not_nan, binary_normalize_not_nan.
Qed.

Lemma opp_not_nan x : Num.isNaN x = false -> Num.isNaN (- x) = false.
Proof.
  unfold Num.isNaN. intros Hx. apply is_nan_Prim2SF. rewrite opp_spec.
  pose proof (Prim2SF_not_nan x Hx). destruct (Prim2SF x); simpl; congruence.
Qed.

Lemma unsigned_literal_not_nan s x rest :
  Num.unsigned_literal s = Some (x, rest) -> Num.isNaN x = false.
Proof.
  unfold Num.unsigned_literal. destruct (Str.startsWith _ _).
  - intros [= <- _]. reflexivity.
  - destruct (Num.unsigned_decimal s) as [[[m e] r]|]; [|discriminate].
    intros [= <- _]. apply of_decimal_not_nan.
Qed.

(** The number a numeric prefix denotes is never NaN. *)
Lemma numeric_prefix_not_nan s x rest :
  Num.numeric_prefix s = Some (x, rest) -> Num.isNaN x = false.
Proof.
  unfold Num.numeric_prefix.
  destruct (Str.trimStart s) as [|c r] eqn:Et.
  - apply unsigned_literal_not_nan.
  - destruct (Ascii.eqb c "-") eqn:Em; [apply Ascii.eqb_eq in Em; subst c|].
    + destruct (Num.unsigned_literal r) as [[y rest']|] eqn:Eu; [|discriminate].
      intros [= <- _]. apply opp_not_nan. eapply unsigned_literal_not_nan. exact Eu.
    + destruct (Ascii.eqb c "+") eqn:Ep; [apply Ascii.eqb_eq in Ep; subst c|].
      * apply unsigned_literal_not_nan.
      * intros Hu. eapply unsigned_literal_not_nan.
        destruct c as [[|] [|] [|] [|] [|] [|] [|] [|]]; try exact Hu; discriminate.
Qed.

(** [parseFloat] is NaN exactly when the string has no numeric prefix. *)
Lemma parseFloat_nan s :
  Num.isNaN (Num.parseFloat s) = true <-> Num.numeric_prefix s = None.
Proof.
  unfold Num.parseFloat. destruct (Num.numeric_prefix s) as [[x rest]|] eqn:E.
  - rewrite (numeric_prefix_not_nan s x rest E). split; discriminate.
  - split; reflexivity.
Qed.

(** ** Path extraction *)

(** [getFieldPaths] on an array node: the entry for the items node, then
    the paths below it. *)
Lemma getFieldPaths_array schema prefix it :
  type schema = ARRAY -> items schema = Some it ->
  SchemaService.getFieldPaths schema prefix =
    bracketed prefix :: SchemaService.getFieldPaths it (bracketed prefix).
Proof.
  intros Ht Hi. destruct schema as [t f ps its]; simpl in *. subst. reflexivity.
Qed.

(** Below a scalar node there is nothing to extract. *)
Lemma getFieldPaths_scalar schema prefix :
  is_container (type schema) = false -> SchemaService.getFieldPaths schema prefix = [].
Proof.
  destruct schema as [t f ps its]; simpl. intros Ht.
  destruct t; try discriminate; reflexivity.
Qed.

(** [extractFields] on an array node: only what lies below the items node,
    with no entry for the items node itself. *)
Lemma extractFields_array schema prefix it :
  type schema = ARRAY -> items schema = Some it ->
  MappingService.extractFields schema prefix =
    MappingService.extractFields it (bracketed prefix).
Proof.
  intros Ht Hi. destruct schema as [t f ps its]; simpl in *. subst. reflexivity.
Qed.

(** C3.  The two path extractions differ on an array node.  On an array of
    strings [SchemaService.getFieldPaths] emits the entry for the items
    node, at ["[]"] for the empty prefix and at ["tags[]"] below [tags];
    the extraction of the similarity scorer, [MappingService.extractFields],
    emits no entry for it, so the items node of an array is never a
    candidate field of [suggestMappings]. *)
Theorem extractFields_drops_array_items :
  SchemaService.getFieldPaths Examples.array_of_strings "" = ["[]"] /\
  SchemaService.getFieldPaths Examples.array_of_strings "tags" = ["tags[]"] /\
  MappingService.extractFields Examples.array_of_strings "" = [] /\
  MappingService.extractFields Examples.array_of_strings "tags" = [] /\
  SchemaService.getFieldPaths Examples.contact_schema "" = ["email"; "tags"; "tags[]"] /\
  map MappingService.path (MappingService.extractFields Examples.contact_schema "") =
    ["email"; "tags"].
Proof. repeat split; reflexivity. Qed.

(** ** Similarity scoring *)

Section ScoreFacts.
Import MappingService Scores.
Local Open Scope float_scope.

Lemma accumulate_in_scores b1 b2 b3 b4 syn ty :
  In syn [1.0; 0.0] -> In ty [1.0; 0.7; 0.0] ->
  In (accumulate b1 b2 b3 b4 syn ty) scores.
Proof.
  intros [<-|[<-|[]]] [<-|[<-|[<-|[]]]]; destruct b1, b2, b3, b4;
    vm_compute; repeat (first [left; reflexivity | right]).
Qed.

Lemma checkSynonyms_values a b : In (checkSynonyms a b) [1.0; 0.0].
Proof. unfold checkSynonyms. destruct (existsb _ _); simpl; auto. Qed.

Lemma calculateTypeCompatibility_values a b :
  In (calculateTypeCompatibility a b) [1.0; 0.7; 0.0].
Proof. destruct a, b; simpl; auto. Qed.

Lemma similarity_in_scores sn tn ss ts :
  In (calculateFieldSimilarity sn tn ss ts) scores.
Proof.
  unfold calculateFieldSimilarity.
  apply accumulate_in_scores;
    [apply checkSynonyms_values | apply calculateTypeCompatibility_values].
Qed.

Lemma scores_consistent :
  forallb (fun a => forallb (consistent a) scores) scores = true.
Proof. vm_compute. reflexivity. Qed.

Lemma consistent_on_scores a b :
  In a scores -> In b scores -> consistent a b = true.
Proof.
  intros Ha Hb. pose proof scores_consistent as Hs.
  rewrite forallb_forall in Hs. specialize (Hs a Ha).
  rewrite forallb_forall in Hs. exact (Hs b Hb).
Qed.

Lemma score_le_one a : In a scores -> (a <=? 1.0) = true.
Proof.
  intros Ha. pose proof (consistent_on_scores a a Ha Ha) as Hc.
  unfold consistent in Hc. apply andb_true_iff in Hc. tauto.
Qed.

(** Identical names of equal types score 1. *)
Lemma similarity_identical n ss ts :
  type ss = type ts -> calculateFieldSimilarity n n ss ts = 1.0.
Proof.
  intros Ht. unfold calculateFieldSimilarity.
  rewrite !String.eqb_refl, includes_refl, Ht. simpl orb.
  unfold calculateTypeCompatibility. rewrite DataType_eqb_refl.
  destruct (checkSynonyms_values (normalizeName n) (normalizeName n))
    as [<-|[<-|[]]]; reflexivity.
Qed.

End ScoreFacts.

(** The insertion sort behind [Array.prototype.sort], for keys that are
    scores. *)
Section SortFacts.
Context {A : Type} (key : A -> float).
Import Scores.
Local Open Scope float_scope.

Lemma In_insert x y (l : list A) :
  In x (MappingService.insert (descending key) y l) <-> x = y \/ In x l.
Proof.
  induction l as [|z r IH]; simpl; [intuition|].
  destruct (0 <? descending key y z); simpl; rewrite ?IH; intuition.
Qed.

Lemma In_sort x (l : list A) :
  In x (MappingService.sort (descending key) l) <-> In x l.
Proof.
  induction l as [|y r IH]; simpl; [reflexivity|].
  rewrite In_insert, IH. intuition.
Qed.

Lemma insert_sorted x (l : list A) :
  In (key x) scores ->
  Forall (fun y => In (key y) scores) l ->
  Sorted (before key) l ->
  Sorted (before key) (MappingService.insert (descending key) x l).
Proof.
  intros Hx Hl Hs. induction Hs as [|y r Hr IH Hd]; cbn [MappingService.insert].
  - repeat constructor.
  - inversion Hl as [|? ? Hy Hr']; subst.
    pose proof (consistent_on_scores _ _ Hx Hy) as Hc.
    unfold consistent in Hc. apply andb_true_iff in Hc as [Hc _].
    unfold descending at 1. destruct (0 <? (key y - key x)).
    + constructor; [apply IH; assumption|].
      destruct r as [|z r']; cbn [MappingService.insert].
      * constructor. exact Hc.
      * destruct (0 <? descending key x z); constructor;
          [inversion Hd; assumption | exact Hc].
    + constructor; [constructor; assumption|]. constructor. exact Hc.
Qed.

Lemma sort_sorted (l : list A) :
  Forall (fun y => In (key y) scores) l ->
  Sorted (before key) (MappingService.sort (descending key) l).
Proof.
  induction l as [|x r IH]; cbn [MappingService.sort]; intros Hl; [constructor|].
  inversion Hl as [|? ? Hx Hr]; subst. apply insert_sorted.
  - exact Hx.
  - apply List.Forall_forall. intros y Hy. apply (proj1 (In_sort _ _)) in Hy.
    rewrite List.Forall_forall in Hr. auto.
  - apply IH. exact Hr.
Qed.

End SortFacts.

Section SuggestFacts.
Context `{JsHost}.
Import MappingService.
Local Open Scope float_scope.

Lemma In_candidates s sourceFields targetFields threshold :
  In s (candidates sourceFields targetFields threshold) <->
  exists sf tf, In sf sourceFields /\ In tf targetFields /\
    (threshold <=? calculateFieldSimilarity (path sf) (path tf) (schema sf) (schema tf))
      = true /\
    s = suggestion sf tf.
Proof.
  unfold candidates. rewrite in_flat_map. split.
  - intros (sf & Hsf & Hin). apply in_flat_map in Hin as (tf & Htf & Hin).
    destruct (_ <=? _) eqn:E; simpl in Hin; [|contradiction].
    destruct Hin as [<-|[]]. eauto 10.
  - intros (sf & tf & Hsf & Htf & E & ->). exists sf. split; [assumption|].
    apply in_flat_map. exists tf. split; [assumption|]. rewrite E. simpl. auto.
Qed.

Lemma In_suggestMappings s sourceSchema targetSchema threshold :
  In s (suggestMappings sourceSchema targetSchema threshold) <->
  exists sf tf, In sf (extractFields sourceSchema "") /\
    In tf (extractFields targetSchema "") /\
    (threshold <=? calculateFieldSimilarity (path sf) (path tf) (schema sf) (schema tf))
      = true /\
    s = suggestion sf tf.
Proof.
  unfold suggestMappings.
  change (fun a b => confidence b - confidence a) with (Scores.descending confidence).
  rewrite In_sort. apply In_candidates.
Qed.

(** X27.  For every source field and target field that [extractFields]
    yields, whose names are identical and whose declared types are equal,
    [suggestMappings] at the default threshold returns a suggestion for
    the pair; its confidence is 1, hence at least 0.8, and it suggests the
    [direct] transformation. *)
Theorem suggestMappings_identical_fields sourceSchema targetSchema sf tf :
  In sf (extractFields sourceSchema "") ->
  In tf (extractFields targetSchema "") ->
  path sf = path tf ->
  type (schema sf) = type (schema tf) ->
  exists s,
    In s (suggestMappings sourceSchema targetSchema Constants.DEFAULT_CONFIDENCE_THRESHOLD) /\
    sourceField s = path sf /\ targetField s = path tf /\
    confidence s = 1.0 /\ (0.8 <=? confidence s) = true /\
    suggestedTransformation s =
      Some {| rule_type := "direct"; params := None; function := None |}.
Proof.
  intros Hsf Htf Hp Ht. exists (suggestion sf tf).
  assert (Hc : calculateFieldSimilarity (path sf) (path tf) (schema sf) (schema tf) = 1.0)
    by (rewrite Hp; apply similarity_identical; exact Ht).
  split.
  - apply In_suggestMappings. exists sf, tf. repeat split; try assumption.
    rewrite Hc. reflexivity.
  - simpl. rewrite Hc. repeat split; try reflexivity.
    unfold suggestTransformation. rewrite Ht, DataType_eqb_refl. reflexivity.
Qed.

(** C5.  The items node of an array is a field of its schema, which
    [SchemaService.getFieldPaths] lists, but [suggestMappings] never
    suggests it.  The schema [{ email: string, tags: string[] }] has the
    field [tags[]], of type string, on both sides: the names are identical
    and the types equal, the scorer gives such a pair the score 1 and the
    [direct] transformation; yet [suggestMappings] returns, at the default
    threshold, the pairs of [email] and of [tags] only, and at no threshold
    a suggestion from or to [tags[]]: [extractFields] has dropped the
    field. *)
Theorem suggestMappings_misses_array_items :
  In "tags[]" (SchemaService.getFieldPaths Examples.contact_schema "") /\
  calculateFieldSimilarity "tags[]" "tags[]" (leaf STRING) (leaf STRING) = 1.0 /\
  suggestTransformation (leaf STRING) (leaf STRING) =
    Some {| rule_type := "direct"; params := None; function := None |} /\
  map (fun s => (sourceField s, targetField s))
    (suggestMappings Examples.contact_schema Examples.contact_schema
       Constants.DEFAULT_CONFIDENCE_THRESHOLD) =
    [("email", "email"); ("tags", "tags")] /\
  (forall threshold s,
     In s (suggestMappings Examples.contact_schema Examples.contact_schema threshold) ->
     sourceField s <> "tags[]" /\ targetField s <> "tags[]").
Proof.
  split; [simpl; auto|]. split; [vm_compute; reflexivity|].
  split; [reflexivity|]. split; [vm_compute; reflexivity|].
  intros threshold s Hs.
  apply In_suggestMappings in Hs as (sf & tf & Hsf & Htf & _ & ->).
  simpl in Hsf, Htf.
  destruct Hsf as [<-|[<-|[]]]; destruct Htf as [<-|[<-|[]]]; simpl;
    split; discriminate.
Qed.

(** C6.  For every pair of schema trees and every threshold, every
    suggestion [suggestMappings] returns has a confidence that is at least
    the threshold, at most 1 and not below the threshold; the suggestion of
    a pair of extracted fields is returned exactly when the pair's score
    reaches the threshold; and the returned sequence is sorted by
    confidence, largest first. *)
Theorem suggestMappings_threshold_sorted sourceSchema targetSchema threshold :
  let result := suggestMappings sourceSchema targetSchema threshold in
  (forall s, In s result ->
     (threshold <=? confidence s) = true /\ (confidence s <=? 1.0) = true /\
     (confidence s <? threshold) = false) /\
  (forall sf tf,
     In sf (extractFields sourceSchema "") -> In tf (extractFields targetSchema "") ->
     (In (suggestion sf tf) result <->
      (threshold <=? calculateFieldSimilarity (path sf) (path tf) (schema sf) (schema tf))
        = true)) /\
  Sorted (fun a b => (confidence b <=? confidence a) = true) result.
Proof.
  cbv zeta. split; [|split].
  - intros s Hs. apply In_suggestMappings in Hs as (sf & tf & _ & _ & E & ->). simpl.
    split; [exact E|]. split.
    + apply score_le_one, similarity_in_scores.
    + apply leb_not_ltb. exact E.
  - intros sf tf Hsf Htf. rewrite In_suggestMappings. split.
    + intros (sf' & tf' & _ & _ & E & Heq).
      apply (f_equal confidence) in Heq. simpl in Heq. rewrite Heq. exact E.
    + intros E. eauto 10.
  - unfold suggestMappings. apply (sort_sorted confidence).
    apply List.Forall_forall. intros s Hs.
    apply In_candidates in Hs as (sf & tf & _ & _ & _ & ->). simpl.
    apply similarity_in_scores.
Qed.

End SuggestFacts.

(** The field [email] of type string, on both sides. *)
Lemma suggestMappings_identical_fields_witness :
  exists s,
    In s (MappingService.suggestMappings (H := Examples.silent_host)
            Examples.contact_schema Examples.contact_schema
            Constants.DEFAULT_CONFIDENCE_THRESHOLD) /\
    MappingService.sourceField s = "email" /\ MappingService.targetField s = "email" /\
    MappingService.confidence s = 1.0%float /\
    (0.8 <=? MappingService.confidence s)%float = true /\
    MappingService.suggestedTransformation s =
      Some {| rule_type := "direct"; params := None; function := None |}.
Proof.
  apply (suggestMappings_identical_fields (H := Examples.silent_host)
           Examples.contact_schema Examples.contact_schema
           {| MappingService.path := "email"; MappingService.schema := leaf STRING |}
           {| MappingService.path := "email"; MappingService.schema := leaf STRING |});
    [left; reflexivity | left; reflexivity | reflexivity | reflexivity].
Defined.

(** ** Association lists *)

Lemma assoc_replace {A} k k' (v : A) l :
  Js.assoc k' (Js.replace k v l) =
    if String.eqb k k' then (match Js.assoc k l with Some _ => Some v | None => None end)
    else Js.assoc k' l.
Proof.
  induction l as [|[k0 v0] r IH]; simpl.
  - destruct (String.eqb k k'); reflexivity.
  - destruct (String.eqb k0 k) eqn:E0; simpl.
    + apply String.eqb_eq in E0. subst k0.
      destruct (String.eqb k k'); reflexivity.
    + destruct (String.eqb k0 k') eqn:E1.
      * apply String.eqb_eq in E1. subst k0. rewrite String.eqb_sym, E0. reflexivity.
      * exact IH.
Qed.

Lemma assoc_add_index {A} i k k' (v : A) l :
  Js.assoc k l = None ->
  Js.assoc k' (Js.add_index i k v l) = if String.eqb k k' then Some v else Js.assoc k' l.
Proof.
  induction l as [|[k0 v0] r IH]; simpl; intros Hk.
  - reflexivity.
  - destruct (String.eqb k0 k) eqn:E0; [discriminate|].
    destruct (index_of_key k0) as [j|]; [destruct (j <? i)%nat|]; simpl;
      try reflexivity.
    rewrite (IH Hk). destruct (String.eqb k0 k') eqn:E1; [|reflexivity].
    apply String.eqb_eq in E1. subst k0. rewrite String.eqb_sym, E0. reflexivity.
Qed.

Lemma assoc_app {A} k (l1 l2 : list (string * A)) :
  Js.assoc k (l1 ++ l2) =
    match Js.assoc k l1 with Some v => Some v | None => Js.assoc k l2 end.
Proof.
  induction l1 as [|[k0 v0] r IH]; simpl; [reflexivity|].
  destruct (String.eqb k0 k); [reflexivity | exact IH].
Qed.

(** Reading a member after an assignment. *)
Lemma assoc_assign {A} k k' (v : A) l :
  Js.assoc k' (Js.assign k v l) = if String.eqb k k' then Some v else Js.assoc k' l.
Proof.
  unfold Js.assign. destruct (Js.assoc k l) eqn:Hk.
  - rewrite assoc_replace, Hk. reflexivity.
  - destruct (index_of_key k).
    + apply assoc_add_index. exact Hk.
    + rewrite assoc_app. simpl. destruct (String.eqb k k') eqn:E.
      * apply String.eqb_eq in E. subst k'. rewrite Hk. reflexivity.
      * destruct (Js.assoc k' l); reflexivity.
Qed.

Lemma assoc_absent {A} k (l : list (string * A)) :
  ~ In k (map fst l) -> Js.assoc k l = None.
Proof.
  induction l as [|[k0 v0] r IH]; simpl; intros Hk; [reflexivity|].
  destruct (String.eqb k0 k) eqn:E.
  - apply String.eqb_eq in E. tauto.
  - apply IH. tauto.
Qed.

Lemma member_assign k k' v l :
  StorageService.member (Js.assign k v l) k' =
    if String.eqb k k' then v else StorageService.member l k'.
Proof.
  unfold StorageService.member. rewrite assoc_assign.
  destruct (String.eqb k k'); reflexivity.
Qed.

(** ** The mapping store *)

Section StoreFacts.
Context `{JsHost}.
Import StorageService StoreSpec.

Lemma after_init_initialized env st : initialized (after_init env st) = true.
Proof. unfold after_init. destruct (initialized st) eqn:E; [exact E | reflexivity]. Qed.

Lemma loadMappings_run env st :
  exists out,
    loadMappings env st = (Ok (storage (after_init env st)), after_init env st, out) /\
    (initialized st = true -> out = []).
Proof.
  unfold loadMappings, initialize, after_init, bind, get_state, put_state, ask,
    set_storage, print, ret.
  destruct st as [s i w]; simpl. destruct i; simpl.
  - eexists; split; [reflexivity | reflexivity].
  - destruct (disk env); simpl; eexists; (split; [reflexivity | discriminate]).
Qed.

(** [saveMappings] always returns; a failed write leaves one warning. *)
Lemma saveMappings_run mappings env st :
  exists w out,
    saveMappings mappings env st =
      (Ok tt, {| storage := mappings; initialized := initialized st;
                 fileSystemWritable := w |}, out) /\
    (fileSystemWritable st = true -> forall msg, write_error env = Some msg ->
       exists line, out = [Warn line]).
Proof.
  unfold saveMappings, bind, get_state, put_state, ask, set_storage, print, ret.
  destruct st as [s i w]; simpl. destruct w; simpl.
  - destruct (write_error env) as [msg|]; simpl.
    + destruct (Str.includes msg "EROFS" || Str.includes msg "read-only"); simpl;
        do 2 eexists; (split; [reflexivity | intros _ ? _; eexists; reflexivity]).
    + do 2 eexists; split; [reflexivity | intros _ ? ?; discriminate].
  - do 2 eexists; split; [reflexivity | discriminate].
Qed.

Lemma getMapping_run id env st :
  initialized st = true ->
  getMapping id env st =
    (Ok (match storage st !! id with
         | Some m => if Js.truthy m then m else JNull
         | None => JNull
         end), st, []).
Proof.
  intros Hi. unfold getMapping, bind.
  destruct (loadMappings_run env st) as (out & -> & Hout).
  rewrite (Hout Hi). unfold after_init. rewrite Hi.
  destruct (storage st !! id); reflexivity.
Qed.

(** [saveMapping] of a mapping whose normalization does not throw. *)
Lemma saveMapping_run mapping normalized env st :
  normalizeMapping mapping = Ok normalized ->
  exists w logs out,
    saveMapping mapping env st =
      (Ok tt,
       {| storage := <[saved_key env normalized := JObject (saved env normalized)]>
                       (storage (after_init env st));
          initialized := true;
          fileSystemWritable := w |},
       logs ++ out) /\
    (fileSystemWritable st = true -> forall msg, write_error env = Some msg ->
       exists line, out = [Warn line]).
Proof.
  intros Hn. unfold saveMapping, bind, lift, ask.
  destruct (loadMappings_run env st) as (logs & -> & _). rewrite Hn.
  destruct (saveMappings_run
              (<[saved_key env normalized := JObject (saved env normalized)]>
                 (storage (after_init env st))) env (after_init env st))
    as (w & out & Hs & Hw).
  unfold saved_key, saved in *. rewrite Hs. rewrite after_init_initialized.
  exists w, logs, out. split; [reflexivity|].
  intros Hfw. apply Hw. unfold after_init. destruct (initialized st); assumption.
Qed.

(** A correspondence that is [null] makes [saveMapping] throw before the
    store is touched. *)
Lemma saveMapping_throws mapping e env st :
  normalizeMapping mapping = Throw e ->
  exists logs, saveMapping mapping env st = (Throw e, after_init env st, logs).
Proof.
  intros Hn. unfold saveMapping, bind, lift.
  destruct (loadMappings_run env st) as (logs & -> & _). rewrite Hn.
  eexists. reflexivity.
Qed.

Lemma normalizeFieldMapping_object fm :
  normalizeFieldMapping (JObject fm) = Ok (JObject (canonical_form fm)).
Proof. reflexivity. Qed.

(** The timestamps leave every other member alone. *)
Lemma member_stamp now mapping k :
  k <> "updatedAt" -> k <> "createdAt" ->
  member (stamp now mapping) k = member mapping k.
Proof.
  intros Hu Hc. unfold stamp.
  assert (Eu : String.eqb "updatedAt" k = false) by (apply String.eqb_neq; congruence).
  assert (Ec : String.eqb "createdAt" k = false) by (apply String.eqb_neq; congruence).
  destruct (Js.truthy _); rewrite ?member_assign, ?Ec, ?member_assign, ?Eu; reflexivity.
Qed.

(** Normalization leaves every member but [fieldMappings] alone. *)
Lemma member_normalizeMapping mapping normalized k :
  normalizeMapping mapping = Ok normalized -> k <> "fieldMappings" ->
  member normalized k = member mapping k.
Proof.
  unfold normalizeMapping. intros Hn Hk.
  destruct (member mapping "fieldMappings"); try (injection Hn as <-; reflexivity).
  destruct (normalizeAll elems); [|discriminate]. injection Hn as <-.
  rewrite member_assign.
  replace (String.eqb "fieldMappings" k) with false; [reflexivity|].
  symmetry. apply String.eqb_neq. congruence.
Qed.

Lemma saved_key_id mapping normalized env :
  normalizeMapping mapping = Ok normalized ->
  saved_key env normalized = Js.to_string (member mapping "id").
Proof.
  intros Hn. unfold saved_key, saved.
  rewrite member_stamp by discriminate.
  rewrite (member_normalizeMapping _ _ _ Hn) by discriminate. reflexivity.
Qed.

(** C8.  When the durable store raises a write failure, [saveMapping] of a
    configuration it can normalize still returns normally; the failure
    shows only as a warning, the last line on the console; and a later
    [getMapping] of the configuration's id, in the same process and
    whatever the disk does then, returns the configuration just saved
    from memory: the caller's members with the correspondences normalized
    and the timestamps set. *)
Theorem save_survives_write_failure mapping normalized env st msg :
  write_error env = Some msg ->
  normalizeMapping mapping = Ok normalized ->
  exists st' out,
    saveMapping mapping env st = (Ok tt, st', out) /\
    (fileSystemWritable st = true -> exists logs line, out = logs ++ [Warn line]) /\
    (forall env',
       getMapping (Js.to_string (member mapping "id")) env' st' =
         (Ok (JObject (stamp (now env) normalized)), st', [])) /\
    (forall k, k <> "fieldMappings" -> k <> "updatedAt" -> k <> "createdAt" ->
       member (stamp (now env) normalized) k = member mapping k).
Proof.
  intros Hw Hn.
  destruct (saveMapping_run mapping normalized env st Hn) as (w & logs & out & Hs & Hout).
  eexists _, _. split; [exact Hs|]. split; [|split].
  - intros Hfw. destruct (Hout Hfw msg Hw) as (line & ->). eauto.
  - intros env'. rewrite getMapping_run by reflexivity. simpl.
    rewrite <- (saved_key_id mapping normalized env Hn), lookup_insert_eq. reflexivity.
  - intros k Hf Hu Hc. rewrite member_stamp by assumption.
    apply member_normalizeMapping; assumption.
Qed.

(** C7.  Saving a configuration with two correspondences, the first keyed
    [source_field]/[target_field] and the second keyed
    [sourceField]/[targetField], stores both under the camelCase keys: a
    later [getMapping] returns a configuration whose correspondences carry
    the paths of either spelling under [sourceField] and [targetField],
    with [required] defaulted to [false] and [transformation] and
    [confidence] defaulted to [null] when absent. *)
Theorem save_canonicalizes_keys mapping env st snake camel :
  member mapping "fieldMappings" = JArray [JObject snake; JObject camel] ->
  Js.assoc "sourceField" snake = None ->
  Js.assoc "targetField" snake = None ->
  Js.is_nullish (member camel "sourceField") = false ->
  Js.is_nullish (member camel "targetField") = false ->
  exists st' out stored first second,
    saveMapping mapping env st = (Ok tt, st', out) /\
    (forall env',
       getMapping (Js.to_string (member mapping "id")) env' st' =
         (Ok (JObject stored), st', [])) /\
    member stored "fieldMappings" = JArray [JObject first; JObject second] /\
    member first "sourceField" = member snake "source_field" /\
    member first "targetField" = member snake "target_field" /\
    member second "sourceField" = member camel "sourceField" /\
    member second "targetField" = member camel "targetField" /\
    (forall fm n, In (fm, n) [(snake, first); (camel, second)] ->
       member n "required" = Js.coalesce (member fm "required") (JBool false) /\
       member n "transformation" = Js.coalesce (member fm "transformation") JNull /\
       member n "confidence" = Js.coalesce (member fm "confidence") JNull).
Proof.
  intros Hf Hs1 Ht1 Hs2 Ht2.
  set (normalized :=
         Js.assign "fieldMappings"
           (JArray [JObject (canonical_form snake); JObject (canonical_form camel)]) mapping).
  assert (Hn : normalizeMapping mapping = Ok normalized).
  { unfold normalizeMapping. rewrite Hf. reflexivity. }
  destruct (saveMapping_run mapping normalized env st Hn) as (w & logs & out & Hs & _).
  eexists _, _, (stamp (now env) normalized), (canonical_form snake), (canonical_form camel).
  split; [exact Hs|]. split; [|split; [|split; [|split; [|split; [|split]]]]].
  - intros env'. rewrite getMapping_run by reflexivity. simpl.
    rewrite <- (saved_key_id mapping normalized env Hn), lookup_insert_eq. reflexivity.
  - rewrite member_stamp by discriminate. unfold normalized.
    rewrite member_assign. reflexivity.
  - unfold member at 1. simpl. unfold member at 1. rewrite Hs1. reflexivity.
  - unfold member at 1. simpl. unfold member at 1. rewrite Ht1. reflexivity.
  - unfold member at 1. simpl. unfold Js.coalesce. rewrite Hs2. reflexivity.
  - unfold member at 1. simpl. unfold Js.coalesce. rewrite Ht2. reflexivity.
  - intros fm n [E|[E|[]]]; injection E as <- <-; repeat split; reflexivity.
Qed.

Lemma validateEntries_true fms :
  validateEntries fms = Ok true -> Forall populated fms.
Proof.
  induction fms as [|fm r IH]; intros Hv; [constructor|].
  destruct fm as [| |b|n|s|l|ms]; simpl in Hv; try discriminate.
  destruct (negb _ || negb _) eqn:E in Hv; [discriminate|].
  apply orb_false_iff in E as [E1 E2].
  apply negb_false_iff in E1, E2.
  constructor; [|apply IH; exact Hv].
  exists ms. auto.
Qed.

(** What [validateMappingStructure] accepts. *)
Lemma validateMappingStructure_true m :
  validateMappingStructure m = Ok true ->
  exists members fms,
    m = JObject members /\
    Js.is_string (member members "id") = true /\
    Js.is_string (member members "name") = true /\
    Js.truthy (member members "sourceEndpoint") = true /\
    Js.truthy (member members "targetEndpoint") = true /\
    member members "fieldMappings" = JArray fms /\
    Forall populated fms.
Proof.
  unfold validateMappingStructure. intros Hv.
  destruct (negb (Js.truthy m)) eqn:Et; [discriminate|].
  destruct m as [| |b|n|s|l|members]; simpl in Hv; try discriminate.
  fold (member members "id") (member members "name")
    (member members "sourceEndpoint") (member members "targetEndpoint")
    (member members "fieldMappings") in Hv.
  destruct (negb (Js.is_string (member members "id"))) eqn:E1; [discriminate|].
  destruct (negb (Js.is_string (member members "name"))) eqn:E2; [discriminate|].
  destruct (negb (Js.truthy (member members "sourceEndpoint"))) eqn:E3; [discriminate|].
  destruct (negb (Js.truthy (member members "targetEndpoint"))) eqn:E4; [discriminate|].
  simpl in Hv.
  destruct (member members "fieldMappings") as [| | | | |fms|] eqn:Ef;
    simpl in Hv; try discriminate.
  apply negb_false_iff in E1, E2, E3, E4.
  exists members, fms. repeat split; try assumption.
  apply validateEntries_true. exact Hv.
Qed.

(** Populated correspondences normalize without an exception, each to its
    canonical form. *)
Lemma normalizeAll_populated fms :
  Forall populated fms ->
  exists ns, normalizeAll fms = Ok ns /\
    Forall2 (fun fm n => exists ms, fm = JObject ms /\ n = JObject (canonical_form ms)) fms ns.
Proof.
  induction 1 as [|fm r (ms & -> & _ & _) _ (ns & IH & IH2)]; simpl.
  - exists []. split; [reflexivity | constructor].
  - rewrite IH. eexists. split; [reflexivity|]. constructor; [eauto | exact IH2].
Qed.

Lemma admitted_normalized m : admitted m -> normalized_config m.
Proof.
  intros (members & fms & -> & _ & _ & _ & _ & Hf & Hall) members' fms' [= <-] Hf'.
  rewrite Hf in Hf'. injection Hf' as <-.
  eapply Forall_impl; [exact Hall|]. intros fm (ms & -> & Hk & _). exists ms. auto.
Qed.

Lemma normalizeFieldMapping_canonical fm n :
  normalizeFieldMapping fm = Ok n -> canonical n.
Proof.
  destruct fm; simpl; intros Hn; try discriminate;
    injection Hn as <-; eexists; (split; [reflexivity | reflexivity]).
Qed.

Lemma normalizeAll_canonical l ns :
  normalizeAll l = Ok ns -> Forall canonical ns.
Proof.
  revert ns. induction l as [|fm r IH]; simpl; intros ns Hn.
  - injection Hn as <-. constructor.
  - destruct (normalizeFieldMapping fm) as [n|] eqn:En; [|discriminate].
    destruct (normalizeAll r) as [ns'|]; [|discriminate].
    injection Hn as <-. constructor; [|apply IH; reflexivity].
    eapply normalizeFieldMapping_canonical. exact En.
Qed.

(** Whatever [saveMapping] or [importMappings] writes after normalizing it
    has its correspondences in canonical form. *)
Lemma normalizeMapping_normalized mapping normalized now :
  normalizeMapping mapping = Ok normalized ->
  normalized_config (JObject normalized) /\
  normalized_config (JObject (stamp now normalized)).
Proof.
  intros Hn.
  assert (Hc : forall fms, member normalized "fieldMappings" = JArray fms ->
                           Forall canonical fms).
  { unfold normalizeMapping in Hn. intros fms Hf.
    destruct (member mapping "fieldMappings") as [| | | | |l|] eqn:Em;
      try (injection Hn as <-; congruence).
    destruct (normalizeAll l) as [ns|] eqn:En; [|discriminate]. injection Hn as <-.
    rewrite member_assign in Hf. simpl in Hf. injection Hf as <-.
    eapply normalizeAll_canonical. exact En. }
  split; intros members fms [= <-] Hf; [auto|].
  rewrite member_stamp in Hf by discriminate. auto.
Qed.

(** A configuration that passes validation normalizes to an admitted one. *)
Lemma validated_admitted m0 :
  validateMappingStructure m0 = Ok true ->
  exists members normalized,
    m0 = JObject members /\ normalizeMapping members = Ok normalized /\
    admitted (JObject normalized).
Proof.
  intros Hv.
  destruct (validateMappingStructure_true m0 Hv)
    as (members & fms & -> & Hid & Hname & Hs & Ht & Hf & Hp).
  destruct (normalizeAll_populated fms Hp) as (ns & Hn & H2).
  exists members, (Js.assign "fieldMappings" (JArray ns) members).
  split; [reflexivity|]. split.
  - unfold normalizeMapping. rewrite Hf, Hn. reflexivity.
  - exists (Js.assign "fieldMappings" (JArray ns) members), ns.
    rewrite !member_assign. simpl. repeat split; try assumption.
    clear Hn Hf. induction H2 as [|fm n fms' ns' (ms & -> & ->) _ IH]; [constructor|].
    inversion Hp as [|? ? Hfm Hp']; subst.
    destruct Hfm as (ms' & Heq & Hsf & Htf). injection Heq as <-.
    constructor; [|apply IH; assumption].
    exists (canonical_form ms). repeat split; assumption.
Qed.

(** One turn of the import loop either stores an admitted configuration
    or leaves the store alone and records one error. *)
Lemma importEntry_cases mappings imported errors id m0 :
  (exists normalized,
     validateMappingStructure m0 = Ok true /\ admitted (JObject normalized) /\
     importEntry (mappings, imported, errors) (id, m0) =
       (<[id := JObject normalized]> mappings, S imported, errors)) \/
  (validateMappingStructure m0 <> Ok true /\
   exists e, importEntry (mappings, imported, errors) (id, m0) =
               (mappings, imported, errors ++ [e])).
Proof.
  destruct (validateMappingStructure m0) as [[|]|e] eqn:Hv.
  - left. destruct (validated_admitted m0 Hv) as (members & normalized & -> & Hn & Ha).
    exists normalized. split; [reflexivity|]. split; [exact Ha|].
    unfold importEntry. rewrite Hv, Hn. reflexivity.
  - right. split; [discriminate|]. eexists. unfold importEntry. rewrite Hv. reflexivity.
  - right. split; [discriminate|]. eexists. unfold importEntry. rewrite Hv. reflexivity.
Qed.

(** The loop of [importMappings]: what it leaves in the store was there
    before or is an admitted configuration of a validated entry, and every
    entry is counted once, as imported or as an error. *)
Lemma import_fold entries mappings imported errors :
  exists mappings' imported' errors',
    fold_left importEntry entries (mappings, imported, errors) =
      (mappings', imported', errors') /\
    (forall id m, mappings' !! id = Some m ->
       mappings !! id = Some m \/
       exists m0, In (id, m0) entries /\ validateMappingStructure m0 = Ok true /\
                  admitted m) /\
    (imported' + length errors' = imported + length errors + length entries)%nat.
Proof.
  revert mappings imported errors.
  induction entries as [|[id0 m0] r IH]; intros mappings imported errors;
    cbn [fold_left].
  - exists mappings, imported, errors. split; [reflexivity|]. split; [auto | simpl; lia].
  - destruct (importEntry_cases mappings imported errors id0 m0)
      as [(normalized & Hv & Ha & ->)|(Hv & e & ->)].
    + destruct (IH (<[id0 := JObject normalized]> mappings) (S imported) errors)
        as (ms' & i' & es' & -> & Hstore & Hcount).
      exists ms', i', es'. split; [reflexivity|]. split; [|simpl; lia].
      intros id m Hm. destruct (Hstore id m Hm) as [Hold|(m1 & Hin & Hv1 & Ha1)].
      * destruct (decide (id0 = id)) as [->|Hne].
        -- rewrite lookup_insert_eq in Hold. injection Hold as <-.
           right. exists m0. simpl. auto.
        -- rewrite lookup_insert_ne in Hold by exact Hne. auto.
      * right. exists m1. simpl. auto.
    + destruct (IH mappings imported (errors ++ [e]))
        as (ms' & i' & es' & -> & Hstore & Hcount).
      exists ms', i', es'. split; [reflexivity|]. split.
      * intros id m Hm. destruct (Hstore id m Hm) as [Hold|(m1 & Hin & Hv1 & Ha1)];
          [auto|]. right. exists m1. simpl. auto.
      * rewrite length_app in Hcount. simpl in Hcount |- *. lia.
Qed.

(** [importMappings] never throws; it either runs the loop over the entries
    or reports that there is nothing to read and touches nothing. *)
Lemma importMappings_run parsed env st :
  exists imported errors st' out,
    importMappings parsed env st = (Ok (imported, errors), st', out) /\
    ((exists data,
        parsed = Ok data /\ Js.is_object data = true /\ initialized st' = true /\
        fold_left importEntry (Js.entries data) (storage (after_init env st), 0%nat, []) =
          (storage st', imported, errors)) \/
     (st' = st /\ (forall data, parsed = Ok data -> Js.is_object data = false))).
Proof.
  unfold importMappings, try_catch, bind, lift, throw, ret.
  destruct parsed as [data|e]; simpl.
  - destruct (Js.is_object data) eqn:Hobj; simpl.
    + destruct (loadMappings_run env st) as (logs & -> & _).
      destruct (import_fold (Js.entries data) (storage (after_init env st)) 0%nat [])
        as (ms' & i' & es' & Hf & _).
      rewrite Hf.
      destruct (saveMappings_run ms' env (after_init env st)) as (w & out & -> & _).
      do 4 eexists. split; [reflexivity|]. left. exists data.
      rewrite Hf. simpl. rewrite after_init_initialized. auto.
    + do 4 eexists. split; [reflexivity|]. right. split; [reflexivity|].
      intros ? [= <-]. exact Hobj.
  - do 4 eexists. split; [reflexivity|]. right. split; [reflexivity|]. discriminate.
Qed.

(** C4 (as amended).  Every configuration that is in the store after
    [importMappings] was there before, in memory or in the mappings file,
    or is the normalization of an entry of the import that passed
    [validateMappingStructure]: it then has a string [id] and [name]
    (possibly empty), a truthy [sourceEndpoint] and [targetEndpoint], and an
    array of correspondences that each have [sourceField] and [targetField]
    populated after normalization.  An entry that fails a check is rejected
    as a unit, stored nowhere and counted as one error, and the other
    entries proceed. *)
Theorem import_admits_only_validated parsed env st :
  exists imported errors st' out,
    importMappings parsed env st = (Ok (imported, errors), st', out) /\
    (forall id m, storage st' !! id = Some m ->
       storage st !! id = Some m \/ storage (after_init env st) !! id = Some m \/
       exists data m0,
         parsed = Ok data /\ In (id, m0) (Js.entries data) /\
         validateMappingStructure m0 = Ok true /\ admitted m) /\
    (forall data, parsed = Ok data -> Js.is_object data = true ->
       (imported + length errors = length (Js.entries data))%nat).
Proof.
  destruct (importMappings_run parsed env st)
    as (imported & errors & st' & out & Hrun & Hcase).
  exists imported, errors, st', out. split; [exact Hrun|].
  destruct Hcase as [(data & -> & Hobj & Hi & Hfold)|(-> & Hprim)].
  - destruct (import_fold (Js.entries data) (storage (after_init env st)) 0%nat [])
      as (ms' & i' & es' & Hf & Hstore & Hcount).
    rewrite Hfold in Hf. injection Hf as <- <- <-. split.
    + intros id m Hm. destruct (Hstore id m Hm) as [Hold|(m0 & Hin & Hv & Ha)]; [auto|].
      right. right. exists data, m0. auto.
    + intros data' [= <-] _. simpl in Hcount. lia.
  - split; [auto|]. intros data Hd Ho. rewrite (Hprim data Hd) in Ho. discriminate.
Qed.

(** C10 (as amended).  The configuration that a save writes, and every
    configuration that an import writes, has correspondences that consist
    of exactly the keys [sourceField], [targetField], [transformation],
    [confidence], [required], [sourceType] and [targetType]; any other key
    the caller supplied, [description] included, is no key of the stored
    correspondence, and reading it yields [undefined] (unless it is the
    name of a member that every object inherits).  The configurations
    that were already in the store, in memory or read from the mappings
    file, are left as they were. *)
Theorem written_correspondences_canonical :
  (forall mapping normalized env st,
     normalizeMapping mapping = Ok normalized ->
     exists w out,
       saveMapping mapping env st =
         (Ok tt,
          {| storage := <[Js.to_string (member mapping "id") :=
                            JObject (stamp (now env) normalized)]>
                          (storage (after_init env st));
             initialized := true;
             fileSystemWritable := w |}, out) /\
       normalized_config (JObject (stamp (now env) normalized))) /\
  (forall parsed env st,
     exists r st' out,
       importMappings parsed env st = (Ok r, st', out) /\
       forall id m, storage st' !! id = Some m ->
         storage st !! id = Some m \/ storage (after_init env st) !! id = Some m \/
         normalized_config m) /\
  (forall fm k, canonical fm -> ~ In k canonical_keys ->
     (exists ms, fm = JObject ms /\ Js.assoc k ms = None) /\
     (Js.inherited k = false -> Js.get fm k = Ok JUndefined)).
Proof.
  split; [|split].
  - intros mapping normalized env st Hn.
    destruct (saveMapping_run mapping normalized env st Hn) as (w & logs & out & Hs & _).
    rewrite (saved_key_id mapping normalized env Hn) in Hs.
    exists w, (logs ++ out). split; [exact Hs|].
    apply (normalizeMapping_normalized mapping normalized (now env) Hn).
  - intros parsed env st.
    destruct (importMappings_run parsed env st)
      as (imported & errors & st' & out & Hrun & Hcase).
    exists (imported, errors), st', out. split; [exact Hrun|].
    intros id m Hm. destruct Hcase as [(data & -> & _ & _ & Hfold)|(-> & _)]; [|auto].
    destruct (import_fold (Js.entries data) (storage (after_init env st)) 0%nat [])
      as (ms' & i' & es' & Hf & Hstore & _).
    rewrite Hfold in Hf. injection Hf as <- <- <-.
    destruct (Hstore id m Hm) as [Hold|(m0 & _ & _ & Ha)]; [auto|].
    right. right. apply admitted_normalized. exact Ha.
  - intros fm k (ms & -> & Hk) Hnot.
    assert (Hnone : Js.assoc k ms = None)
      by (apply assoc_absent; rewrite Hk; exact Hnot).
    split; [eauto|]. intros _. simpl. rewrite Hnone. reflexivity.
Qed.

End StoreFacts.

(** Saving [contact_sync] on a disk that cannot be written. *)
Lemma save_survives_write_failure_witness :
  exists st' out,
    StorageService.saveMapping (H := Examples.silent_host) Examples.contact_sync
      Examples.failing_disk StorageService.initial = (Ok tt, st', out) /\
    (exists logs line, out = logs ++ [StorageService.Warn line]) /\
    StorageService.getMapping "contact-sync" Examples.failing_disk st' =
      (Ok (JObject
             (StorageService.stamp "2024-01-01T00:00:00.000Z"
                Examples.contact_sync_normalized)), st', []).
Proof.
  destruct (save_survives_write_failure (H := Examples.silent_host)
              Examples.contact_sync Examples.contact_sync_normalized
              Examples.failing_disk StorageService.initial "EACCES: permission denied"
              eq_refl eq_refl)
    as (st' & out & Hs & Hw & Hg & _).
  exists st', out. split; [exact Hs|]. split; [exact (Hw eq_refl)|]. exact (Hg _).
Defined.

(** Saving [contact_sync], whose correspondences use one spelling each. *)
Lemma save_canonicalizes_keys_witness :
  exists st' out stored first second,
    StorageService.saveMapping (H := Examples.silent_host) Examples.contact_sync
      Examples.failing_disk StorageService.initial = (Ok tt, st', out) /\
    StorageService.getMapping "contact-sync" Examples.failing_disk st' =
      (Ok (JObject stored), st', []) /\
    StorageService.member stored "fieldMappings" = JArray [JObject first; JObject second] /\
    StorageService.member first "sourceField" = JString "first_name" /\
    StorageService.member first "targetField" = JString "FirstName" /\
    StorageService.member second "sourceField" = JString "email" /\
    StorageService.member second "targetField" = JString "Email" /\
    StorageService.member first "required" = JBool false /\
    StorageService.member first "transformation" = JNull /\
    StorageService.member first "confidence" = JNull.
Proof.
  destruct (save_canonicalizes_keys (H := Examples.silent_host) Examples.contact_sync
              Examples.failing_disk StorageService.initial
              Examples.snake_entry Examples.camel_entry
              eq_refl eq_refl eq_refl eq_refl eq_refl)
    as (st' & out & stored & first & second & Hs & Hg & Hf & H1 & H2 & H3 & H4 & Hd).
  exists st', out, stored, first, second.
  destruct (Hd Examples.snake_entry first (or_introl eq_refl)) as (Hr & Ht & Hc).
  repeat split; try assumption. exact (Hg _).
Defined.

(** Import stores a configuration whose [id] and [name] are empty: the
    configuration under the key ["blank"] is not well formed as the
    specification words it. *)
Lemma import_admits_empty_id_and_name :
  let st' :=
    (StorageService.importMappings (H := Examples.silent_host)
       (Ok (JObject [("blank", Examples.nameless)]))
       Examples.failing_disk StorageService.initial).1.2 in
  exists m, StorageService.storage st' !! "blank" = Some m /\ ~ StoreSpec.well_formed m.
Proof.
  eexists. split; [vm_compute; reflexivity|].
  intros (members & fms & id & name & [= <-] & Hid & Hne & _).
  vm_compute in Hid. injection Hid as <-. apply Hne. reflexivity.
Qed.

(** [saveMapping] stores what it is given without validating it. *)
Lemma saveMapping_does_not_validate :
  let st' :=
    (StorageService.saveMapping (H := Examples.silent_host) Examples.hollow
       Examples.failing_disk StorageService.initial).1.2 in
  exists m, StorageService.storage st' !! "hollow" = Some m /\
            Js.get m "name" = Ok JUndefined /\
            Js.get m "targetEndpoint" = Ok JUndefined.
Proof. eexists. repeat split; vm_compute; reflexivity. Qed.

(** After a save the store still holds the correspondence of the mappings
    file as it was written there, under the keys [source_field] and
    [target_field] and with its [description]: not every correspondence
    held in the store consists of the canonical keys. *)
Lemma store_keeps_loaded_correspondences :
  let st' :=
    (StorageService.saveMapping (H := Examples.silent_host) Examples.contact_sync
       Examples.legacy_file StorageService.initial).1.2 in
  ~ (forall id m, StorageService.storage st' !! id = Some m ->
                  StoreSpec.normalized_config m).
Proof.
  intros st' Hall.
  assert (Hm : StorageService.storage st' !! "legacy" = Some Examples.legacy)
    by (vm_compute; reflexivity).
  specialize (Hall _ _ Hm _ _ eq_refl eq_refl).
  inversion Hall as [|? ? Hc _]. destruct Hc as (ms & Heq & Hk).
  injection Heq as <-. discriminate Hk.
Qed.

(** ** The transformation engine *)

Lemma failures_app os1 os2 :
  EngineSpec.failures (os1 ++ os2) = EngineSpec.failures os1 ++ EngineSpec.failures os2.
Proof. unfold EngineSpec.failures. apply flat_map_app. Qed.

Section EngineFacts.
Context `{JsHost}.
Import TransformationService EngineSpec.

(** While no [catch] handler throws, the loop goes through every turn and
    returns the errors of the turns that failed, in order. *)
Lemma applyMappings_caught src out l h errs :
  caught (snd (run h src out l)) ->
  applyMappings h src out l errs =
    (fst (run h src out l), Ok (errs ++ failures (snd (run h src out l)))).
Proof.
  revert h errs. induction l as [|fm rest IH]; intros h errs Hc; simpl.
  - rewrite app_nil_r. reflexivity.
  - simpl in Hc. destruct (processField h src out fm) as [h1 o].
    specialize (IH h1). destruct (run h1 src out rest) as [h2 os] eqn:Er.
    simpl in IH, Hc |- *. inversion Hc as [|? ? Ho Hos]; subst.
    destruct o as [| |e|e]; try (rewrite (IH _ Hos); reflexivity).
    + rewrite (IH _ Hos). simpl. rewrite <- app_assoc. reflexivity.
    + contradiction.
Qed.

(** When the loop returns, no handler has thrown. *)
Lemma applyMappings_returns src out l h errs h' errs' :
  applyMappings h src out l errs = (h', Ok errs') -> caught (snd (run h src out l)).
Proof.
  revert h errs. induction l as [|fm rest IH]; intros h errs Ha; simpl.
  - constructor.
  - simpl in Ha. destruct (processField h src out fm) as [h1 o].
    specialize (IH h1). destruct (run h1 src out rest) as [h2 os] eqn:Er.
    simpl in IH |- *.
    destruct o as [| |e|e]; [| | |discriminate Ha];
      (constructor; [exact I | eapply IH; exact Ha]).
Qed.

(** An exception leaves the loop exactly when a handler throws. *)
Lemma applyMappings_throws src out l h errs h' e :
  applyMappings h src out l errs = (h', Throw e) ->
  ~ caught (snd (run h src out l)).
Proof.
  intros Ha Hc. rewrite (applyMappings_caught _ _ _ _ _ Hc) in Ha. discriminate Ha.
Qed.

Lemma run_app src out l1 l2 h :
  run h src out (l1 ++ l2) =
    (fst (run (fst (run h src out l1)) src out l2),
     snd (run h src out l1) ++ snd (run (fst (run h src out l1)) src out l2)).
Proof.
  revert h. induction l1 as [|fm rest IH]; intros h; simpl.
  - destruct (run h src out l2); reflexivity.
  - destruct (processField h src out fm) as [h1 o]. rewrite IH.
    destruct (run h1 src out rest) as [h2 os]. reflexivity.
Qed.

Lemma run_length src out l h : length (snd (run h src out l)) = length l.
Proof.
  revert h. induction l as [|fm rest IH]; intros h; simpl; [reflexivity|].
  destruct (processField h src out fm) as [h1 o]. specialize (IH h1).
  destruct (run h1 src out rest) as [h2 os]. simpl in *. congruence.
Qed.

(** C1.  An exception can leave [transformPayload].  A configuration whose
    first correspondence has the number 5 as its [sourceField] (the store
    admits it: [saveMapping] does not look at the paths and
    [validateMappingStructure] only at their truth value) makes
    [getNestedValue] throw, since a number has no [split]; the [catch]
    handler of the loop, which is there to record the error and go on,
    calls [getNestedValue] once more for the [originalValue] of its record,
    and this second exception leaves the handler and the function.  No
    result is returned, no error is recorded, and the second
    correspondence, which alone is transformed successfully, is never
    processed. *)
Theorem transformPayload_throws_from_handler :
  let unreadable :=
    {| sourceField := VNum 5; targetField := VStr "count";
       sourceType := None; targetType := None;
       transformation := None; required := false |} in
  let readable :=
    Examples.correspondence "amount" "total" false (Some Examples.string_to_number) in
  Heap.truthy (sourceField unreadable) = true /\
  transformPayload (Examples.amount "42.5") 0 (Examples.mapping_of [unreadable; readable]) =
    ([CObject [("amount", VStr "42.5")]; CObject []],
     Throw (Runtime (NotAFunction "path.split"))) /\
  transformPayload (Examples.amount "42.5") 0 (Examples.mapping_of [readable]) =
    ([CObject [("amount", VStr "42.5")]; CObject [("total", VNum 42.5)]],
     Ok {| success := true; transformedPayload := Some (VRef 1); errors := None;
           warnings := None; unmappedFields := None |}).
Proof. repeat split; reflexivity. Qed.

(** X28.  Whenever [transformPayload] returns a result, the result is all
    or nothing.  Every correspondence has had its turn, also those that
    come after a failed one; the errors of the result are those of the
    turns that failed, in order; [success] is [true] if and only if no turn
    failed; and [transformedPayload] is the output object when [success] is
    [true] and absent otherwise. *)
Theorem returned_result_is_all_or_nothing h sourcePayload mapping h' r :
  transformPayload h sourcePayload mapping = (h', Ok r) ->
  let src := VRef sourcePayload in
  let out := VRef (length h) in
  let h0 := h ++ [CObject []] in
  let outcomes := snd (run h0 src out (fieldMappings mapping)) in
  h' = fst (run h0 src out (fieldMappings mapping)) /\
  length outcomes = length (fieldMappings mapping) /\
  caught outcomes /\
  errors r = non_empty (failures outcomes) /\
  (success r = true <-> failures outcomes = []) /\
  transformedPayload r = (if success r then Some out else None) /\
  (forall l1 l2, fieldMappings mapping = l1 ++ l2 ->
     failures outcomes =
       failures (snd (run h0 src out l1)) ++
       failures (snd (run (fst (run h0 src out l1)) src out l2))).
Proof.
  intros Hrun. cbv zeta. unfold transformPayload, Heap.alloc in Hrun.
  destruct (applyMappings (h ++ [CObject []]) (VRef sourcePayload) (VRef (length h))
              (fieldMappings mapping) []) as [h1 [errs|e]] eqn:Ea; [|discriminate Hrun].
  pose proof (applyMappings_returns _ _ _ _ _ _ _ Ea) as Hc.
  rewrite (applyMappings_caught _ _ _ _ _ Hc) in Ea. injection Ea as <- <-.
  injection Hrun as <- <-. simpl.
  split; [reflexivity|]. split; [apply run_length|]. split; [exact Hc|].
  split; [reflexivity|]. split; [|split].
  - rewrite bool_decide_eq_true. reflexivity.
  - destruct (failures _); reflexivity.
  - intros l1 l2 ->. rewrite run_app. simpl. apply failures_app.
Qed.

(** C2 (as amended).  The [format] rule from [string] to [number] applies
    [parseFloat] to the text of the value: when the text, after leading
    white space, starts with a decimal numeral, the number that the longest
    such prefix denotes is returned and the characters after it are
    ignored; when it does not, the rule throws and the correspondence
    records an error.  (A value that has no text, an object with a member
    [toString] of its own, makes the conversion to text throw.)  Applied
    to [{"amount": "42.5"}] with target [total] it yields
    [{"total": 42.5}]; applied to [{"amount": "abc"}] it yields
    [success = false] with one error, whose field is [amount]. *)
Theorem format_string_to_number h v rule :
  Heap.is_str (param rule "from") "string" = true ->
  Heap.is_str (param rule "to") "number" = true ->
  applyFormatTransformation h v rule =
    match Heap.to_string h v with
    | Throw e => Throw e
    | Ok text =>
        match Num.numeric_prefix text with
        | Some (x, _) => Ok (VNum x)
        | None => Throw (Error ("Cannot convert '" +:+ text +:+ "' to number"))
        end
    end /\
  (forall s, Heap.to_string h (VStr s) = Ok s) /\
  transformPayload (Examples.amount "42.5") 0 Examples.amount_to_total =
    ([CObject [("amount", VStr "42.5")]; CObject [("total", VNum 42.5)]],
     Ok {| success := true; transformedPayload := Some (VRef 1); errors := None;
           warnings := None; unmappedFields := None |}) /\
  transformPayload (Examples.amount "abc") 0 Examples.amount_to_total =
    ([CObject [("amount", VStr "abc")]; CObject []],
     Ok {| success := false; transformedPayload := None;
           errors := Some [{| field := VStr "amount";
                              error := "Transformation failed: Cannot convert 'abc' to number";
                              originalValue := Some (VStr "abc") |}];
           warnings := None; unmappedFields := None |}).
Proof.
  intros Hfrom Hto. split; [|split; [reflexivity | split; reflexivity]].
  unfold applyFormatTransformation. rewrite Hfrom, Hto. simpl andb. cbv iota.
  destruct (Heap.to_string h v) as [text|e]; [|reflexivity].
  destruct (Num.numeric_prefix text) as [[x rest]|] eqn:Ep.
  - unfold Num.parseFloat. rewrite Ep.
    rewrite (numeric_prefix_not_nan _ _ _ Ep). reflexivity.
  - unfold Num.parseFloat. rewrite Ep. reflexivity.
Qed.

(** C9.  [transformPayload] can write into the input payload.  The payload
    [{"address": {"street": "Main"}, "city": "Paris"}] is transformed by
    copying [address] to [location] and [city] to [location.city].  The
    output's [location] is the payload's own [address] object, so the
    second write lands in the payload: after the run, which succeeds, the
    payload's [address] has the new member [city]. *)
Theorem transformPayload_writes_into_payload :
  exists h' r,
    transformPayload Examples.contact 0 Examples.relocate = (h', Ok r) /\
    success r = true /\
    transformedPayload r = Some (VRef 2) /\
    Examples.contact !! 1%nat = Some (CObject [("street", VStr "Main")]) /\
    h' !! 1%nat = Some (CObject [("street", VStr "Main"); ("city", VStr "Paris")]) /\
    h' !! 2%nat = Some (CObject [("location", VRef 1)]).
Proof. do 2 eexists. repeat split; reflexivity. Qed.

End EngineFacts.

(** The text ["12abc"] is turned into 12 and no error is recorded, though
    the characters ["abc"] are left unread. *)
Lemma format_accepts_trailing_characters :
  ~ EngineSpec.parses_fully_or_fails (H := Examples.silent_host) [] (VStr "12abc")
      Examples.string_to_number.
Proof.
  intros [(text & x & Ht & Hp & _)|(e & He)].
  - injection Ht as <-. vm_compute in Hp. discriminate Hp.
  - vm_compute in He. discriminate He.
Qed.

(** The rule on the text ["12abc"]. *)
Lemma format_string_to_number_witness :
  TransformationService.applyFormatTransformation (H := Examples.silent_host) []
    (VStr "12abc") Examples.string_to_number = Ok (VNum 12).
Proof.
  destruct (format_string_to_number (H := Examples.silent_host) [] (VStr "12abc")
              Examples.string_to_number eq_refl eq_refl) as (Hf & _).
  rewrite Hf. vm_compute. reflexivity.
Defined.

(** A required field is missing and the next correspondence is still
    written: the result has no output object. *)
Lemma returned_result_is_all_or_nothing_witness :
  let payload := [CObject [("tags", VStr "a, b")]] in
  let mapping :=
    Examples.mapping_of [Examples.correspondence "zip" "postcode" true None;
                         Examples.correspondence "tags" "labels" false None] in
  exists h' r,
    TransformationService.transformPayload (H := Examples.silent_host) payload 0 mapping
      = (h', Ok r) /\
    h' = [CObject [("tags", VStr "a, b")]; CObject [("labels", VStr "a, b")]] /\
    TransformationService.success r = false /\
    TransformationService.transformedPayload r = None /\
    length (snd (EngineSpec.run (H := Examples.silent_host)
                   (payload ++ [CObject []]) (VRef 0) (VRef 1)
                   (TransformationService.fieldMappings mapping))) = 2.
Proof.
  intros payload mapping.
  destruct (TransformationService.transformPayload (H := Examples.silent_host)
              payload 0 mapping) as [h' [r|e]] eqn:Erun;
    [|vm_compute in Erun; discriminate Erun].
  destruct (returned_result_is_all_or_nothing (H := Examples.silent_host)
              payload 0 mapping h' r Erun) as (Hh & Hlen & _ & _ & _ & _ & _).
  exists h', r. split; [reflexivity|]. split; [rewrite Hh; reflexivity|].
  split; [|split; [|exact Hlen]];
    vm_compute in Erun; injection Erun as _ <-; reflexivity.
Defined.

(** A first correspondence without a source path fails, the second is
    written, the third misses its required field, and the fourth cannot
    write below a string: three errors, in that order. *)
Example failures_do_not_stop_the_loop :
  snd (TransformationService.transformPayload (H := Examples.silent_host)
         [CObject [("tags", VStr "a, b")]] 0
         (Examples.mapping_of
            [ {| sourceField := VStr ""; targetField := VStr "x";
                 sourceType := None; targetType := None;
                 transformation := None; required := false |};
              Examples.correspondence "tags" "labels" false None;
              Examples.correspondence "zip" "postcode" true None;
              Examples.correspondence "tags" "labels.first" false None ])) =
  Ok {| TransformationService.success := false;
        TransformationService.transformedPayload := None;
        TransformationService.errors :=
          Some [ {| TransformationService.field := VStr "";
                    TransformationService.error :=
                      "Invalid field mapping: sourceField='', targetField='x'. Check that the mapping was saved with valid field names.";
                    TransformationService.originalValue := None |};
                 {| TransformationService.field := VStr "zip";
                    TransformationService.error := "Required field is missing or null";
                    TransformationService.originalValue := None |};
                 {| TransformationService.field := VStr "tags";
                    TransformationService.error := "Failed to transform field: ";
                    TransformationService.originalValue := Some (VStr "a, b") |} ];
        TransformationService.warnings := None;
        TransformationService.unmappedFields := None |}.
Proof. reflexivity. Qed.
(** * Properties of the code beyond its specification *)

(** ** Field paths and schema comparison *)

(** Induction on a schema tree: the properties and the items of a node come
    before the node. *)
Lemma SchemaObject_tree_ind (P : SchemaObject -> Prop) :
  (forall t f props it,
     match props with
     | Some ps => Forall (fun kp : string * SchemaObject => P kp.2) ps
     | None => True
     end ->
     match it with Some i => P i | None => True end ->
     P (mkSchema t f props it)) ->
  forall s, P s.
Proof.
  intros step. fix IH 1. intros [t f props it]. apply step.
  - destruct props as [ps|]; [|exact I].
    induction ps as [|[k p] ps IHps]; constructor; [apply IH | exact IHps].
  - destruct it as [i|]; [apply IH | exact I].
Qed.

Lemma dotted_named prefix key : key <> "" -> dotted prefix key <> "".
Proof. destruct prefix; simpl; [tauto | discriminate]. Qed.

Lemma str_includes_In l x : MappingService.str_includes l x = true <-> In x l.
Proof.
  unfold MappingService.str_includes. rewrite existsb_exists. split.
  - intros (y & Hy & He). apply String.eqb_eq in He. subst. exact Hy.
  - intros Hx. exists x. split; [exact Hx | apply String.eqb_refl].
Qed.

Section PathFacts.
Import MappingService.

(** The paths of [extractFields] are among those of [getFieldPaths], in the
    same order. *)
Lemma extractFields_sublist_aux s :
  forall prefix,
    sublist (map path (extractFields s prefix)) (SchemaService.getFieldPaths s prefix).
Proof.
  induction s as [t f props it Hprops Hit] using SchemaObject_tree_ind. intros prefix.
  destruct t; simpl; try constructor.
  - (* an array *)
    destruct it as [i|]; [|constructor]. apply sublist_cons. apply Hit.
  - (* an object *)
    destruct props as [ps|]; [|constructor].
    induction Hprops as [|[k p] ps Hp Hps IH]; [constructor|].
    simpl. rewrite map_app. apply sublist_skip. apply sublist_app; [|exact IH].
    destruct (is_container (type p)); [apply Hp | constructor].
Qed.

Lemma extractFields_array_free_aux s :
  forall prefix,
    Paths.array_free s = true ->
    map path (extractFields s prefix) = SchemaService.getFieldPaths s prefix.
Proof.
  induction s as [t f props it Hprops Hit] using SchemaObject_tree_ind. intros prefix.
  destruct t; simpl; try reflexivity; try discriminate.
  destruct props as [ps|]; [|reflexivity].
  intros Hfree. apply andb_prop in Hfree as [Hfree _].
  induction Hprops as [|[k p] ps Hp Hps IH]; [reflexivity|].
  simpl in Hfree. apply andb_prop in Hfree as [Hp' Hrest].
  simpl. rewrite map_app. f_equal. f_equal; [|apply IH; exact Hrest].
  destruct (is_container (type p)); [apply Hp; exact Hp' | reflexivity].
Qed.

Lemma extractFields_named_aux s :
  forall prefix fld,
    Paths.named s = true -> In fld (extractFields s prefix) -> path fld <> "".
Proof.
  induction s as [t f props it Hprops Hit] using SchemaObject_tree_ind.
  intros prefix fld Hn Hin. simpl in Hn. apply andb_prop in Hn as [Hnp Hni].
  destruct t; simpl in Hin; try contradiction.
  - destruct it as [i|]; [|contradiction]. eapply Hit; eassumption.
  - destruct props as [ps|]; [|contradiction].
    induction Hprops as [|[k p] ps Hp Hps IH]; [contradiction|].
    apply andb_prop in Hnp as [Hkp Hrest]. apply andb_prop in Hkp as [Hk Hnamed].
    simpl in Hin. destruct Hin as [<-|Hin].
    + simpl. apply dotted_named. intros ->. discriminate Hk.
    + apply in_app_or in Hin as [Hin|Hin]; [|apply IH; assumption].
      destruct (is_container (type p)); [|contradiction]. eapply Hp; eassumption.
Qed.

End PathFacts.

(** X1.  For every schema and prefix, the paths that
    [MappingService.extractFields] yields are paths that
    [SchemaService.getFieldPaths] yields as well, in the same order: the
    field extraction of the scorer never invents a path, it only leaves
    paths out. *)
Theorem extractFields_paths_among_getFieldPaths schema prefix :
  sublist (map MappingService.path (MappingService.extractFields schema prefix))
          (SchemaService.getFieldPaths schema prefix).
Proof. apply extractFields_sublist_aux. Qed.

(** X2.  On a schema without array nodes the two extractions agree: they
    list the same paths in the same order. *)
Theorem extractFields_agrees_without_arrays schema prefix :
  Paths.array_free schema = true ->
  map MappingService.path (MappingService.extractFields schema prefix) =
    SchemaService.getFieldPaths schema prefix.
Proof. apply extractFields_array_free_aux. Qed.

Lemma extractFields_agrees_without_arrays_witness :
  map MappingService.path (MappingService.extractFields MoreExamples.customer_schema "") =
    ["name"; "address"; "address.city"] /\
  SchemaService.getFieldPaths MoreExamples.customer_schema "" =
    ["name"; "address"; "address.city"].
Proof.
  pose proof (extractFields_agrees_without_arrays MoreExamples.customer_schema ""
                eq_refl) as Heq.
  split; [reflexivity | rewrite <- Heq; reflexivity].
Defined.

Section CompareFacts.
Import SchemaComparison.

Lemma common_paths_length (l1 l2 : list string) :
  NoDup l1 -> NoDup l2 ->
  length (List.filter (fun f => MappingService.str_includes l2 f) l1) =
  length (List.filter (fun f => MappingService.str_includes l1 f) l2).
Proof.
  intros H1 H2. apply Permutation_length. apply NoDup_Permutation.
  - apply NoDup_ListNoDup, List.NoDup_filter, NoDup_ListNoDup, H1.
  - apply NoDup_ListNoDup, List.NoDup_filter, NoDup_ListNoDup, H2.
  - intros x. rewrite !list_elem_of_In, !filter_In, !str_includes_In. tauto.
Qed.

Lemma distinct_paths_length (l1 l2 : list string) :
  length (remove_dups (l1 ++ l2)) = length (remove_dups (l2 ++ l1)).
Proof.
  apply Permutation_length. apply NoDup_Permutation.
  - apply NoDup_remove_dups.
  - apply NoDup_remove_dups.
  - intros x. rewrite !elem_of_remove_dups, !elem_of_app. tauto.
Qed.

End CompareFacts.

(** X3.  [compareSchemas] is symmetric on schemas whose field paths are
    pairwise distinct: the score of the first schema against the second is
    the score of the second against the first. *)
Theorem compareSchemas_symmetric schema1 schema2 :
  NoDup (SchemaService.getFieldPaths schema1 "") ->
  NoDup (SchemaService.getFieldPaths schema2 "") ->
  SchemaComparison.compareSchemas schema1 schema2 =
    SchemaComparison.compareSchemas schema2 schema1.
Proof.
  intros H1 H2. unfold SchemaComparison.compareSchemas. cbv zeta.
  rewrite (common_paths_length _ _ H1 H2).
  rewrite (distinct_paths_length (SchemaService.getFieldPaths schema1 "")).
  reflexivity.
Qed.

Lemma compareSchemas_symmetric_witness :
  SchemaComparison.compareSchemas MoreExamples.person_schema MoreExamples.customer_schema =
    SchemaComparison.compareSchemas MoreExamples.customer_schema MoreExamples.person_schema.
Proof.
  apply compareSchemas_symmetric.
  - apply (bool_decide_unpack _). vm_compute. reflexivity.
  - apply (bool_decide_unpack _). vm_compute. reflexivity.
Defined.
(** ** Similarity scores and suggestions *)

Lemma existsb_pointwise {A} (f g : A -> bool) l :
  (forall x, f x = g x) -> existsb f l = existsb g l.
Proof. intros E. induction l as [|x l IH]; simpl; [reflexivity|]. rewrite E, IH. reflexivity. Qed.

Section SimilarityFacts.
Import MappingService.
Local Open Scope float_scope.

Lemma checkSynonyms_sym a b : checkSynonyms a b = checkSynonyms b a.
Proof.
  unfold checkSynonyms.
  rewrite (existsb_pointwise _
    (fun synonyms : list string =>
       str_includes (map normalizeName synonyms) b
       && str_includes (map normalizeName synonyms) a)); [reflexivity|].
  intros x. apply andb_comm.
Qed.

Lemma calculateTypeCompatibility_sym a b :
  calculateTypeCompatibility a b = calculateTypeCompatibility b a.
Proof. destruct a, b; reflexivity. Qed.

Lemma calculateFieldSimilarity_sym sn tn ss ts :
  calculateFieldSimilarity sn tn ss ts = calculateFieldSimilarity tn sn ts ss.
Proof.
  unfold calculateFieldSimilarity. cbv zeta.
  rewrite (String.eqb_sym sn tn).
  rewrite (String.eqb_sym (Str.toLowerCase sn) (Str.toLowerCase tn)).
  rewrite (String.eqb_sym (normalizeName sn) (normalizeName tn)).
  rewrite (orb_comm (Str.includes (normalizeName sn) (normalizeName tn))).
  rewrite (checkSynonyms_sym (normalizeName sn)).
  rewrite (calculateTypeCompatibility_sym (type ss)).
  reflexivity.
Qed.

(** Identical names score 1 whatever the synonym and type scores are. *)
Lemma similarity_same_name n ss ts : calculateFieldSimilarity n n ss ts = 1.0.
Proof.
  unfold calculateFieldSimilarity. cbv zeta.
  rewrite !String.eqb_refl, includes_refl. simpl orb.
  destruct (checkSynonyms_values (normalizeName n) (normalizeName n)) as [<-|[<-|[]]];
    destruct (calculateTypeCompatibility_values (type ss) (type ts)) as [<-|[<-|[<-|[]]]];
    vm_compute; reflexivity.
Qed.

(** Names that differ when the case is ignored differ as they stand. *)
Lemma caseless_differ sn tn :
  String.eqb (Str.toLowerCase sn) (Str.toLowerCase tn) = false -> String.eqb sn tn = false.
Proof.
  intros Hc. destruct (String.eqb sn tn) eqn:E; [|reflexivity].
  apply String.eqb_eq in E. subst. rewrite String.eqb_refl in Hc. discriminate.
Qed.

Lemma default_threshold_cases b3 b4 syn ty :
  In syn [1.0; 0.0] -> In ty [1.0; 0.7; 0.0] ->
  (Constants.DEFAULT_CONFIDENCE_THRESHOLD <=? accumulate false false b3 b4 syn ty) = true ->
  (0 <? syn) = true /\ (0 <? ty) = true.
Proof.
  intros [<-|[<-|[]]] [<-|[<-|[<-|[]]]]; destruct b3, b4; vm_compute; intros E;
    first [discriminate E | split; reflexivity].
Qed.

End SimilarityFacts.

Section SuggestionFacts.
Context `{JsHost}.
Import MappingService.
Local Open Scope float_scope.

Lemma In_suggestion sourceSchema targetSchema threshold sf tf :
  In sf (extractFields sourceSchema "") -> In tf (extractFields targetSchema "") ->
  (In (suggestion sf tf) (suggestMappings sourceSchema targetSchema threshold) <->
   (threshold <=? calculateFieldSimilarity (path sf) (path tf) (schema sf) (schema tf))
     = true).
Proof.
  intros Hsf Htf. rewrite In_suggestMappings. split.
  - intros (sf' & tf' & _ & _ & E & Heq).
    apply (f_equal confidence) in Heq. simpl in Heq. rewrite Heq. exact E.
  - intros E. eauto 10.
Qed.

(** X4.  The similarity score is symmetric: scoring a source name and
    schema against a target name and schema gives the same number as
    scoring them the other way round.  Hence a pair of fields is suggested
    for two schemas exactly when the mirrored pair is suggested for the
    schemas exchanged. *)
Theorem calculateFieldSimilarity_symmetric :
  (forall sn tn ss ts,
     calculateFieldSimilarity sn tn ss ts = calculateFieldSimilarity tn sn ts ss) /\
  (forall sourceSchema targetSchema threshold sf tf,
     In sf (extractFields sourceSchema "") -> In tf (extractFields targetSchema "") ->
     (In (suggestion sf tf) (suggestMappings sourceSchema targetSchema threshold) <->
      In (suggestion tf sf) (suggestMappings targetSchema sourceSchema threshold))).
Proof.
  split; [apply calculateFieldSimilarity_sym|].
  intros sourceSchema targetSchema threshold sf tf Hsf Htf.
  rewrite !In_suggestion by assumption.
  rewrite (calculateFieldSimilarity_sym (path sf)). reflexivity.
Qed.

(** X5.  Two fields with the same path score exactly 1 whatever their
    declared types are, compatible or not; the pair is therefore suggested
    at every threshold that does not exceed 1. *)
Theorem same_path_scores_one sourceSchema targetSchema threshold sf tf :
  In sf (extractFields sourceSchema "") ->
  In tf (extractFields targetSchema "") ->
  path sf = path tf ->
  (threshold <=? 1.0) = true ->
  calculateFieldSimilarity (path sf) (path tf) (schema sf) (schema tf) = 1.0 /\
  In (suggestion sf tf) (suggestMappings sourceSchema targetSchema threshold).
Proof.
  intros Hsf Htf Hp Hth.
  assert (Hc : calculateFieldSimilarity (path sf) (path tf) (schema sf) (schema tf) = 1.0)
    by (rewrite Hp; apply similarity_same_name).
  split; [exact Hc|]. apply In_suggestion; try assumption. rewrite Hc. exact Hth.
Qed.

(** X6.  Two ASCII names that differ even when the case is ignored reach
    the default threshold only if they are synonyms of one another and
    their types are equal or compatible: without a row of the synonym
    table that holds both names, such a pair is never suggested by
    default.  (The names are ASCII: of other letters [toLowerCase] folds
    more than the embedding does.) *)
Theorem default_threshold_needs_synonyms sn tn ss ts :
  Str.is_ascii sn = true -> Str.is_ascii tn = true ->
  String.eqb (Str.toLowerCase sn) (Str.toLowerCase tn) = false ->
  (Constants.DEFAULT_CONFIDENCE_THRESHOLD <=? calculateFieldSimilarity sn tn ss ts) = true ->
  (0 <? checkSynonyms (normalizeName sn) (normalizeName tn)) = true /\
  (0 <? calculateTypeCompatibility (type ss) (type ts)) = true.
Proof.
  intros _ _ Hc. unfold calculateFieldSimilarity. cbv zeta.
  rewrite Hc, (caseless_differ _ _ Hc).
  apply default_threshold_cases.
  - apply checkSynonyms_values.
  - apply calculateTypeCompatibility_values.
Qed.

(** X25.  Every suggestion that [suggestMappings] returns for two schemas
    whose properties all have names becomes, through [createFieldMapping],
    a field mapping that [validateMapping] accepts without an error.
    This holds also when the two fields are of different types and no
    transformation was suggested: [createFieldMapping] records both types
    as [string], so the type check of [validateMapping] has nothing to
    report. *)
Theorem created_mapping_validates sourceSchema targetSchema threshold s :
  Paths.named sourceSchema = true ->
  Paths.named targetSchema = true ->
  In s (suggestMappings sourceSchema targetSchema threshold) ->
  MappingChecks.validateMapping (MappingChecks.fields (MappingChecks.createFieldMapping s)) =
    {| MappingChecks.valid := true; MappingChecks.errors := [] |}.
Proof.
  intros Hns Hnt Hin.
  apply In_suggestMappings in Hin as (sf & tf & Hsf & Htf & _ & ->).
  pose proof (extractFields_named_aux _ _ _ Hns Hsf) as Hps.
  pose proof (extractFields_named_aux _ _ _ Hnt Htf) as Hpt.
  unfold MappingChecks.validateMapping, MappingChecks.createFieldMapping. simpl.
  destruct (path sf); [contradiction|]. destruct (path tf); [contradiction|].
  reflexivity.
Qed.

End SuggestionFacts.

Lemma same_path_scores_one_witness :
  MappingService.calculateFieldSimilarity "id" "id" (leaf INTEGER) (leaf STRING)
    = 1.0%float /\
  In (MappingService.suggestion (H := Examples.silent_host)
        {| MappingService.path := "id"; MappingService.schema := leaf INTEGER |}
        {| MappingService.path := "id"; MappingService.schema := leaf STRING |})
     (MappingService.suggestMappings (H := Examples.silent_host)
        MoreExamples.person_schema MoreExamples.account_schema 1.0%float).
Proof.
  apply (same_path_scores_one (H := Examples.silent_host)
           MoreExamples.person_schema MoreExamples.account_schema 1.0%float
           {| MappingService.path := "id"; MappingService.schema := leaf INTEGER |}
           {| MappingService.path := "id"; MappingService.schema := leaf STRING |}).
  - simpl. auto.
  - simpl. auto.
  - reflexivity.
  - reflexivity.
Defined.

Lemma default_threshold_needs_synonyms_witness :
  (0 <? MappingService.checkSynonyms (MappingService.normalizeName "mail")
          (MappingService.normalizeName "e_mail"))%float = true /\
  (0 <? MappingService.calculateTypeCompatibility STRING STRING)%float = true.
Proof.
  apply (default_threshold_needs_synonyms "mail" "e_mail" (leaf STRING) (leaf STRING)).
  - reflexivity.
  - reflexivity.
  - reflexivity.
  - vm_compute. reflexivity.
Defined.

Lemma created_mapping_validates_witness :
  let s :=
    MappingService.suggestion (H := Examples.silent_host)
      {| MappingService.path := "id"; MappingService.schema := leaf INTEGER |}
      {| MappingService.path := "id"; MappingService.schema := leaf STRING |} in
  MappingService.suggestedTransformation s = None /\
  MappingChecks.validateMapping (MappingChecks.fields (MappingChecks.createFieldMapping s)) =
    {| MappingChecks.valid := true; MappingChecks.errors := [] |}.
Proof.
  intros s. split; [reflexivity|].
  apply (created_mapping_validates (H := Examples.silent_host)
           MoreExamples.person_schema MoreExamples.account_schema 1.0%float s).
  - reflexivity.
  - reflexivity.
  - vm_compute. auto.
Defined.
(** ** The mapping store: deleting, listing, searching and importing *)

Lemma select_throws {A} (f : A -> result bool) l x e :
  In x l -> f x = Throw e -> exists e', StorageAdmin.select f l = Throw e'.
Proof.
  induction l as [|y l IH]; intros Hin Hx; [contradiction|]. simpl.
  destruct Hin as [->|Hin].
  - rewrite Hx. eauto.
  - destruct (f y) as [keep|e0]; [|eauto].
    destruct (IH Hin Hx) as (e' & ->). eauto.
Qed.

Lemma values_lookup (mappings : gmap string jval) id m :
  mappings !! id = Some m -> In m (StorageAdmin.values mappings).
Proof.
  intros Hl. unfold StorageAdmin.values. apply list_elem_of_In.
  apply list_elem_of_fmap. exists (id, m). split; [reflexivity|].
  apply elem_of_map_to_list. exact Hl.
Qed.

Section MemoryOnly.
Import StorageService StorageAdmin.

Lemma quiet_app out1 out2 : quiet out1 -> quiet out2 -> quiet (out1 ++ out2).
Proof. unfold quiet. intros. apply Forall_app. split; assumption. Qed.

Lemma quiet_nil : quiet [].
Proof. constructor. Qed.

Lemma memory_only_ret {A} (a : A) : memory_only (ret a).
Proof. intros env st Hw. split; [exact Hw | apply quiet_nil]. Qed.

Lemma memory_only_throw {A} e : memory_only (throw (A := A) e).
Proof. intros env st Hw. split; [exact Hw | apply quiet_nil]. Qed.

Lemma memory_only_lift {A} (r : result A) : memory_only (lift r).
Proof. intros env st Hw. split; [exact Hw | apply quiet_nil]. Qed.

Lemma memory_only_ask : memory_only ask.
Proof. intros env st Hw. split; [exact Hw | apply quiet_nil]. Qed.

Lemma memory_only_get_state : memory_only get_state.
Proof. intros env st Hw. split; [exact Hw | apply quiet_nil]. Qed.

Lemma memory_only_bind {A B} (m : M A) (f : A -> M B) :
  memory_only m -> (forall a, memory_only (f a)) -> memory_only (bind m f).
Proof.
  intros Hm Hf env st Hw. unfold bind.
  destruct (Hm env st Hw) as [Hw1 Hq1].
  destruct (m env st) as [[[a|e] st1] out1]; simpl in *; [|split; assumption].
  destruct (Hf a env st1 Hw1) as [Hw2 Hq2].
  destruct (f a env st1) as [[r st2] out2]; simpl in *.
  split; [exact Hw2 | apply quiet_app; assumption].
Qed.

Lemma memory_only_try_catch {A} (m : M A) (handler : exn -> M A) :
  memory_only m -> (forall e, memory_only (handler e)) -> memory_only (try_catch m handler).
Proof.
  intros Hm Hh env st Hw. unfold try_catch.
  destruct (Hm env st Hw) as [Hw1 Hq1].
  destruct (m env st) as [[[a|e] st1] out1]; simpl in *; [split; assumption|].
  destruct (Hh e env st1 Hw1) as [Hw2 Hq2].
  destruct (handler e env st1) as [[r st2] out2]; simpl in *.
  split; [exact Hw2 | apply quiet_app; assumption].
Qed.

Lemma memory_only_initialize : memory_only initialize.
Proof.
  intros env [s i w] Hw. simpl in Hw. subst w.
  unfold initialize, bind, get_state, put_state, ask, set_storage, print, ret. simpl.
  destruct i; simpl; [split; [reflexivity | apply quiet_nil]|].
  destruct (disk env); simpl; (split; [reflexivity | repeat constructor]).
Qed.

Lemma memory_only_saveMappings mappings : memory_only (saveMappings mappings).
Proof.
  intros env [s i w] Hw. simpl in Hw. subst w.
  unfold saveMappings, bind, get_state, put_state, ask, set_storage, print, ret. simpl.
  split; [reflexivity | repeat constructor].
Qed.

Lemma memory_only_clearCache : memory_only clearCache.
Proof.
  intros env [s i w] Hw. simpl in Hw. subst w.
  unfold clearCache, bind, get_state, put_state. simpl.
  split; [reflexivity | apply quiet_nil].
Qed.

Lemma memory_only_loadMappings : memory_only loadMappings.
Proof.
  unfold loadMappings. apply memory_only_bind; [apply memory_only_initialize|].
  intros _. apply memory_only_bind; [apply memory_only_get_state|].
  intros st. apply memory_only_ret.
Qed.

End MemoryOnly.

Create HintDb memory_only.

#[local] Hint Resolve memory_only_ret memory_only_throw memory_only_lift memory_only_ask
  memory_only_get_state memory_only_initialize memory_only_saveMappings
  memory_only_clearCache memory_only_loadMappings : memory_only.

Ltac memory_only :=
  repeat first
    [ solve [auto with memory_only]
    | progress cbv zeta
    | match goal with
      | |- StorageAdmin.memory_only (StorageService.bind _ _) =>
          apply memory_only_bind; [|intros ?]
      | |- StorageAdmin.memory_only (StorageService.try_catch _ _) =>
          apply memory_only_try_catch; [|intros ?]
      end ].

Section StoreFactsMore.
Context `{JsHost}.
Import StorageService StoreSpec StorageAdmin.

Lemma after_init_idem env env' st : after_init env' (after_init env st) = after_init env st.
Proof.
  unfold after_init at 1. rewrite after_init_initialized. reflexivity.
Qed.

Lemma after_init_writable env st :
  fileSystemWritable (after_init env st) = fileSystemWritable st.
Proof. unfold after_init. destruct (initialized st); reflexivity. Qed.

Lemma loadMappings_quiet env st :
  exists out,
    loadMappings env st = (Ok (storage (after_init env st)), after_init env st, out) /\
    quiet out /\ (initialized st = true -> out = []).
Proof.
  unfold loadMappings, initialize, after_init, bind, get_state, put_state, ask,
    set_storage, print, ret.
  destruct st as [s i w]; simpl. destruct i; simpl.
  - eexists; split; [reflexivity|]. split; [apply quiet_nil | reflexivity].
  - destruct (disk env); simpl; eexists;
      (split; [reflexivity|]; split; [repeat constructor | discriminate]).
Qed.

Lemma memory_only_perform o : memory_only (perform o).
Proof.
  destruct o; simpl.
  - unfold saveMapping. memory_only.
  - unfold importMappings. memory_only.
    destruct (negb (Js.is_object _)); memory_only.
    destruct (fold_left importEntry _ _) as [[mappings' imported] errors]. memory_only.
  - unfold deleteMapping. memory_only.
    destruct (_ !! id) as [m|]; [destruct (Js.truthy m)|]; memory_only.
  - unfold getMapping. memory_only. destruct (_ !! id); memory_only.
  - unfold listMappings. memory_only.
  - unfold findMappingsByEndpoint. memory_only.
  - apply memory_only_clearCache.
Qed.

Lemma session_memory_only calls st :
  fileSystemWritable st = false ->
  fileSystemWritable (session calls st).1 = false /\ quiet (session calls st).2.
Proof.
  revert st. induction calls as [|[env o] rest IH]; intros st Hw; simpl.
  - split; [exact Hw | apply quiet_nil].
  - destruct (memory_only_perform o env st Hw) as [Hw1 Hq1].
    destruct (perform o env st) as [[r st1] out1]; simpl in *.
    destruct (IH st1 Hw1) as [Hw2 Hq2].
    destruct (session rest st1) as [st2 out2]; simpl in *.
    split; [exact Hw2 | apply quiet_app; assumption].
Qed.

Lemma saveMappings_read_only mappings env st msg :
  write_error env = Some msg ->
  (Str.includes msg "EROFS" || Str.includes msg "read-only") = true ->
  fileSystemWritable (saveMappings mappings env st).1.2 = false.
Proof.
  intros He Hm. destruct st as [s i w].
  unfold saveMappings, bind, get_state, put_state, ask, set_storage, print, ret. simpl.
  destruct w; simpl; [|reflexivity]. rewrite He, Hm. reflexivity.
Qed.

(** X7.  Once a write of the mappings file has failed with a read-only
    error ([EROFS] or [read-only] in its message), the store works in
    memory only for the rest of the process: whatever calls follow
    (saving, importing, deleting, reading, listing, searching, clearing
    the cache) and whatever the file system does then, the flag
    [fileSystemWritable] stays [false] and no call attempts to write the
    file again, so the console shows neither the line of a successful
    write nor a warning.  [clearCache] does not reset the flag. *)
Theorem read_only_is_sticky mappings env st msg calls :
  write_error env = Some msg ->
  (Str.includes msg "EROFS" || Str.includes msg "read-only") = true ->
  let st1 := (saveMappings mappings env st).1.2 in
  fileSystemWritable st1 = false /\
  fileSystemWritable (session calls st1).1 = false /\
  Forall (fun c => reports_write c = false) (session calls st1).2.
Proof.
  intros He Hm st1.
  assert (Hw : fileSystemWritable st1 = false)
    by (apply (saveMappings_read_only _ _ _ _ He Hm)).
  split; [exact Hw|]. apply session_memory_only. exact Hw.
Qed.

Lemma deleteMapping_found id env st m :
  storage (after_init env st) !! id = Some m -> Js.truthy m = true ->
  exists w out,
    deleteMapping id env st =
      (Ok true,
       {| storage := delete id (storage (after_init env st));
          initialized := true;
          fileSystemWritable := w |}, out).
Proof.
  intros Hl Ht. unfold deleteMapping, bind.
  destruct (loadMappings_quiet env st) as (logs & -> & _). rewrite Hl, Ht.
  destruct (saveMappings_run (delete id (storage (after_init env st))) env
              (after_init env st)) as (w & out & -> & _).
  rewrite after_init_initialized. unfold ret. simpl. eauto.
Qed.



(** X10.  Saving a configuration and then deleting its id is a round trip:
    the delete returns [true] and the store is what it was before the
    save with that id removed; when the id was new, the store is exactly
    what it was before the save.  The id is not [__proto__], the one key
    under which an assignment adds no member. *)
Theorem save_then_delete mapping normalized env env' st :
  normalizeMapping mapping = Ok normalized ->
  Js.to_string (member mapping "id") <> "__proto__" ->
  let id := Js.to_string (member mapping "id") in
  exists st1 out1 st2 out2,
    saveMapping mapping env st = (Ok tt, st1, out1) /\
    deleteMapping id env' st1 = (Ok true, st2, out2) /\
    storage st2 = delete id (storage (after_init env st)) /\
    (storage (after_init env st) !! id = None ->
     storage st2 = storage (after_init env st)).
Proof.
  intros Hn _ id.
  destruct (saveMapping_run mapping normalized env st Hn) as (w & logs & out & Hs & _).
  rewrite (saved_key_id mapping normalized env Hn) in Hs. fold id in Hs.
  set (st1 := {| storage := <[id := JObject (saved env normalized)]>
                              (storage (after_init env st));
                 initialized := true; fileSystemWritable := w |}) in *.
  assert (Hl : storage (after_init env' st1) !! id = Some (JObject (saved env normalized))).
  { unfold after_init. simpl. apply lookup_insert_eq. }
  destruct (deleteMapping_found id env' st1 _ Hl eq_refl) as (w' & out' & Hd).
  do 4 eexists. split; [exact Hs|]. split; [exact Hd|].
  assert (Hst : delete id (storage (after_init env' st1)) =
                delete id (storage (after_init env st))).
  { unfold after_init at 1. simpl. apply delete_insert_eq. }
  split; [exact Hst|].
  intros Hnone. etransitivity; [exact Hst | apply delete_id; exact Hnone].
Qed.

(** X11.  [clearCache] discards the in-memory store: the next [getMapping]
    loads the mappings file again and answers from it alone.  When the
    file holds a JSON object, the answer is the member the object has
    under the id, or [null] when it has none; when there is no file, or
    it cannot be read or parsed, the answer is [null].  A configuration
    that was saved while the file could not be written is therefore no
    longer found once the cache has been cleared, unless the file holds
    it.  The id is not the name of a member that every object inherits. *)
Theorem clearCache_forgets id env0 env st image :
  Js.inherited id = false ->
  disk env = Loaded image \/
    (disk env = NoFile \/ disk env = Unreadable) /\ image = ∅ ->
  let st0 := (clearCache env0 st).1.2 in
  exists st' out,
    getMapping id env st0 =
      (Ok (match image !! id with
           | Some m => if Js.truthy m then m else JNull
           | None => JNull
           end), st', out) /\
    storage st' = image /\
    fileSystemWritable st' = fileSystemWritable st.
Proof.
  intros _ Hfile. cbv zeta. destruct st as [s i w].
  unfold clearCache, bind, get_state, put_state. simpl.
  unfold getMapping, bind.
  destruct (loadMappings_quiet env
              {| storage := ∅; initialized := false; fileSystemWritable := w |})
    as (logs & -> & _).
  assert (Himage : storage (after_init env
                     {| storage := ∅; initialized := false; fileSystemWritable := w |})
                   = image).
  { unfold after_init. simpl.
    destruct Hfile as [->|[[->| ->] ->]]; reflexivity. }
  rewrite Himage.
  destruct (image !! id) as [m|]; unfold ret; simpl; do 2 eexists;
    (split; [reflexivity|]; split; [exact Himage | reflexivity]).
Qed.

Lemma saveMapping_stamped mapping normalized env st :
  normalizeMapping mapping = Ok normalized ->
  exists st' out,
    saveMapping mapping env st = (Ok tt, st', out) /\
    storage st' !! Js.to_string (member mapping "id") =
      Some (JObject (stamp (now env) normalized)).
Proof.
  intros Hn.
  destruct (saveMapping_run mapping normalized env st Hn) as (w & logs & out & Hs & _).
  rewrite (saved_key_id mapping normalized env Hn) in Hs.
  do 2 eexists. split; [exact Hs|]. simpl. apply lookup_insert_eq.
Qed.

(** X12.  [saveMapping] sets [updatedAt] to the time of the save, always,
    and keeps the [createdAt] the caller passes when there is one; a
    configuration saved without [createdAt] (or with an empty one) gets
    the time of the save as its [createdAt] as well. *)
Theorem saveMapping_timestamps mapping normalized env st :
  normalizeMapping mapping = Ok normalized ->
  exists st' out stored,
    saveMapping mapping env st = (Ok tt, st', out) /\
    storage st' !! Js.to_string (member mapping "id") = Some (JObject stored) /\
    member stored "updatedAt" = JString (now env) /\
    member stored "createdAt" =
      (if Js.truthy (member mapping "createdAt") then member mapping "createdAt"
       else JString (now env)).
Proof.
  intros Hn. destruct (saveMapping_stamped mapping normalized env st Hn)
    as (st' & out & Hs & Hl).
  exists st', out, (stamp (now env) normalized).
  split; [exact Hs|]. split; [exact Hl|].
  assert (Hc : member normalized "createdAt" = member mapping "createdAt")
    by (apply (member_normalizeMapping _ _ _ Hn); discriminate).
  unfold stamp. rewrite !member_assign. simpl. rewrite Hc.
  destruct (Js.truthy (member mapping "createdAt")).
  - rewrite !member_assign. simpl. rewrite Hc. split; reflexivity.
  - rewrite !member_assign. simpl. split; reflexivity.
Qed.







Lemma coalesce_twice x d : Js.coalesce (Js.coalesce x d) d = Js.coalesce x d.
Proof.
  unfold Js.coalesce. destruct (Js.is_nullish x) eqn:Ex.
  - destruct (Js.is_nullish d); reflexivity.
  - rewrite Ex. reflexivity.
Qed.

Lemma coalesce_not_null x : x <> JNull -> Js.coalesce x JUndefined = x.
Proof. destruct x; intros Hx; try reflexivity. contradiction. Qed.

Lemma coalesce_nested x :
  Js.coalesce (Js.coalesce (Js.coalesce x JUndefined) JUndefined) JUndefined =
    Js.coalesce x JUndefined.
Proof. destruct x; reflexivity. Qed.

(** X14.  Normalizing a field correspondence is idempotent from the second
    application on, and from the first when neither path of the normalized
    correspondence is [null]: a correspondence that has been normalized
    (as every stored one whose paths are populated has) is left as it is
    when it is saved or imported again. *)
Theorem normalizeFieldMapping_idempotent fm n :
  normalizeFieldMapping fm = Ok n ->
  exists n',
    normalizeFieldMapping n = Ok n' /\
    normalizeFieldMapping n' = Ok n' /\
    (Js.get n "sourceField" <> Ok JNull -> Js.get n "targetField" <> Ok JNull -> n' = n).
Proof.
  intros Hn.
  assert (Hform : exists a b c d e f g,
            n = JObject [("sourceField", a); ("targetField", b);
                         ("transformation", Js.coalesce c JNull);
                         ("confidence", Js.coalesce d JNull);
                         ("required", Js.coalesce e (JBool false));
                         ("sourceType", Js.coalesce f JUndefined);
                         ("targetType", Js.coalesce g JUndefined)]).
  { destruct fm; try discriminate; injection Hn as <-; do 7 eexists; reflexivity. }
  destruct Hform as (a & b & c & d & e & f & g & ->).
  eexists. split; [reflexivity|]. simpl. split.
  - rewrite !coalesce_twice. reflexivity.
  - intros Ha Hb. rewrite !coalesce_twice.
    rewrite (coalesce_not_null a) by congruence.
    rewrite (coalesce_not_null b) by congruence. reflexivity.
Qed.

Lemma normalizeAll_nullish l x :
  In x l -> Js.is_nullish x = true -> exists e, normalizeAll l = Throw e.
Proof.
  induction l as [|y l IH]; intros Hin Hx; [contradiction|]. simpl.
  destruct Hin as [->|Hin].
  - destruct x; try discriminate; simpl; eauto.
  - destruct (normalizeFieldMapping y); [|eauto].
    destruct (IH Hin Hx) as (e & ->). eauto.
Qed.

(** X15.  [saveMapping] is all or nothing with respect to its
    normalization: when one of the field correspondences is [null] (or
    [undefined]), the call throws, the store is left as loading it left
    it, and no write is attempted. *)
Theorem saveMapping_rejects_null_correspondence mapping l x env st :
  member mapping "fieldMappings" = JArray l ->
  In x l -> Js.is_nullish x = true ->
  exists e out,
    saveMapping mapping env st = (Throw e, after_init env st, out) /\
    Forall (fun c => reports_write c = false) out.
Proof.
  intros Hf Hin Hx. destruct (normalizeAll_nullish l x Hin Hx) as (e & Hn).
  unfold saveMapping, bind, lift.
  destruct (loadMappings_quiet env st) as (logs & -> & Hq & _).
  unfold normalizeMapping. rewrite Hf, Hn. rewrite app_nil_r.
  exists e, logs. split; [reflexivity | exact Hq].
Qed.

Lemma matches_throws system path method m :
  (forall endpoint,
     Js.get m (if String.eqb system "A" then "sourceEndpoint" else "targetEndpoint")
       = Ok endpoint -> Js.is_nullish endpoint = true) ->
  exists e, matches system path method m = Throw e.
Proof.
  intros Hm. unfold matches.
  destruct (Js.get m _) as [endpoint|e]; [|eauto].
  specialize (Hm endpoint eq_refl). destruct endpoint; try discriminate; simpl; eauto.
Qed.

(** X16.  [findMappingsByEndpoint] throws, whatever path and method are
    asked for, as soon as the store holds one configuration that lacks
    the endpoint of the system asked for ([sourceEndpoint] for system A,
    [targetEndpoint] otherwise), or holds [null]; the configurations that
    would match are not returned.  (Such configurations enter the store
    through [saveMapping], which does not validate, or through the
    mappings file.) *)
Theorem findMappingsByEndpoint_needs_endpoints system path method id m env st :
  storage (after_init env st) !! id = Some m ->
  (forall endpoint,
     Js.get m (if String.eqb system "A" then "sourceEndpoint" else "targetEndpoint")
       = Ok endpoint -> Js.is_nullish endpoint = true) ->
  exists e out,
    findMappingsByEndpoint system path method env st = (Throw e, after_init env st, out).
Proof.
  intros Hl Hm. unfold findMappingsByEndpoint, bind, lift.
  destruct (loadMappings_quiet env st) as (logs & -> & _).
  destruct (matches_throws system path method m Hm) as (e & He).
  destruct (select_throws _ _ m e (values_lookup _ _ _ Hl) He) as (e' & ->).
  eauto.
Qed.


End StoreFactsMore.

Lemma read_only_is_sticky_witness :
  let st1 :=
    (StorageService.saveMappings ∅ MoreExamples.read_only_disk StorageService.initial).1.2 in
  let calls :=
    [(MoreExamples.writable_disk, StorageAdmin.Save Examples.contact_sync);
     (MoreExamples.writable_disk, StorageAdmin.Clear);
     (MoreExamples.writable_disk, StorageAdmin.Delete "contact-sync")] in
  StorageService.fileSystemWritable st1 = false /\
  StorageService.fileSystemWritable
    (StorageAdmin.session (H := Examples.silent_host) calls st1).1 = false /\
  Forall (fun c => StorageAdmin.reports_write c = false)
    (StorageAdmin.session (H := Examples.silent_host) calls st1).2.
Proof.
  exact (read_only_is_sticky (H := Examples.silent_host) ∅ MoreExamples.read_only_disk
           StorageService.initial
           "EROFS: read-only file system, open '/srv/mappings.json'"
           [(MoreExamples.writable_disk, StorageAdmin.Save Examples.contact_sync);
            (MoreExamples.writable_disk, StorageAdmin.Clear);
            (MoreExamples.writable_disk, StorageAdmin.Delete "contact-sync")]
           eq_refl eq_refl).
Defined.



Lemma save_then_delete_witness :
  exists st1 out1 st2 out2,
    StorageService.saveMapping (H := Examples.silent_host) Examples.contact_sync
      Examples.failing_disk StorageService.initial = (Ok tt, st1, out1) /\
    StorageAdmin.deleteMapping "contact-sync" MoreExamples.writable_disk st1 =
      (Ok true, st2, out2) /\
    StorageService.storage st2 = ∅.
Proof.
  destruct (save_then_delete (H := Examples.silent_host) Examples.contact_sync
              Examples.contact_sync_normalized Examples.failing_disk
              MoreExamples.writable_disk StorageService.initial eq_refl)
    as (st1 & out1 & st2 & out2 & Hs & Hd & _ & He); [discriminate|].
  exists st1, out1, st2, out2. split; [exact Hs|]. split; [exact Hd|].
  apply He. reflexivity.
Defined.

Lemma clearCache_forgets_witness :
  exists st' out,
    StorageService.getMapping "legacy" Examples.failing_disk
      (StorageAdmin.clearCache Examples.failing_disk MoreExamples.legacy_store).1.2 =
      (Ok JNull, st', out) /\
    StorageService.storage st' = ∅.
Proof.
  destruct (clearCache_forgets "legacy" Examples.failing_disk Examples.failing_disk
              MoreExamples.legacy_store ∅ eq_refl
              (or_intror (conj (or_introl eq_refl) eq_refl)))
    as (st' & out & Hg & Hs & _).
  exists st', out. split; [exact Hg | exact Hs].
Defined.

Lemma saveMapping_timestamps_witness :
  exists st' out stored,
    StorageService.saveMapping (H := Examples.silent_host) Examples.contact_sync
      Examples.failing_disk StorageService.initial = (Ok tt, st', out) /\
    StorageService.storage st' !! "contact-sync" = Some (JObject stored) /\
    StorageService.member stored "updatedAt" = JString "2024-01-01T00:00:00.000Z" /\
    StorageService.member stored "createdAt" = JString "2024-01-01T00:00:00.000Z".
Proof.
  exact (saveMapping_timestamps (H := Examples.silent_host) Examples.contact_sync
           Examples.contact_sync_normalized Examples.failing_disk StorageService.initial
           eq_refl).
Defined.


Lemma normalizeFieldMapping_idempotent_witness :
  StorageService.normalizeFieldMapping
    (JObject (StoreSpec.canonical_form Examples.snake_entry)) =
  Ok (JObject (StoreSpec.canonical_form Examples.snake_entry)).
Proof.
  destruct (normalizeFieldMapping_idempotent (JObject Examples.snake_entry)
              (JObject (StoreSpec.canonical_form Examples.snake_entry)) eq_refl)
    as (n' & H1 & _ & H3).
  rewrite H1. f_equal. apply H3; simpl; discriminate.
Defined.

Lemma saveMapping_rejects_null_correspondence_witness :
  exists e out,
    StorageService.saveMapping (H := Examples.silent_host) MoreExamples.broken
      Examples.failing_disk StorageService.initial =
      (Throw e, StoreSpec.after_init Examples.failing_disk StorageService.initial, out).
Proof.
  destruct (saveMapping_rejects_null_correspondence (H := Examples.silent_host)
              MoreExamples.broken [JObject Examples.camel_entry; JNull] JNull
              Examples.failing_disk StorageService.initial eq_refl
              (or_intror (or_introl eq_refl)) eq_refl) as (e & out & Hs & _).
  exists e, out. exact Hs.
Defined.

Lemma findMappingsByEndpoint_needs_endpoints_witness :
  let st :=
    (StorageService.saveMapping (H := Examples.silent_host) Examples.hollow
       Examples.failing_disk StorageService.initial).1.2 in
  exists e out,
    StorageAdmin.findMappingsByEndpoint "A" "/contacts" None Examples.failing_disk st =
      (Throw e, st, out).
Proof.
  intros st.
  eapply (findMappingsByEndpoint_needs_endpoints "A" "/contacts" None "hollow" _
            Examples.failing_disk st).
  - vm_compute. reflexivity.
  - intros endpoint Hget. vm_compute in Hget. injection Hget as <-. reflexivity.
Defined.

(** ** The transformation engine: paths, rules and validation *)

Lemma append_cons c s t : String c s +:+ t = String c (s +:+ t).
Proof. reflexivity. Qed.

Lemma append_nil_r s : s +:+ "" = s.
Proof.
  induction s as [|c s IH]; [reflexivity | rewrite append_cons, IH; reflexivity].
Qed.

Lemma append_assoc s t u : (s +:+ t) +:+ u = s +:+ t +:+ u.
Proof.
  induction s as [|c s IH]; [reflexivity | rewrite !append_cons, IH; reflexivity].
Qed.

(** A string without the one-character separator is a single piece. *)
Lemma split_go_plain c s rest cur :
  Str.includes s (String c "") = false ->
  Str.split_go (String c "") (s +:+ rest) 0 cur =
    Str.split_go (String c "") rest 0 (cur +:+ s).
Proof.
  revert cur. induction s as [|d s IH]; intros cur Hs.
  - change ("" +:+ rest) with rest. rewrite append_nil_r. reflexivity.
  - cbn [Str.includes] in Hs. apply orb_false_elim in Hs as [Hd Hs].
    rewrite append_cons. cbn [Str.split_go].
    assert (Hstart : Str.startsWith (String c "") (String d (s +:+ rest)) = false).
    { simpl in Hd |- *. destruct (Ascii.eqb c d); [discriminate Hd | reflexivity]. }
    rewrite Hstart, (IH _ Hs), append_assoc. reflexivity.
Qed.

Lemma split_top_level path :
  Paths.top_level path = true -> Str.split "." path = [path].
Proof.
  unfold Paths.top_level. rewrite negb_true_iff. intros Hp.
  unfold Str.split. rewrite <- (append_nil_r path) at 1.
  rewrite (split_go_plain "." path "" "" Hp). reflexivity.
Qed.

(** The heap is a list of cells and an address a natural: the lemmas on
    lists apply once the two names are unfolded. *)
Ltac as_list := unfold heap, loc in *.

Section EngineFactsMore.
Context `{JsHost}.
Import TransformationService EngineSpec.

Lemma getNestedValue_top_level h obj path :
  path <> "" -> Paths.top_level path = true ->
  getNestedValue h obj (VStr path) =
    if Heap.is_nullish obj then Ok VUndefined else Heap.get h obj path.
Proof.
  intros Hne Htop. unfold getNestedValue. destruct path; [contradiction|].
  cbn [Heap.truthy String.eqb negb segments].
  rewrite (split_top_level _ Htop). simpl.
  destruct (Heap.is_nullish obj); [reflexivity|].
  destruct (Heap.get h obj _); reflexivity.
Qed.

Lemma setNestedValue_top_level h obj path v :
  path <> "" -> Paths.top_level path = true ->
  setNestedValue h obj (VStr path) v =
    match Heap.put h obj path v with
    | Ok h' => (h', Ok tt)
    | Throw e => (h, Throw e)
    end.
Proof.
  intros Hne Htop. unfold setNestedValue. destruct path; [contradiction|].
  cbn [Heap.truthy String.eqb negb segments].
  rewrite (split_top_level _ Htop). reflexivity.
Qed.

(** Writing along a path into an empty object, and reading it back. *)
Lemma descend_fresh parts :
  parts <> [] ->
  forall h l v,
    h !! l = Some (CObject []) ->
    exists h',
      descend h (VRef l) parts v = (h', Ok tt) /\
      walk h' parts (VRef l) = Ok v /\
      length h <= length h' /\
      (forall l' c, l' <> l -> h !! l' = Some c -> h' !! l' = Some c).
Proof.
  induction parts as [|part rest IH]; intros Hne h l v Hl; [contradiction|].
  as_list.
  assert (Hlt : l < length h) by (eapply lookup_lt_Some; exact Hl).
  destruct rest as [|next rest].
  - (* the last segment *)
    exists (<[l := CObject (Js.assign part v [])]> h). split; [|split; [|split]].
    + cbn [descend]. unfold Heap.put. as_list. rewrite Hl. reflexivity.
    + cbn [walk]. change (Heap.is_nullish (VRef l)) with false. cbv iota.
      unfold Heap.get. as_list. rewrite (list_lookup_insert_eq h l _ Hlt).
      rewrite assoc_assign, String.eqb_refl. reflexivity.
    + rewrite length_insert. lia.
    + intros l' c Hne' Hc. rewrite (list_lookup_insert_ne h l l') by congruence. exact Hc.
  - (* an inner segment: a new object is created and entered *)
    cbn [descend]. unfold Heap.has. as_list. rewrite Hl. simpl Js.assoc.
    rewrite bool_decide_eq_false_2 by (intros [? [=]]).
    unfold Heap.alloc, Heap.put. as_list.
    rewrite (lookup_app_l_Some _ _ _ _ Hl).
    set (h2 := <[l := CObject (Js.assign part (VRef (length h)) [])]> (h ++ [CObject []])).
    assert (Hl2 : h2 !! l = Some (CObject (Js.assign part (VRef (length h)) []))).
    { unfold h2. apply list_lookup_insert_eq. rewrite length_app. simpl. lia. }
    assert (Hget : Heap.get h2 (VRef l) part = Ok (VRef (length h))).
    { unfold Heap.get. as_list. rewrite Hl2, assoc_assign, String.eqb_refl. reflexivity. }
    rewrite Hget.
    assert (Hnew : h2 !! length h = Some (CObject [])).
    { unfold h2. rewrite list_lookup_insert_ne by lia.
      rewrite lookup_app_r by lia. rewrite Nat.sub_diag. reflexivity. }
    destruct (IH ltac:(discriminate) h2 (length h) v Hnew)
      as (h' & Hd & Hw & Hlen & Hframe).
    exists h'. split; [exact Hd|]. split; [|split].
    + cbn [walk]. change (Heap.is_nullish (VRef l)) with false. cbv iota.
      assert (Hl' : h' !! l = Some (CObject (Js.assign part (VRef (length h)) [])))
        by (apply Hframe; [lia | exact Hl2]).
      unfold Heap.get at 1. as_list. rewrite Hl', assoc_assign, String.eqb_refl. simpl.
      exact Hw.
    + unfold h2 in Hlen. rewrite length_insert, length_app in Hlen. simpl in Hlen. lia.
    + intros l' c Hne' Hc. apply Hframe.
      * apply lookup_lt_Some in Hc. lia.
      * unfold h2. rewrite list_lookup_insert_ne by congruence.
        apply lookup_app_l_Some. exact Hc.
Qed.

Lemma split_go_not_nil sep s skip cur : Str.split_go sep s skip cur <> [].
Proof.
  revert skip cur. induction s as [|c s IH]; intros skip cur; simpl; [discriminate|].
  destruct skip; [|apply IH].
  destruct (Str.startsWith sep (String c s)); [discriminate | apply IH].
Qed.

Lemma split_not_nil sep c s : Str.split sep (String c s) <> [].
Proof.
  unfold Str.split. destruct sep; [simpl; discriminate | apply split_go_not_nil].
Qed.

(** X18.  Writing a value into an empty object at a non-empty dotted path
    none of whose segments is the name of a member that every object
    inherits ([constructor], [toString], [__proto__], ...) creates the
    objects on the way, and reading the same path back returns exactly the
    value written; no other object of the heap is changed. *)
Theorem setNestedValue_then_getNestedValue h l path v :
  h !! l = Some (CObject []) -> path <> "" ->
  Forall (fun part => Js.inherited part = false) (Str.split "." path) ->
  exists h',
    setNestedValue h (VRef l) (VStr path) v = (h', Ok tt) /\
    getNestedValue h' (VRef l) (VStr path) = Ok v /\
    (forall l' c, l' <> l -> h !! l' = Some c -> h' !! l' = Some c).
Proof.
  intros Hl Hne _. destruct path as [|c r]; [contradiction|].
  destruct (descend_fresh (Str.split "." (String c r)) (split_not_nil _ _ _) h l v Hl)
    as (h' & Hd & Hw & _ & Hframe).
  exists h'. split; [exact Hd|]. split; [exact Hw | exact Hframe].
Qed.

(** The heap after a rule is the heap before it, possibly with one new
    cell. *)
Lemma applyTransformation_heap h v rule :
  (applyTransformation h v rule).1 = h \/
  exists c, (applyTransformation h v rule).1 = h ++ [c].
Proof.
  unfold applyTransformation, Heap.alloc_strings, Heap.alloc.
  destruct (String.eqb (rule_type rule) "direct"); [left; reflexivity|].
  destruct (String.eqb (rule_type rule) "format"); [left; reflexivity|].
  destruct (String.eqb (rule_type rule) "split").
  { destruct v; try (left; reflexivity).
    destruct (Heap.to_string _ _); [|left; reflexivity]. right. eexists. reflexivity. }
  destruct (String.eqb (rule_type rule) "join").
  { destruct v; try (left; reflexivity).
    destruct (Heap.isArray h (VRef l)); [|left; reflexivity].
    destruct (Heap.join _ _ _); left; reflexivity. }
  destruct (String.eqb (rule_type rule) "lookup").
  { destruct (negb _); [left; reflexivity|].
    destruct (Heap.to_string _ _); [|left; reflexivity].
    destruct (Heap.get _ _ _); left; reflexivity. }
  destruct (String.eqb (rule_type rule) "custom").
  { destruct (function rule) as [[|]|]; left; reflexivity. }
  left. reflexivity.
Qed.

Lemma applyFormatTransformation_non_nullish h v rule v' :
  Heap.is_nullish v = false ->
  applyFormatTransformation h v rule = Ok v' -> Heap.is_nullish v' = false.
Proof.
  intros Hv. unfold applyFormatTransformation.
  repeat match goal with
         | |- context [if ?b then _ else _] => destruct b
         | |- context [match Heap.to_string ?h ?x with _ => _ end] =>
             destruct (Heap.to_string h x)
         end; intros [= <-]; try reflexivity; exact Hv.
Qed.

Lemma applyTransformation_non_nullish h v rule h' v' :
  Heap.is_nullish v = false ->
  applyTransformation h v rule = (h', Ok v') -> Heap.is_nullish v' = false.
Proof.
  intros Hv. unfold applyTransformation.
  destruct (String.eqb (rule_type rule) "direct"); [intros [= _ <-]; exact Hv|].
  destruct (String.eqb (rule_type rule) "format").
  { intros [= _ Hf]. eapply applyFormatTransformation_non_nullish; eassumption. }
  destruct (String.eqb (rule_type rule) "split").
  { destruct v; try discriminate. destruct (Heap.to_string _ _); [|discriminate].
    unfold Heap.alloc_strings, Heap.alloc. intros [= _ <-]. reflexivity. }
  destruct (String.eqb (rule_type rule) "join").
  { destruct v; try discriminate. destruct (Heap.isArray _ _); [|discriminate].
    destruct (Heap.join _ _ _); [|discriminate]. intros [= _ <-]. reflexivity. }
  destruct (String.eqb (rule_type rule) "lookup").
  { destruct (negb _); [discriminate|].
    destruct (Heap.to_string _ _); [|discriminate].
    destruct (Heap.get _ _ _) as [found|]; [|discriminate].
    intros [= _ <-]. destruct (Heap.is_nullish found) eqn:Ef; [exact Hv | exact Ef]. }
  destruct (String.eqb (rule_type rule) "custom").
  { destruct (function rule) as [[|]|]; discriminate. }
  intros [= _ <-]. exact Hv.
Qed.

(** X19.  No transformation rule turns a value into [null] or
    [undefined]: whenever a rule succeeds on a value that is neither, its
    result is neither.  In particular the [lookup] rule falls back on the
    value itself when the table has no entry for it, or has [null]. *)
Theorem applyTransformation_keeps_values_present h v rule h' v' :
  Heap.is_nullish v = false ->
  applyTransformation h v rule = (h', Ok v') ->
  Heap.is_nullish v' = false.
Proof. apply applyTransformation_non_nullish. Qed.

Lemma applyTransformation_custom h v rule :
  rule_type rule = "custom" ->
  exists m, applyTransformation h v rule = (h, Throw (Error m)).
Proof.
  intros Ht. unfold applyTransformation. rewrite Ht. simpl.
  destruct (function rule) as [[|]|]; eauto.
Qed.

(** A value that JavaScript counts as false is a primitive, and prints. *)
Lemma to_string_falsy h v :
  Heap.truthy v = false -> exists t, Heap.to_string h v = Ok t.
Proof.
  destruct v as [| |[|]|n|s|l]; simpl; intros Hv; try discriminate Hv;
    eexists; reflexivity.
Qed.

Lemma truthy_not_nullish v : Heap.truthy v = true -> Heap.is_nullish v = false.
Proof. destruct v; simpl; intros Hv; try discriminate Hv; reflexivity. Qed.

(** A write succeeds along a path that is a string only. *)
Lemma setNestedValue_written h obj path x h2 u :
  setNestedValue h obj path x = (h2, Ok u) -> exists t, path = VStr t /\ t <> "".
Proof.
  unfold setNestedValue. destruct (negb (Heap.truthy path)) eqn:Et; [discriminate|].
  destruct path as [| |b|n|t|l]; simpl; try discriminate. intros _.
  exists t. split; [reflexivity|]. intros ->. discriminate Et.
Qed.

(** A write along a path that is no string changes nothing. *)
Lemma setNestedValue_not_string h obj path x :
  (forall t, path <> VStr t) -> (setNestedValue h obj path x).1 = h.
Proof.
  intros Hp. unfold setNestedValue. destruct (negb (Heap.truthy path)); [reflexivity|].
  destruct path as [| |b|n|t|l]; try reflexivity. exfalso. apply (Hp t). reflexivity.
Qed.

(** The [catch] handler leaves the heap as it finds it, and records an
    error for the source path unless its own read of the source value
    throws. *)
Lemma handler_cases h src fm e :
  (handler h src fm e).1 = h /\
  ((exists err,
      (handler h src fm e).2 = Failed err /\
      field err = Heap.coalesce (sourceField fm) (VStr "undefined")) \/
   (exists e',
      (handler h src fm e).2 = Uncaught e' /\
      getNestedValue h src (sourceField fm) = Throw e')).
Proof.
  unfold handler. destruct (Heap.truthy (sourceField fm)).
  - destruct (getNestedValue h src (sourceField fm)) as [o|e'] eqn:Eg; simpl;
      (split; [reflexivity|]); [left | right]; eexists; split; reflexivity.
  - simpl. split; [reflexivity|]. left. eexists. split; reflexivity.
Qed.

(** What one turn of the loop does, case by case: a path is missing; or
    the read of the source value throws, and then throws again in the
    handler; or the value is read, and the turn goes on from it. *)
Lemma processField_cases h src out fm :
  ((Heap.truthy (sourceField fm) = false \/ Heap.truthy (targetField fm) = false) /\
   (processField h src out fm).1 = h /\
   ((exists e, (processField h src out fm).2 = Failed e /\
               field e = Heap.coalesce (sourceField fm) (VStr "undefined")) \/
    (exists e, (processField h src out fm).2 = Uncaught e /\
               getNestedValue h src (sourceField fm) = Throw e))) \/
  (Heap.truthy (sourceField fm) = true /\ Heap.truthy (targetField fm) = true /\
   exists e, getNestedValue h src (sourceField fm) = Throw e /\
             processField h src out fm = (h, Uncaught e)) \/
  (Heap.truthy (sourceField fm) = true /\ Heap.truthy (targetField fm) = true /\
   exists v,
     getNestedValue h src (sourceField fm) = Ok v /\
     ((required fm && Heap.is_nullish v = true /\
       exists e, processField h src out fm = (h, Failed e) /\
                 field e = sourceField fm) \/
      (required fm && Heap.is_nullish v = false /\ v = VUndefined /\
       processField h src out fm = (h, Skipped)) \/
      (required fm && Heap.is_nullish v = false /\ v <> VUndefined /\
       exists h1 tr,
         match transformation fm with
         | Some rule => applyTransformation h v rule
         | None => (h, Ok v)
         end = (h1, tr) /\
         ((exists e0 e, tr = Throw e0 /\ processField h src out fm = (h1, Failed e) /\
             field e = sourceField fm) \/
          (exists x h2, tr = Ok x /\
             ((setNestedValue h1 out (targetField fm) x = (h2, Ok tt) /\
               processField h src out fm = (h2, Written)) \/
              (exists e0, setNestedValue h1 out (targetField fm) x = (h2, Throw e0) /\
                 processField h src out fm = handler h2 src fm e0))))))).
Proof.
  unfold processField.
  destruct (Heap.truthy (sourceField fm)) eqn:Es; simpl negb; cbn [orb].
  2: { left. split; [left; reflexivity|].
       destruct (to_string_falsy h _ Es) as (s & ->).
       destruct (Heap.to_string h (targetField fm)) as [t|e].
       - simpl. split; [reflexivity|]. left. eexists. split; reflexivity.
       - destruct (handler_cases h src fm e) as [Hh Ho]. split; [exact Hh|].
         destruct Ho as [(err & Hf & Hfield)|(e' & Hu & Hg)]; [left | right]; eauto. }
  destruct (Heap.truthy (targetField fm)) eqn:Et; simpl negb; cbv iota.
  2: { left. split; [right; reflexivity|].
       destruct (Heap.to_string h (sourceField fm)) as [s|e].
       - destruct (to_string_falsy h _ Et) as (t & ->).
         simpl. split; [reflexivity|]. left. eexists. split; reflexivity.
       - destruct (handler_cases h src fm e) as [Hh Ho]. split; [exact Hh|].
         destruct Ho as [(err & Hf & Hfield)|(e' & Hu & Hg)]; [left | right]; eauto. }
  right.
  destruct (getNestedValue h src (sourceField fm)) as [v|e] eqn:Eg.
  2: { left. split; [reflexivity|]. split; [reflexivity|]. exists e.
       split; [reflexivity|]. unfold handler. rewrite Es, Eg. reflexivity. }
  right. split; [reflexivity|]. split; [reflexivity|]. exists v. split; [reflexivity|].
  destruct (required fm && Heap.is_nullish v) eqn:Er.
  { left. split; [reflexivity|]. eexists. split; reflexivity. }
  right.
  destruct (match transformation fm with
            | Some rule => applyTransformation h v rule
            | None => (h, Ok v)
            end) as [h1 tr] eqn:Etr.
  destruct v;
    [ left; split; [reflexivity|]; split; reflexivity
    | right; split; [reflexivity|]; split; [discriminate|];
      exists h1, tr; (split; [reflexivity|]);
      (destruct tr as [x|e0];
       [ right; destruct (setNestedValue h1 out (targetField fm) x) as [h2 [[]|e0]] eqn:Eset;
         exists x, h2; (split; [reflexivity|]);
         [ left; split; [exact Eset | reflexivity]
         | right; exists e0; split; [exact Eset | reflexivity] ]
       | left; do 2 eexists; split; [reflexivity|]; split; reflexivity ]) .. ].
Qed.

(** X20.  A correspondence with a [custom] rule never produces a value:
    its turn of the loop leaves the heap as it is and is never a write;
    when the source field holds a value other than [undefined], the turn
    records an error for that field. *)
Theorem custom_rule_never_writes h src out fm rule :
  transformation fm = Some rule -> rule_type rule = "custom" ->
  (processField h src out fm).1 = h /\
  (processField h src out fm).2 <> Written /\
  (forall s v,
     sourceField fm = VStr s -> getNestedValue h src (VStr s) = Ok v -> v <> VUndefined ->
     exists e, (processField h src out fm).2 = Failed e /\ field e = VStr s).
Proof.
  intros Hrule Hcustom.
  destruct (processField_cases h src out fm)
    as [(_ & Hh & Ho)|[(_ & _ & e & Hg & ->)|(Hs & Ht & v & Hg & Hc)]].
  - split; [exact Hh|]. split.
    + destruct Ho as [(e & -> & _)|(e & -> & _)]; discriminate.
    + intros s v Hs Hg Hv. rewrite Hs in Ho.
      destruct Ho as [(e & He & Hf)|(e & _ & Hthrow)].
      * exists e. split; [exact He | exact Hf].
      * rewrite Hg in Hthrow. discriminate Hthrow.
  - simpl. split; [reflexivity|]. split; [discriminate|].
    intros s v Hs Hg' _. rewrite Hs, Hg' in Hg. discriminate Hg.
  - rewrite Hrule in Hc.
    destruct (applyTransformation_custom h v rule Hcustom) as (m & Ha).
    destruct Hc as [(_ & e & -> & Hf)|[(_ & -> & ->)|(_ & Hv & h1 & tr & Htr & Hc)]].
    + simpl. split; [reflexivity|]. split; [discriminate|].
      intros s' v' Hs' _ _. exists e. split; [reflexivity|]. congruence.
    + simpl. split; [reflexivity|]. split; [discriminate|].
      intros s' v' Hs' Hg' Hv'. rewrite Hs' in Hg.
      rewrite Hg in Hg'. injection Hg' as <-. contradiction.
    + rewrite Ha in Htr. injection Htr as <- <-.
      destruct Hc as [(e0 & e & _ & -> & Hf)|(x & h2 & [=] & _)].
      simpl. split; [reflexivity|]. split; [discriminate|].
      intros s' v' Hs' _ _. exists e. split; [reflexivity|]. congruence.
Qed.

Lemma put_object h out ps k x :
  h !! out = Some (CObject ps) ->
  Heap.put h (VRef out) k x = Ok (<[out := CObject (Js.assign k x ps)]> h).
Proof. intros Hl. unfold Heap.put. as_list. rewrite Hl. reflexivity. Qed.

(** One turn with a top-level target path changes the output object only,
    apart from the new array a [split] rule creates. *)
Lemma processField_top_level_frame (h : heap) hx src fm :
  (forall t, targetField fm = VStr t -> Paths.top_level t = true) ->
  (forall l c, h !! l = Some c -> hx !! l = Some c) ->
  (exists ps, hx !! length h = Some (CObject ps)) ->
  (forall l c, h !! l = Some c ->
     (processField hx src (VRef (length h)) fm).1 !! l = Some c) /\
  (exists ps, (processField hx src (VRef (length h)) fm).1 !! length h = Some (CObject ps)).
Proof.
  intros Htop Hkeep (ps & Hout).
  pose proof (processField_cases hx src (VRef (length h)) fm) as Hcases. as_list.
  assert (Hstep : forall h1,
            (h1 = hx \/ exists c, h1 = hx ++ [c]) ->
            (forall l c, h !! l = Some c -> h1 !! l = Some c) /\
            h1 !! length h = Some (CObject ps)).
  { intros h1 [->|(c & ->)]; [auto|]. split.
    - intros l c' Hl. apply lookup_app_l_Some. auto.
    - apply lookup_app_l_Some. exact Hout. }
  destruct Hcases
    as [(_ & -> & _)|[(_ & _ & e & _ & ->)|(Hs & Ht & v & Hg & Hc)]]; [eauto | eauto |].
  destruct Hc as [(_ & e & -> & _)|[(_ & _ & ->)|(_ & Hv & h1 & tr & Htr & Hc)]];
    [eauto | eauto |].
  assert (Hh1 : h1 = hx \/ exists c, h1 = hx ++ [c]).
  { destruct (transformation fm) as [rule|].
    - pose proof (applyTransformation_heap hx v rule) as Hheap.
      rewrite Htr in Hheap. exact Hheap.
    - injection Htr as <- _. left. reflexivity. }
  destruct (Hstep h1 Hh1) as [Hkeep1 Hout1].
  destruct Hc as [(e0 & e & _ & -> & _)|(x & h2 & -> & Hset)]; [simpl; eauto|].
  assert (Hput : forall t, targetField fm = VStr t -> t <> "" ->
            setNestedValue h1 (VRef (length h)) (targetField fm) x =
              (<[length h := CObject (Js.assign t x ps)]> h1, Ok tt)).
  { intros t Ht' Htne. rewrite Ht'.
    rewrite (setNestedValue_top_level h1 _ t x Htne (Htop t Ht')).
    rewrite (put_object h1 _ ps t x Hout1). reflexivity. }
  assert (Hafter : forall t, <[length h := CObject (Js.assign t x ps)]> h1 = h2 ->
            (forall l c, h !! l = Some c -> h2 !! l = Some c) /\
            (exists ps', h2 !! length h = Some (CObject ps'))).
  { intros t <-. split.
    - intros l c Hl. rewrite list_lookup_insert_ne.
      + auto.
      + apply lookup_lt_Some in Hl. lia.
    - eexists. apply list_lookup_insert_eq. eapply lookup_lt_Some. exact Hout1. }
  destruct Hset as [(Hset & ->)|(e0 & Hset & ->)].
  - destruct (setNestedValue_written _ _ _ _ _ _ Hset) as (t & Ht' & Htne).
    rewrite (Hput t Ht' Htne) in Hset. injection Hset as Hh2. simpl.
    apply (Hafter t Hh2).
  - pose proof (handler_cases h2 src fm e0) as [Hh _]. as_list. rewrite Hh. clear Hh.
    assert (Hcase : (exists t, targetField fm = VStr t) \/
                    (forall t, targetField fm <> VStr t)).
    { destruct (targetField fm); try (right; intros t'; discriminate).
      left. eexists. reflexivity. }
    destruct Hcase as [(t & Et')|Hns].
    + assert (Htne : t <> "") by (intros ->; rewrite Et' in Ht; discriminate Ht).
      rewrite (Hput t Et' Htne) in Hset. discriminate Hset.
    + pose proof (setNestedValue_not_string h1 (VRef (length h)) _ x Hns) as Hsame.
      as_list. rewrite Hset in Hsame. simpl in Hsame. subst h2. eauto.
Qed.

Lemma run_top_level_frame (h : heap) src fms :
  forall hx,
    (forall fm t, In fm fms -> targetField fm = VStr t -> Paths.top_level t = true) ->
    (forall l c, h !! l = Some c -> hx !! l = Some c) ->
    (exists ps, hx !! length h = Some (CObject ps)) ->
    forall l c, h !! l = Some c -> (run hx src (VRef (length h)) fms).1 !! l = Some c.
Proof.
  induction fms as [|fm rest IH]; intros hx Htop Hkeep Hout l c Hl; simpl; [auto|].
  destruct (processField_top_level_frame h hx src fm) as [Hkeep1 Hout1];
    [intros t; apply Htop; left; reflexivity | exact Hkeep | exact Hout |].
  destruct (processField hx src (VRef (length h)) fm) as [h1 o]. simpl in *.
  specialize (IH h1 (fun fm' t Hin => Htop fm' t (or_intror Hin)) Hkeep1 Hout1 l c Hl).
  destruct (run h1 src (VRef (length h)) rest) as [h2 os]. exact IH.
Qed.

(** The heap the loop leaves is the heap after the turns it went through:
    all of them, or those before the turn whose handler threw. *)
Lemma applyMappings_prefix src out l h errs :
  exists l1 l2,
    l = l1 ++ l2 /\
    (applyMappings h src out l errs).1 = (run h src out l1).1.
Proof.
  revert h errs. induction l as [|fm rest IH]; intros h errs.
  - exists [], []. split; reflexivity.
  - simpl. destruct (processField h src out fm) as [h1 o] eqn:Ep.
    destruct o as [| |e|e].
    + destruct (IH h1 errs) as (l1 & l2 & -> & Hh).
      exists (fm :: l1), l2. split; [reflexivity|]. simpl. rewrite Ep.
      destruct (run h1 src out l1) as [h2 os]. exact Hh.
    + destruct (IH h1 errs) as (l1 & l2 & -> & Hh).
      exists (fm :: l1), l2. split; [reflexivity|]. simpl. rewrite Ep.
      destruct (run h1 src out l1) as [h2 os]. exact Hh.
    + destruct (IH h1 (errs ++ [e])) as (l1 & l2 & -> & Hh).
      exists (fm :: l1), l2. split; [reflexivity|]. simpl. rewrite Ep.
      destruct (run h1 src out l1) as [h2 os]. exact Hh.
    + exists [fm], rest. split; [reflexivity|]. simpl. rewrite Ep. reflexivity.
Qed.

(** X21.  When every target path of the configuration that is a string is
    a top-level name (it holds no dot), [transformPayload] leaves every
    object that was on the heap before the call as it was, the input
    payload and the objects it refers to included: all writes go to the
    new output object. *)
Theorem top_level_targets_keep_payload h payload mapping :
  (forall fm t, In fm (fieldMappings mapping) -> targetField fm = VStr t ->
     Paths.top_level t = true) ->
  forall l c, h !! l = Some c -> (transformPayload h payload mapping).1 !! l = Some c.
Proof.
  intros Htop l c Hl. unfold transformPayload, Heap.alloc.
  destruct (applyMappings_prefix (VRef payload) (VRef (length h)) (fieldMappings mapping)
              (h ++ [CObject []]) []) as (l1 & l2 & Hsplit & Hh).
  assert (Hgoal : (applyMappings (h ++ [CObject []]) (VRef payload) (VRef (length h))
                     (fieldMappings mapping) []).1 !! l = Some c).
  { rewrite Hh.
    apply (run_top_level_frame h (VRef payload) l1 (h ++ [CObject []])); try assumption.
    - intros fm t Hin. apply Htop. rewrite Hsplit. apply in_or_app. left. exact Hin.
    - intros l' c' Hl'. apply lookup_app_l_Some. exact Hl'.
    - exists []. as_list. rewrite lookup_app_r by lia. rewrite Nat.sub_diag. reflexivity. }
  destruct (applyMappings _ _ _ _ _) as [h1 [errs|e]]; exact Hgoal.
Qed.


(** One turn with a top-level target path, as the output object sees it. *)
Lemma processField_top_level_step hx src out fm ps :
  hx !! out = Some (CObject ps) ->
  (forall t, targetField fm = VStr t -> Paths.top_level t = true) ->
  match (processField hx src (VRef out) fm).2 with
  | Written =>
      exists t x,
        targetField fm = VStr t /\ t <> "" /\
        (processField hx src (VRef out) fm).1 !! out = Some (CObject (Js.assign t x ps)) /\
        (required fm = true -> Heap.is_nullish x = false)
  | Skipped =>
      (processField hx src (VRef out) fm).1 !! out = Some (CObject ps) /\
      required fm = false
  | _ => True
  end.
Proof.
  intros Hout Htop.
  pose proof (processField_cases hx src (VRef out) fm) as Hcases. as_list.
  destruct Hcases
    as [(_ & _ & [(e & -> & _)|(e & -> & _)])|[(_ & _ & e & _ & ->)|(Hs & Ht & v & Hg & Hc)]];
    [exact I | exact I | exact I |].
  destruct Hc as [(_ & e & -> & _)|[(Hr & -> & ->)|(Hr & Hv & h1 & tr & Htr & Hc)]];
    [exact I | |].
  - simpl. split; [exact Hout|]. rewrite andb_true_r in Hr. exact Hr.
  - assert (Hh1 : h1 !! out = Some (CObject ps)).
    { destruct (transformation fm) as [rule|].
      - pose proof (applyTransformation_heap hx v rule) as Hheap.
        rewrite Htr in Hheap. destruct Hheap as [Hh|(c & Hh)]; simpl in Hh; subst h1;
          [exact Hout | apply lookup_app_l_Some; exact Hout].
      - injection Htr as <- _. exact Hout. }
    destruct Hc as [(e0 & e & _ & -> & _)|(x & h2 & -> & Hset)]; [exact I|].
    destruct Hset as [(Hset & ->)|(e0 & _ & ->)].
    2: { pose proof (handler_cases h2 src fm e0) as [_ Hh]. as_list.
         destruct Hh as [(err & -> & _)|(e' & -> & _)]; exact I. }
    destruct (setNestedValue_written _ _ _ _ _ _ Hset) as (t & Ht' & Htne).
    rewrite Ht' in Hset.
    rewrite (setNestedValue_top_level h1 _ t x Htne (Htop t Ht')) in Hset.
    rewrite (put_object h1 _ ps t x Hh1) in Hset. injection Hset as <-. simpl.
    exists t, x. split; [exact Ht'|]. split; [exact Htne|]. split.
    + as_list. apply list_lookup_insert_eq. eapply lookup_lt_Some. exact Hh1.
    + intros Hreq. rewrite Hreq in Hr. simpl in Hr.
      destruct (transformation fm) as [rule|].
      * eapply applyTransformation_non_nullish; eassumption.
      * injection Htr as _ <-. exact Hr.
Qed.

Lemma run_top_level_written src out fms :
  forall hx ps,
    hx !! out = Some (CObject ps) ->
    (forall fm t, In fm fms -> targetField fm = VStr t -> Paths.top_level t = true) ->
    List.NoDup (map targetField fms) ->
    caught (run hx src (VRef out) fms).2 ->
    failures (run hx src (VRef out) fms).2 = [] ->
    exists ps',
      (run hx src (VRef out) fms).1 !! out = Some (CObject ps') /\
      (forall k, ~ In (VStr k) (map targetField fms) -> Js.assoc k ps' = Js.assoc k ps) /\
      (forall fm, In fm fms -> required fm = true ->
         exists t v, targetField fm = VStr t /\ t <> "" /\
                     Js.assoc t ps' = Some v /\ Heap.is_nullish v = false).
Proof.
  induction fms as [|fm rest IH]; intros hx ps Hout Htop Hnd Hcaught Hok.
  - exists ps. split; [exact Hout|]. split; [reflexivity | intros fm []].
  - cbn [map] in Hnd. apply List.NoDup_cons_iff in Hnd as [Hfresh Hnd].
    pose proof (processField_top_level_step hx src out fm ps Hout
                  (fun t => Htop fm t (or_introl eq_refl))) as Hstep.
    cbn [run] in Hok, Hcaught |- *.
    destruct (processField hx src (VRef out) fm) as [h1 o].
    specialize (IH h1). simpl in Hstep.
    destruct (run h1 src (VRef out) rest) as [h2 os]. simpl in IH, Hok, Hcaught |- *.
    inversion Hcaught as [|? ? Ho Hos]; subst.
    destruct o as [| |e|e]; [| |discriminate Hok|contradiction].
    + (* skipped *)
      destruct Hstep as [Hout1 Hreq].
      destruct (IH ps Hout1 (fun fm' t Hin => Htop fm' t (or_intror Hin)) Hnd Hos Hok)
        as (ps' & Hout2 & Hother & Hrequired).
      exists ps'. split; [exact Hout2|]. split.
      * intros k Hk. apply Hother. cbn [map In] in Hk. tauto.
      * intros fm' [<-|Hin] Hr; [congruence | auto].
    + (* written *)
      destruct Hstep as (t & x & Ht & Htne & Hout1 & Hx).
      destruct (IH _ Hout1 (fun fm' t Hin => Htop fm' t (or_intror Hin)) Hnd Hos Hok)
        as (ps' & Hout2 & Hother & Hrequired).
      exists ps'. split; [exact Hout2|]. split.
      * intros k Hk. cbn [map In] in Hk. rewrite Hother by tauto.
        rewrite assoc_assign. destruct (String.eqb t k) eqn:Ek; [|reflexivity].
        apply String.eqb_eq in Ek. subst k. rewrite Ht in Hk. tauto.
      * intros fm' [<-|Hin] Hr; [|auto].
        exists t, x. split; [exact Ht|]. split; [exact Htne|]. split; [|auto].
        rewrite Hother by (rewrite <- Ht; exact Hfresh).
        rewrite assoc_assign, String.eqb_refl. reflexivity.
Qed.

Lemma checkRequired_present h out ps paths errors :
  h !! out = Some (CObject ps) ->
  (forall p, In p paths ->
     exists t v, p = VStr t /\ t <> "" /\ Paths.top_level t = true /\
                 Js.assoc t ps = Some v /\ Heap.is_nullish v = false) ->
  PayloadChecks.checkRequired h (VRef out) paths errors = Ok errors.
Proof.
  intros Hout. induction paths as [|p rest IH]; intros Hall; [reflexivity|].
  destruct (Hall p (or_introl eq_refl)) as (t & v & -> & Htne & Htop & Hv & Hn).
  cbn [PayloadChecks.checkRequired].
  rewrite (getNestedValue_top_level h (VRef out) t Htne Htop).
  change (Heap.is_nullish (VRef out)) with false. cbv iota.
  unfold Heap.get. as_list. rewrite Hout, Hv. simpl. rewrite Hn.
  apply IH. intros p' Hin. apply Hall. right. exact Hin.
Qed.

End EngineFactsMore.

Section ValidationFacts.
Context `{JsHost} `{ValidationHost}.
Import TransformationService EngineSpec.

(** X22.  After a successful [transformPayload] with a configuration whose
    target paths are distinct top-level names, [validateTransformedPayload]
    of the output object (without validation rules) neither throws nor
    reports an error: every required correspondence has left, at its
    target, a value that is neither [null] nor [undefined]. *)
Theorem successful_transformation_validates h payload mapping h' r :
  transformPayload h payload mapping = (h', Ok r) ->
  success r = true ->
  (forall fm t, In fm (fieldMappings mapping) -> targetField fm = VStr t ->
     Paths.top_level t = true) ->
  NoDup (map targetField (fieldMappings mapping)) ->
  transformedPayload r = Some (VRef (length h)) /\
  PayloadChecks.validateTransformedPayload h' (VRef (length h)) mapping None =
    Ok {| MappingChecks.valid := true; MappingChecks.errors := [] |}.
Proof.
  intros Hrun Hsuccess Htop Hnd. apply NoDup_ListNoDup in Hnd.
  unfold transformPayload, Heap.alloc in Hrun.
  destruct (applyMappings (h ++ [CObject []]) (VRef payload) (VRef (length h))
              (fieldMappings mapping) []) as [h1 [errs|e]] eqn:Ea; [|discriminate Hrun].
  pose proof (applyMappings_returns _ _ _ _ _ _ _ Ea) as Hcaught.
  rewrite (applyMappings_caught _ _ _ _ _ Hcaught) in Ea. simpl in Ea.
  injection Ea as <- <-. injection Hrun as <- <-. simpl in Hsuccess |- *.
  apply bool_decide_eq_true in Hsuccess. rewrite Hsuccess.
  split; [reflexivity|].
  destruct (run_top_level_written (VRef payload) (length h) (fieldMappings mapping)
              (h ++ [CObject []]) []) as (ps' & Hout & _ & Hrequired); try assumption.
  { as_list. rewrite lookup_app_r by lia. rewrite Nat.sub_diag. reflexivity. }
  unfold PayloadChecks.validateTransformedPayload.
  rewrite (checkRequired_present _ _ ps' _ [] Hout); [reflexivity|].
  intros p Hin. apply in_map_iff in Hin as (fm & <- & Hin).
  apply filter_In in Hin as [Hin Hreq].
  destruct (Hrequired fm Hin Hreq) as (t & v & Ht & Htne & Hv & Hn).
  exists t, v. split; [exact Ht|]. split; [exact Htne|].
  split; [exact (Htop fm t Hin Ht)|]. split; assumption.
Qed.

End ValidationFacts.

(** *** The [join] and [split] rules *)

Lemma to_uint_not_nil n : Nat.to_uint n <> Decimal.Nil.
Proof.
  intros Hn. pose proof (DecimalNat.Unsigned.of_to n) as Hof. rewrite Hn in Hof.
  simpl in Hof. subst n. discriminate Hn.
Qed.

Lemma decimal_inj a b : decimal a = decimal b -> a = b.
Proof.
  unfold decimal. intros Hd.
  apply (f_equal NilZero.uint_of_string) in Hd.
  rewrite !NilZero.usu in Hd by apply to_uint_not_nil.
  injection Hd as Hd. apply DecimalNat.Unsigned.to_uint_inj. exact Hd.
Qed.

Lemma assoc_indexed (xs : list string) k i x :
  xs !! i = Some x ->
  Js.assoc (decimal (k + i)) (imap (fun j s => (decimal (k + j), VStr s)) xs)
    = Some (VStr x).
Proof.
  revert k i. induction xs as [|y xs IH]; intros k i Hx; [discriminate|].
  rewrite imap_cons. cbn [Js.assoc]. destruct i as [|i].
  - injection Hx as ->. rewrite String.eqb_refl. reflexivity.
  - replace (String.eqb (decimal (k + 0)) (decimal (k + S i))) with false.
    + rewrite (imap_ext _ (fun j s => (decimal (S k + j), VStr s))).
      * replace (k + S i) with (S k + i) by lia. apply IH. exact Hx.
      * intros j s _. simpl. f_equal. f_equal. lia.
    + symmetry. apply String.eqb_neq. intros Hd. apply decimal_inj in Hd. lia.
Qed.

Lemma decimal_digit n : exists c r, decimal n = String c r /\ c <> "j"%char.
Proof.
  unfold decimal. pose proof (to_uint_not_nil n) as Hn.
  destruct (Nat.to_uint n); [contradiction|..];
    simpl; do 2 eexists; (split; [reflexivity | discriminate]).
Qed.

Lemma has_own_indexed (xs : list string) k :
  Heap.has_own (imap (fun j s => (decimal (k + j), VStr s)) xs) "join" = false.
Proof.
  unfold Heap.has_own. revert k. induction xs as [|x xs IH]; intros k; [reflexivity|].
  rewrite imap_cons. cbn [Js.assoc].
  destruct (decimal_digit (k + 0)) as (c & r & -> & Hc).
  replace (String.eqb (String c r) "join") with false.
  - rewrite (imap_ext _ (fun j s => (decimal (S k + j), VStr s))); [apply IH|].
    intros j s _. simpl. f_equal. f_equal. lia.
  - symmetry. apply String.eqb_neq. intros [= Hj _]. contradiction.
Qed.

Lemma collect_ok {A} (l : list A) : collect (map Ok l) = Ok l.
Proof. induction l as [|a l IH]; simpl; [|rewrite IH]; reflexivity. Qed.


Section JoinSplit.
Context `{JsHost}.
Import TransformationService.




Lemma join_alloc_strings h xs sep :
  Heap.join (Heap.alloc_strings h xs).1 (Heap.alloc_strings h xs).2 (VStr sep)
    = Ok (Str.join sep xs).
Proof.
  unfold Heap.alloc_strings, Heap.alloc, Heap.join. simpl. as_list.
  rewrite lookup_app_r by lia. rewrite Nat.sub_diag. simpl.
  pose proof (has_own_indexed xs 0) as Hown. cbn [Nat.add] in Hown. rewrite Hown.
  replace (map _ (seq 0 (length xs))) with (map (@Ok string) xs).
  - rewrite collect_ok. reflexivity.
  - apply list_eq. intros i. rewrite !list_lookup_fmap.
    destruct (xs !! i) as [x|] eqn:Ex.
    + rewrite (lookup_seq_lt _ _ i) by (eapply lookup_lt_Some; exact Ex). simpl.
      pose proof (assoc_indexed xs 0 i x Ex) as Ha. cbn [Nat.add] in Ha.
      rewrite Ha. reflexivity.
    + rewrite lookup_seq_ge by (apply lookup_ge_None; exact Ex). reflexivity.
Qed.

Lemma isArray_alloc_strings h xs :
  Heap.isArray (Heap.alloc_strings h xs).1 (VRef (Heap.alloc_strings h xs).2) = true.
Proof.
  unfold Heap.alloc_strings, Heap.alloc, Heap.isArray. simpl. as_list.
  rewrite lookup_app_r by lia. rewrite Nat.sub_diag. reflexivity.
Qed.

Lemma split_go_join xs :
  xs <> [] ->
  (forall x, In x xs -> Str.includes x "," = false) ->
  forall cur,
    Str.split_go "," (Str.join ", " xs) 0 cur =
      match xs with
      | x :: rest => (cur +:+ x) :: map (String " ") rest
      | [] => []
      end.
Proof.
  induction xs as [|x rest IH]; intros Hne Hplain cur; [contradiction|].
  destruct rest as [|y rest].
  - cbn [Str.join map]. rewrite <- (append_nil_r x) at 1.
    rewrite (split_go_plain "," x "" cur) by (apply Hplain; left; reflexivity).
    reflexivity.
  - change (Str.join ", " (x :: y :: rest))
      with (x +:+ String "," (String " " (Str.join ", " (y :: rest)))).
    rewrite (split_go_plain "," x _ cur) by (apply Hplain; left; reflexivity).
    cbn [Str.split_go Str.startsWith Ascii.eqb Bool.eqb andb String.length Nat.sub].
    change (String.length "" ) with 0.
    rewrite (IH ltac:(discriminate) (fun z Hz => Hplain z (or_intror Hz)) ("" +:+ " ")).
    reflexivity.
Qed.

Lemma trim_space s : Str.trim (String " " s) = Str.trim s.
Proof. reflexivity. Qed.

Lemma split_join xs :
  xs <> [] ->
  (forall x, In x xs -> Str.includes x "," = false /\ Str.trim x = x) ->
  map Str.trim (Str.split "," (Str.join ", " xs)) = xs.
Proof.
  intros Hne Hall. unfold Str.split.
  rewrite (split_go_join xs Hne (fun x Hx => proj1 (Hall x Hx)) "").
  destruct xs as [|x rest]; [contradiction|].
  cbn [map]. change ("" +:+ x) with x.
  rewrite (proj2 (Hall x (or_introl eq_refl))). f_equal.
  rewrite map_map. rewrite <- (map_id rest) at 2. apply map_ext_in.
  intros y Hy. rewrite trim_space. apply (Hall y). right. exact Hy.
Qed.

(** X23.  The [join] rule and the [split] rule that [suggestTransformation]
    proposes undo one another on an array of strings: joining a non-empty
    array whose elements hold no comma and no white space at either end,
    and splitting the text obtained, gives an array of the same strings in
    the same order. *)
Theorem join_then_split_round_trip h xs :
  xs <> [] ->
  (forall x, In x xs -> Str.includes x "," = false /\ Str.trim x = x) ->
  let h1 := (Heap.alloc_strings h xs).1 in
  let l := (Heap.alloc_strings h xs).2 in
  MappingService.suggestTransformation (leaf ARRAY) (leaf STRING)
    = Some MoreExamples.join_rule /\
  MappingService.suggestTransformation (leaf STRING) (leaf ARRAY)
    = Some MoreExamples.split_rule /\
  applyTransformation h1 (VRef l) MoreExamples.join_rule =
    (h1, Ok (VStr (Str.join ", " xs))) /\
  applyTransformation h1 (VStr (Str.join ", " xs)) MoreExamples.split_rule =
    ((Heap.alloc_strings h1 xs).1, Ok (VRef (Heap.alloc_strings h1 xs).2)).
Proof.
  intros Hne Hall h1 l. split; [reflexivity|]. split; [reflexivity|]. split.
  - unfold applyTransformation. simpl String.eqb. cbv iota.
    unfold h1, l. rewrite isArray_alloc_strings.
    change (or_else _ _) with (VStr ", ").
    rewrite join_alloc_strings. reflexivity.
  - unfold applyTransformation. simpl String.eqb. cbv iota.
    change (Heap.to_string h1 (or_else _ _)) with (@Ok string ",").
    cbv iota. rewrite (split_join xs Hne Hall). reflexivity.
Qed.



End JoinSplit.

(** *** Example payloads *)

Lemma assoc_present {A} k (l : list (string * A)) :
  In k (map fst l) -> exists v, Js.assoc k l = Some v.
Proof.
  induction l as [|[k' v] l IH]; intros Hin; [contradiction|]. simpl.
  destruct (String.eqb k' k) eqn:Ek; [eauto|].
  destruct Hin as [Hk|Hin]; [|auto].
  simpl in Hk. subst k'. rewrite String.eqb_refl in Ek. discriminate.
Qed.

Lemma filter_none {A} (f : A -> bool) (l : list A) :
  (forall x, In x l -> f x = false) -> List.filter f l = [].
Proof.
  induction l as [|x l IH]; intros Hall; [reflexivity|]. simpl.
  rewrite (Hall x (or_introl eq_refl)).
  apply IH. intros y Hy. apply Hall. right. exact Hy.
Qed.

Lemma simple_path_inv path :
  Paths.simple_path path = true ->
  exists p, path = VStr p /\ p <> "" /\ Paths.top_level p = true.
Proof.
  destruct path as [| |b|n|[|c r]|l]; try discriminate. intros Htop.
  eexists. split; [reflexivity|]. split; [discriminate | exact Htop].
Qed.

Lemma mapped_in paths key :
  In (VStr key) paths -> TransformationService.mapped paths key = true.
Proof.
  intros Hin. unfold TransformationService.mapped. apply existsb_exists.
  exists (VStr key). split; [exact Hin|]. simpl. apply String.eqb_refl.
Qed.

Section ExampleFacts.
Context `{JsHost}.
Import TransformationService EngineSpec.

Lemma plain_inv fm :
  Paths.plain fm = true ->
  (exists s, sourceField fm = VStr s /\ s <> "" /\ Paths.top_level s = true) /\
  (exists t, targetField fm = VStr t /\ t <> "" /\ Paths.top_level t = true) /\
  (forall h, exists v,
             (PayloadChecks.exampleValue h fm).2 = Ok v /\
             Heap.is_nullish v = false /\
             ((PayloadChecks.exampleValue h fm).1 = h \/
              exists c, (PayloadChecks.exampleValue h fm).1 = h ++ [c])) /\
  (forall h v, match transformation fm with
               | Some rule => applyTransformation h v rule
               | None => (h, Ok v)
               end = (h, Ok v)).
Proof.
  unfold Paths.plain. intros Hp.
  apply andb_prop in Hp as [Hp Hrule]. apply andb_prop in Hp as [Hp Htype].
  apply andb_prop in Hp as [Hs Ht].
  pose proof (simple_path_inv _ Hs) as Hsource.
  split; [exact Hsource|]. split; [apply simple_path_inv; exact Ht|].
  split.
  - intros h. destruct Hsource as (s & Es & _).
    unfold PayloadChecks.exampleValue, Heap.alloc_strings, Heap.alloc. rewrite Es.
    destruct (sourceType fm) as [[]|]; try discriminate Htype; simpl;
      eexists; (split; [reflexivity|]); (split; [reflexivity|]); eauto.
  - intros h v. destruct (transformation fm) as [rule|]; [|reflexivity].
    unfold applyTransformation. rewrite Hrule. reflexivity.
Qed.

(** The loop of [generateExamplePayload] on plain correspondences with
    distinct source names. *)
Lemma fill_plain ex fms :
  forall hx ps,
    hx !! ex = Some (CObject ps) ->
    (forall fm, In fm fms -> Paths.plain fm = true) ->
    List.NoDup (map sourceField fms) ->
    exists hy ps',
      PayloadChecks.fill hx (VRef ex) fms = (hy, Ok tt) /\
      hy !! ex = Some (CObject ps') /\
      (forall k, ~ In (VStr k) (map sourceField fms) -> Js.assoc k ps' = Js.assoc k ps) /\
      (forall fm, In fm fms ->
         exists s v, sourceField fm = VStr s /\ Js.assoc s ps' = Some v /\
                     Heap.is_nullish v = false).
Proof.
  induction fms as [|fm rest IH]; intros hx ps Hex Hplain Hnd.
  - exists hx, ps. split; [reflexivity|]. split; [exact Hex|].
    split; [reflexivity | intros fm []].
  - cbn [map] in Hnd. apply List.NoDup_cons_iff in Hnd as [Hfresh Hnd].
    destruct (plain_inv fm (Hplain fm (or_introl eq_refl)))
      as ((s & Hs & Hsne & Hstop) & _ & Hval & _).
    destruct (Hval hx) as (v & Hvalue & Hv & Hh1). cbn [PayloadChecks.fill].
    destruct (PayloadChecks.exampleValue hx fm) as [h1 rv]. simpl in Hvalue, Hh1.
    subst rv. rewrite Hs. destruct s as [|c r]; [contradiction|].
    change (Heap.truthy (VStr (String c r))) with true. cbv iota.
    assert (Hex1 : h1 !! ex = Some (CObject ps)).
    { destruct Hh1 as [->|(c0 & ->)]; [exact Hex | apply lookup_app_l_Some; exact Hex]. }
    rewrite (setNestedValue_top_level h1 _ (String c r) v Hsne Hstop).
    rewrite (put_object h1 _ ps _ v Hex1).
    assert (Hex2 : <[ex := CObject (Js.assign (String c r) v ps)]> h1 !! ex =
                   Some (CObject (Js.assign (String c r) v ps))).
    { as_list. apply list_lookup_insert_eq. eapply lookup_lt_Some. exact Hex1. }
    destruct (IH _ _ Hex2 (fun fm' Hin => Hplain fm' (or_intror Hin)) Hnd)
      as (hy & ps' & Hfill & Hey & Hother & Hall).
    exists hy, ps'. split; [exact Hfill|]. split; [exact Hey|]. split.
    + intros k Hk. cbn [map In] in Hk. rewrite Hother by tauto.
      rewrite assoc_assign. destruct (String.eqb (String c r) k) eqn:Ek; [|reflexivity].
      apply String.eqb_eq in Ek. subst k. rewrite Hs in Hk. tauto.
    + intros fm' [<-|Hin]; [|auto].
      exists (String c r), v. split; [exact Hs|]. split; [|exact Hv].
      rewrite Hother by (rewrite <- Hs; exact Hfresh).
      rewrite assoc_assign, String.eqb_refl. reflexivity.
Qed.

(** Plain correspondences whose source fields the payload holds are all
    written. *)
Lemma run_plain ex out psx fms :
  ex <> out ->
  forall hx,
    hx !! ex = Some (CObject psx) ->
    (exists pso, hx !! out = Some (CObject pso)) ->
    (forall fm, In fm fms ->
       Paths.plain fm = true /\
       exists s v, sourceField fm = VStr s /\ Js.assoc s psx = Some v /\
                   Heap.is_nullish v = false) ->
    caught (run hx (VRef ex) (VRef out) fms).2 /\
    failures (run hx (VRef ex) (VRef out) fms).2 = [].
Proof.
  intros Hne. induction fms as [|fm rest IH]; intros hx Hex (pso & Hout) Hall;
    [split; [constructor | reflexivity]|].
  destruct (Hall fm (or_introl eq_refl)) as (Hplain & s0 & v0 & Hs0 & Hv0 & Hn0).
  destruct (plain_inv fm Hplain) as (_ & (t0 & Ht0 & Ht0ne & Ht0top) & _ & Hrule).
  destruct (plain_inv fm Hplain) as ((s1 & Hs1 & Hs1ne & Hs1top) & _).
  assert (s1 = s0) by congruence. subst s1.
  assert (Hread : getNestedValue hx (VRef ex) (VStr s0) = Ok v0).
  { rewrite (getNestedValue_top_level hx _ s0 Hs1ne Hs1top).
    change (Heap.is_nullish (VRef ex)) with false. cbv iota.
    unfold Heap.get. as_list. rewrite Hex, Hv0. reflexivity. }
  assert (Hturn : processField hx (VRef ex) (VRef out) fm =
                  (<[out := CObject (Js.assign t0 v0 pso)]> hx, Written)).
  { unfold processField. rewrite Hs0, Ht0.
    destruct s0 as [|cs rs]; [contradiction|]. destruct t0 as [|ct rt]; [contradiction|].
    cbn [Heap.truthy String.eqb negb orb]. cbv iota. rewrite Hread, Hn0, andb_false_r.
    rewrite Hrule. destruct v0; try discriminate Hn0;
      rewrite (setNestedValue_top_level hx _ _ _ Ht0ne Ht0top);
      rewrite (put_object hx _ pso _ _ Hout); reflexivity. }
  cbn [run]. rewrite Hturn.
  assert (Hex1 : <[out := CObject (Js.assign t0 v0 pso)]> hx !! ex = Some (CObject psx)).
  { as_list. rewrite list_lookup_insert_ne by congruence. exact Hex. }
  assert (Hout1 : exists pso', <[out := CObject (Js.assign t0 v0 pso)]> hx !! out =
                               Some (CObject pso')).
  { eexists. as_list. apply list_lookup_insert_eq. eapply lookup_lt_Some. exact Hout. }
  specialize (IH _ Hex1 Hout1 (fun fm' Hin => Hall fm' (or_intror Hin))).
  destruct (run _ (VRef ex) (VRef out) rest) as [h2 os]. simpl in IH |- *.
  destruct IH as [Hc Hf]. split; [constructor; [exact I | exact Hc] | exact Hf].
Qed.

(** X26.  The example payload that [generateExamplePayload] builds for a
    configuration is one the configuration transforms without error.
    When the correspondences copy distinct top-level source fields, each
    of a declared type other than [null], to top-level target fields
    (with no rule, or the [direct] one), the generation succeeds,
    [transformPayload] of the example succeeds, and no field of the
    example is reported as unmapped. *)
Theorem example_payload_transforms h mapping :
  (forall fm, In fm (fieldMappings mapping) -> Paths.plain fm = true) ->
  NoDup (map sourceField (fieldMappings mapping)) ->
  exists h1 example h2 r,
    PayloadChecks.generateExamplePayload h mapping = (h1, Ok (VRef example)) /\
    transformPayload h1 example mapping = (h2, Ok r) /\
    success r = true /\ errors r = None /\
    unmappedFields r = None /\ warnings r = None.
Proof.
  intros Hplain Hnd. apply NoDup_ListNoDup in Hnd.
  unfold PayloadChecks.generateExamplePayload, Heap.alloc.
  assert (Hex0 : (h ++ [CObject []]) !! length h = Some (CObject [])).
  { as_list. rewrite lookup_app_r by lia. rewrite Nat.sub_diag. reflexivity. }
  destruct (fill_plain (length h) (fieldMappings mapping) _ _ Hex0 Hplain Hnd)
    as (h1 & ps & Hfill & Hex & Hother & Hall).
  rewrite Hfill. exists h1, (length h).
  unfold transformPayload, Heap.alloc.
  assert (Hlt : length h < length h1) by (as_list; eapply lookup_lt_Some; exact Hex).
  assert (Hex1 : (h1 ++ [CObject []]) !! length h = Some (CObject ps))
    by (apply lookup_app_l_Some; exact Hex).
  assert (Hok : caught (run (h1 ++ [CObject []]) (VRef (length h)) (VRef (length h1))
                          (fieldMappings mapping)).2 /\
                failures (run (h1 ++ [CObject []]) (VRef (length h)) (VRef (length h1))
                            (fieldMappings mapping)).2 = []).
  { apply (run_plain (length h) (length h1) ps).
    - as_list. lia.
    - exact Hex1.
    - exists []. as_list. rewrite lookup_app_r by lia. rewrite Nat.sub_diag. reflexivity.
    - intros fm Hin. split; [apply Hplain; exact Hin | apply Hall; exact Hin]. }
  destruct Hok as [Hcaught Hok].
  rewrite (applyMappings_caught _ _ _ _ _ Hcaught).
  assert (Hkeys : List.filter
                    (fun key => negb (mapped (map sourceField (fieldMappings mapping)) key))
                    (keys (h1 ++ [CObject []]) (length h)) = []).
  { apply filter_none. intros key Hkey. unfold keys in Hkey. as_list.
    rewrite Hex1 in Hkey. simpl in Hkey.
    destruct (assoc_present key ps Hkey) as (v & Hv).
    destruct (mapped (map sourceField (fieldMappings mapping)) key) eqn:Em; [reflexivity|].
    rewrite Hother in Hv; [discriminate Hv|].
    intros Hin. rewrite (mapped_in _ _ Hin) in Em. discriminate Em. }
  rewrite Hkeys, Hok. simpl. do 2 eexists. split; [reflexivity|].
  split; [reflexivity|]. repeat split; reflexivity.
Qed.

End ExampleFacts.

Lemma setNestedValue_then_getNestedValue_witness :
  exists h',
    TransformationService.setNestedValue (H := Examples.silent_host)
      [CObject []] (VRef 0) (VStr "user.address.city") (VStr "Paris") = (h', Ok tt) /\
    TransformationService.getNestedValue h' (VRef 0) (VStr "user.address.city")
      = Ok (VStr "Paris").
Proof.
  destruct (setNestedValue_then_getNestedValue (H := Examples.silent_host)
              [CObject []] 0 "user.address.city" (VStr "Paris") eq_refl)
    as (h' & Hs & Hg & _); [discriminate | repeat constructor |].
  exists h'. split; [exact Hs | exact Hg].
Defined.

Lemma applyTransformation_keeps_values_present_witness :
  let table := [CObject [("Lutetia", VStr "Paris")]] in
  let lookup :=
    {| rule_type := "lookup"; params := Some [("table", VRef 0)]; function := None |} in
  TransformationService.applyTransformation (H := Examples.silent_host)
    table (VStr "Lutetia") lookup = (table, Ok (VStr "Paris")) /\
  TransformationService.applyTransformation (H := Examples.silent_host)
    table (VStr "Roma") lookup = (table, Ok (VStr "Roma")) /\
  Heap.is_nullish (VStr "Roma") = false.
Proof.
  intros table lookup. split; [reflexivity|]. split; [reflexivity|].
  apply (applyTransformation_keeps_values_present (H := Examples.silent_host)
           table (VStr "Roma") lookup table (VStr "Roma")); reflexivity.
Defined.

Lemma custom_rule_never_writes_witness :
  let turn :=
    TransformationService.processField (H := Examples.silent_host)
      (MoreExamples.names ++ [CObject []]) (VRef 0) (VRef 1)
      (Examples.correspondence "first" "given" false (Some MoreExamples.custom_rule)) in
  turn.1 = MoreExamples.names ++ [CObject []] /\
  turn.2 <> TransformationService.Written /\
  exists e, turn.2 = TransformationService.Failed e /\
            TransformationService.field e = VStr "first".
Proof.
  intros turn.
  destruct (custom_rule_never_writes (H := Examples.silent_host)
              (MoreExamples.names ++ [CObject []]) (VRef 0) (VRef 1)
              (Examples.correspondence "first" "given" false
                 (Some MoreExamples.custom_rule))
              MoreExamples.custom_rule eq_refl eq_refl) as (Hh & Hw & Hf).
  split; [exact Hh|]. split; [exact Hw|].
  apply (Hf "first" (VStr "Ada")); [reflexivity | reflexivity | discriminate].
Defined.

Lemma top_level_targets_keep_payload_witness :
  (TransformationService.transformPayload (H := Examples.silent_host)
     Examples.contact 0
     (Examples.mapping_of [Examples.correspondence "address" "location" false None;
                           Examples.correspondence "city" "town" false None])).1
    !! 1%nat = Some (CObject [("street", VStr "Main")]).
Proof.
  apply (top_level_targets_keep_payload (H := Examples.silent_host) Examples.contact 0).
  - intros fm t [<-|[<-|[]]] [= <-]; reflexivity.
  - reflexivity.
Defined.

Lemma successful_transformation_validates_witness :
  let mapping :=
    Examples.mapping_of [Examples.correspondence "first" "given" true None;
                         Examples.correspondence "last" "family" false None] in
  PayloadChecks.validateTransformedPayload
    (H := Examples.silent_host) (H0 := MoreExamples.silent_validation)
    (TransformationService.transformPayload (H := Examples.silent_host)
       MoreExamples.names 0 mapping).1 (VRef 1) mapping None =
  Ok {| MappingChecks.valid := true; MappingChecks.errors := [] |}.
Proof.
  intros mapping.
  destruct (TransformationService.transformPayload (H := Examples.silent_host)
              MoreExamples.names 0 mapping) as [h' [r|e]] eqn:Erun;
    [|vm_compute in Erun; discriminate Erun].
  assert (Hr : TransformationService.success r = true)
    by (vm_compute in Erun; injection Erun as _ <-; reflexivity).
  destruct (successful_transformation_validates (H := Examples.silent_host)
              (H0 := MoreExamples.silent_validation)
              MoreExamples.names 0 mapping h' r Erun Hr) as [_ Hv].
  - intros fm t [<-|[<-|[]]] [= <-]; reflexivity.
  - apply NoDup_cons_2; [|apply NoDup_cons_2; [|apply NoDup_nil_2]];
      intros Hin; apply list_elem_of_In in Hin; simpl in Hin;
      repeat (destruct Hin as [Hin|Hin]; [discriminate Hin|]); exact Hin.
  - exact Hv.
Defined.

Lemma join_then_split_round_trip_witness :
  let h1 := (Heap.alloc_strings [] ["red"; "dark green"]).1 in
  TransformationService.applyTransformation (H := Examples.silent_host) h1 (VRef 0)
    MoreExamples.join_rule = (h1, Ok (VStr "red, dark green")) /\
  TransformationService.applyTransformation (H := Examples.silent_host) h1
    (VStr "red, dark green") MoreExamples.split_rule =
    ((Heap.alloc_strings h1 ["red"; "dark green"]).1, Ok (VRef 1)).
Proof.
  intros h1.
  destruct (join_then_split_round_trip (H := Examples.silent_host) []
              ["red"; "dark green"]) as (_ & _ & Hj & Hs).
  - discriminate.
  - intros x [<-|[<-|[]]]; split; reflexivity.
  - split; [exact Hj | exact Hs].
Defined.


Lemma example_payload_transforms_witness :
  let mapping :=
    Examples.mapping_of
      [ {| sourceField := VStr "name"; targetField := VStr "fullName";
           sourceType := Some STRING; targetType := Some STRING;
           transformation := None; required := true |};
        {| sourceField := VStr "tags"; targetField := VStr "labels";
           sourceType := Some ARRAY; targetType := Some ARRAY;
           transformation := None; required := false |} ] in
  exists h1 example h2 r,
    PayloadChecks.generateExamplePayload (H := Examples.silent_host) [] mapping
      = (h1, Ok (VRef example)) /\
    h1 !! example = Some (CObject [("name", VStr "example_name"); ("tags", VRef 1)]) /\
    TransformationService.transformPayload (H := Examples.silent_host) h1 example mapping
      = (h2, Ok r) /\
    TransformationService.success r = true.
Proof.
  intros mapping.
  destruct (example_payload_transforms (H := Examples.silent_host) [] mapping)
    as (h1 & example & h2 & r & Hg & Ht & Hs & _).
  - intros fm [<-|[<-|[]]]; reflexivity.
  - apply NoDup_cons_2; [|apply NoDup_cons_2; [|apply NoDup_nil_2]];
      intros Hin; apply list_elem_of_In in Hin; simpl in Hin;
      repeat (destruct Hin as [Hin|Hin]; [discriminate Hin|]); exact Hin.
  - exists h1, example, h2, r. split; [exact Hg|]. split; [|split; assumption].
    vm_compute in Hg. injection Hg as <- <-. reflexivity.
Defined.
